(** * auto_insur2me: aggregation engine, metric derivation, filtering and caches

    A shallow embedding of the TypeScript sources:
    - [services/metricCalculator]  (class [MetricCalculator])
    - [lib/calculations]           ([calculateFields], [groupByAndCalculate])
    - [lib/calculations]           ([validateRecord], [calculateGrowthRate],
                                    [calculateMovingAverage])
    - [lib/data-processor]         ([filterData], [paginateData])
    - [DataService.applyFilters], [DataService.getCache],
      [DataService.calculateGlobalMetrics]
    - [InsuranceDatabase] (cache helpers, [aggregateByDimensions], [getStats])
    - [MemoryCache], [ChunkLoader], [PerformanceMonitor], [DataOptimizer]
                                   (performance module)

    Conventions of the embedding.
    - A JavaScript [number] is an exact rational ([Q]) or [NaN]; the binary
      rounding of IEEE-754 doubles and the infinities are not represented.
      Numeric results are compared with [Qeq] ([==]). Where the source
      divides without a guard ([JsNumber]), a number may also be an infinity.
    - A count, an index or a page number is an integer ([Z] or [nat]).
    - A JavaScript object used as a record is a [gmap string jsval]; reading
      a property that is not there gives [undefined].
    - A [Map] whose iteration order matters is the list of its entries in
      insertion order; a [Map] whose order is never observed is a [gmap].
    - [Date.now()] is an explicit argument, one for each time the source reads
      the clock.
    - A thrown [TypeError] is [None]. *)

From Stdlib Require Import ZArith QArith Qround Qabs Qminmax Lqa Lia List String Ascii Bool DecimalString.
From stdpp Require Import base option list strings gmap sorting.
Import ListNotations.

Local Open Scope string_scope.
Local Open Scope list_scope.

(** ** JavaScript values *)

Module Js.

Inductive jsval : Type :=
| JUndefined
| JNull
| JBool (b : bool)
| JNumber (q : Q)
| JNaN
| JString (s : string).

(** [obj[key]] *)
Definition get (obj : gmap string jsval) (key : string) : jsval :=
  default JUndefined (obj !! key).

(** ToBoolean: the falsy values are [undefined], [null], [false], [0],
    [NaN] and the empty string. *)
Definition truthy (v : jsval) : bool :=
  match v with
  | JUndefined | JNull | JNaN => false
  | JBool b => b
  | JNumber q => negb (Qeq_bool q 0)
  | JString s => negb (String.eqb s "")
  end.

(** [a === b] *)
Definition strict_equals (a b : jsval) : bool :=
  match a, b with
  | JUndefined, JUndefined => true
  | JNull, JNull => true
  | JBool x, JBool y => Bool.eqb x y
  | JNumber x, JNumber y => Qeq_bool x y
  | JString x, JString y => String.eqb x y
  | _, _ => false
  end.

(** SameValueZero, the comparison of [Array.prototype.includes]:
    as [===] but [NaN] is the same as [NaN]. *)
Definition same_value_zero (a b : jsval) : bool :=
  match a, b with
  | JNaN, JNaN => true
  | _, _ => strict_equals a b
  end.

(** [arr.includes(v)] *)
Definition includes (arr : list jsval) (v : jsval) : bool :=
  existsb (fun x => same_value_zero x v) arr.

(** [arr.join(sep)] on an array of strings *)
Fixpoint join (sep : string) (arr : list string) : string :=
  match arr with
  | [] => ""
  | [x] => x
  | x :: rest => x +:+ sep +:+ join sep rest
  end.

(** [Math.round]: nearest integer, ties towards plus infinity. *)
Definition Math_round (x : Q) : Q := inject_Z (Qfloor (x + (1 # 2))).

(** [Math.pow(10, decimals)] for an integer exponent *)
Definition Math_pow10 (decimals : Z) : Q := Qpower 10 decimals.

Section ToString.
(** Number::toString is a parameter: the shortest decimal that reads back
    as the same double has no counterpart on exact rationals. *)
Variable Number_toString : Q -> string.

(** [String(v)], also what a template literal does to [v] *)
Definition ToString (v : jsval) : string :=
  match v with
  | JUndefined => "undefined"
  | JNull => "null"
  | JBool true => "true"
  | JBool false => "false"
  | JNumber q => Number_toString q
  | JNaN => "NaN"
  | JString s => s
  end.
End ToString.

(** A printer that is right on the numbers with at most one decimal digit
    (below 1e21), which is what the examples of this file need:
    [String(43.3) = "43.3"], [String(-0.5) = "-0.5"], [String(2024) = "2024"]. *)
Definition decimal1_toString (q : Q) : string :=
  let k := Qfloor (q * 10 + (1 # 2)) in
  let a := Z.abs k in
  let digits := NilZero.string_of_int (Z.to_int (a / 10)) in
  let frac := if (a mod 10 =? 0)%Z then ""
              else "." +:+ NilZero.string_of_int (Z.to_int (a mod 10)) in
  (if (k <? 0)%Z then "-" else "") +:+ digits +:+ frac.

End Js.

Import Js.

(** An [InsuranceRecord] as it is at run time: an object with string keys. *)
Abbreviation InsuranceRecord := (gmap string jsval) (only parsing).

(** ** services/metricCalculator: class MetricCalculator *)

Module MetricCalculator.

Local Open Scope Q_scope.

Record AggregatedData : Type := {
  dimensions : gmap string jsval;
  signed_premium_yuan : Q;
  matured_premium_yuan : Q;
  commercial_premium_before_discount_yuan : Q;
  policy_count : Q;
  claim_case_count : Q;
  reported_claim_payment_yuan : Q;
  expense_amount_yuan : Q;
  matured_margin_contribution_yuan : Q;
  variable_cost_amount_yuan : Q;
  record_count : nat
}.

Record MetricCalculationResult : Type := {
  aggregated : AggregatedData;        (* ...aggregatedData *)
  average_premium_per_policy_yuan : Q;
  average_claim_payment_yuan : Q;
  claim_frequency_percent : Q;
  expired_loss_ratio_percent : Q;
  expense_ratio_percent : Q;
  variable_cost_ratio_percent : Q;
  matured_margin_contribution_rate_percent : Q;
  commercial_auto_underwriting_factor : Q;
  combined_ratio_percent : Q;
  profit_margin_percent : Q;
  data_quality_score : option Q;      (* data_quality_score?: number *)
  anomaly_flags : list string;
  calculation_warnings : list string
}.

(** Field updates of a result object: [result.anomaly_flags] is the array
    that [detectAnomalies] pushes on, [result.data_quality_score = ...]. *)
Definition set_anomaly_flags (result : MetricCalculationResult) (flags : list string)
    : MetricCalculationResult :=
  {| aggregated := aggregated result;
     average_premium_per_policy_yuan := average_premium_per_policy_yuan result;
     average_claim_payment_yuan := average_claim_payment_yuan result;
     claim_frequency_percent := claim_frequency_percent result;
     expired_loss_ratio_percent := expired_loss_ratio_percent result;
     expense_ratio_percent := expense_ratio_percent result;
     variable_cost_ratio_percent := variable_cost_ratio_percent result;
     matured_margin_contribution_rate_percent :=
       matured_margin_contribution_rate_percent result;
     commercial_auto_underwriting_factor := commercial_auto_underwriting_factor result;
     combined_ratio_percent := combined_ratio_percent result;
     profit_margin_percent := profit_margin_percent result;
     data_quality_score := data_quality_score result;
     anomaly_flags := flags;
     calculation_warnings := calculation_warnings result |}.

Definition set_data_quality_score (result : MetricCalculationResult) (score : option Q)
    : MetricCalculationResult :=
  {| aggregated := aggregated result;
     average_premium_per_policy_yuan := average_premium_per_policy_yuan result;
     average_claim_payment_yuan := average_claim_payment_yuan result;
     claim_frequency_percent := claim_frequency_percent result;
     expired_loss_ratio_percent := expired_loss_ratio_percent result;
     expense_ratio_percent := expense_ratio_percent result;
     variable_cost_ratio_percent := variable_cost_ratio_percent result;
     matured_margin_contribution_rate_percent :=
       matured_margin_contribution_rate_percent result;
     commercial_auto_underwriting_factor := commercial_auto_underwriting_factor result;
     combined_ratio_percent := combined_ratio_percent result;
     profit_margin_percent := profit_margin_percent result;
     data_quality_score := score;
     anomaly_flags := anomaly_flags result;
     calculation_warnings := calculation_warnings result |}.

(** ANOMALY_THRESHOLDS *)
Record range : Type := { min : Q; max : Q }.
Definition variable_cost_ratio_range : range := {| min := 0; max := 150 |}.
Definition expired_loss_ratio_range : range := {| min := 0; max := 100 |}.
Definition expense_ratio_range : range := {| min := 0; max := 50 |}.
Definition margin_contribution_ratio_range : range := {| min := - (50); max := 100 |}.

(** The callback of [safeSum]'s reduce:
    [typeof value === 'number' && !isNaN(value) ? value : 0] *)
Definition numeric_or_zero (value : jsval) : Q :=
  match value with
  | JNumber q => q
  | _ => 0
  end.

Definition safeSum (data : list InsuranceRecord) (field : string) : Q :=
  fold_left (fun sum record => sum + numeric_or_zero (get record field)) data 0.

Definition aggregateGroup (groupData : list InsuranceRecord)
    (dimensionValues : gmap string jsval) : AggregatedData :=
  {| dimensions := dimensionValues;
     record_count := length groupData;
     signed_premium_yuan := safeSum groupData "signed_premium_yuan";
     matured_premium_yuan := safeSum groupData "matured_premium_yuan";
     commercial_premium_before_discount_yuan :=
       safeSum groupData "commercial_premium_before_discount_yuan";
     policy_count := safeSum groupData "policy_count";
     claim_case_count := safeSum groupData "claim_case_count";
     reported_claim_payment_yuan := safeSum groupData "reported_claim_payment_yuan";
     expense_amount_yuan := safeSum groupData "expense_amount_yuan";
     matured_margin_contribution_yuan :=
       safeSum groupData "matured_margin_contribution_yuan";
     variable_cost_amount_yuan := safeSum groupData "variable_cost_amount_yuan" |}.

(** The [Map<string, InsuranceRecord[]>] of [aggregateByDimensions], in
    insertion order. [groups_push] is the body of the [forEach]:
    create the bucket when the key is new, then push the record. *)
Fixpoint groups_push (groupKey : string) (record : InsuranceRecord)
    (groups : list (string * list InsuranceRecord))
    : list (string * list InsuranceRecord) :=
  match groups with
  | [] => [(groupKey, [record])]
  | (k, bucket) :: rest =>
      if String.eqb k groupKey then (k, bucket ++ [record]) :: rest
      else (k, bucket) :: groups_push groupKey record rest
  end.

Section Grouping.
Variable Number_toString : Q -> string.

(** [`${field}:${record[field] || 'null'}`] *)
Definition keyPart (record : InsuranceRecord) (field : string) : string :=
  let v := get record field in
  field +:+ ":" +:+ (if truthy v then ToString Number_toString v else "null").

Definition groupKey (groupByFields : list string) (record : InsuranceRecord) : string :=
  join "|" (List.map (keyPart record) groupByFields).

Definition buildGroups (data : list InsuranceRecord) (groupByFields : list string)
    : list (string * list InsuranceRecord) :=
  fold_left (fun groups record => groups_push (groupKey groupByFields record) record groups)
            data [].

(** [dimensionValues[field] = groupData[0][field]] for every field;
    [None] when [groupData[0]] is not there (the read would throw). *)
Definition dimensionValuesOf (groupData : list InsuranceRecord)
    (groupByFields : list string) : option (gmap string jsval) :=
  match groupData with
  | [] => match groupByFields with [] => Some ∅ | _ :: _ => None end
  | first :: _ =>
      Some (fold_left (fun dims field => <[field := get first field]> dims)
                      groupByFields ∅)
  end.

Definition aggregateByDimensions (data : list InsuranceRecord)
    (groupByFields : list string) : option (list AggregatedData) :=
  if (length data =? 0)%nat then Some []
  else if (length groupByFields =? 0)%nat then Some [aggregateGroup data ∅]
  else
    mapM (fun '(groupKey, groupData) =>
            dimensionValues ← dimensionValuesOf groupData groupByFields;
            Some (aggregateGroup groupData dimensionValues))
         (buildGroups data groupByFields).
End Grouping.

(** [safeDivide]: the warnings array is threaded through; a [null] or
    [undefined] denominator is [None]. *)
Definition safeDivide (numerator : Q) (denominator : option Q)
    (warningMessage : string) (warnings : list string) : Q * list string :=
  match denominator with
  | None => (0, if String.eqb warningMessage "" then warnings
                else warnings ++ [warningMessage])
  | Some d =>
      if Qeq_bool d 0
      then (0, if String.eqb warningMessage "" then warnings
               else warnings ++ [warningMessage])
      else (numerator / d, warnings)
  end.

Definition roundToDecimal (value : Q) (decimals : Z) : Q :=
  let factor := Math_pow10 decimals in
  Math_round (value * factor) / factor.

Definition out_of_range (value : Q) (r : range) : bool :=
  negb (Qle_bool (min r) value) || negb (Qle_bool value (max r)).

Section Derive.
Variable Number_toString : Q -> string.

Definition detectAnomalies (result : MetricCalculationResult)
    (anomalyFlags : list string) : list string :=
  let anomalyFlags :=
    if out_of_range (variable_cost_ratio_percent result) variable_cost_ratio_range
    then anomalyFlags ++
         ["变动成本率异常: " +:+ Number_toString (variable_cost_ratio_percent result) +:+ "%"]
    else anomalyFlags in
  let anomalyFlags :=
    if out_of_range (expired_loss_ratio_percent result) expired_loss_ratio_range
    then anomalyFlags ++
         ["满期赔付率异常: " +:+ Number_toString (expired_loss_ratio_percent result) +:+ "%"]
    else anomalyFlags in
  let anomalyFlags :=
    if out_of_range (expense_ratio_percent result) expense_ratio_range
    then anomalyFlags ++
         ["费用率异常: " +:+ Number_toString (expense_ratio_percent result) +:+ "%"]
    else anomalyFlags in
  if out_of_range (matured_margin_contribution_rate_percent result)
                  margin_contribution_ratio_range
  then anomalyFlags ++
       ["边际贡献率异常: "
          +:+ Number_toString (matured_margin_contribution_rate_percent result) +:+ "%"]
  else anomalyFlags.

Definition calculateDataQualityScore (result : MetricCalculationResult) : Q :=
  let score := 100 in
  let score := score - inject_Z (Z.of_nat (length (calculation_warnings result))) * 10 in
  let score := score - inject_Z (Z.of_nat (length (anomaly_flags result))) * 15 in
  let score := if Qeq_bool (signed_premium_yuan (aggregated result)) 0
               then score - 20 else score in
  let score := if Qeq_bool (matured_premium_yuan (aggregated result)) 0
               then score - 15 else score in
  let score := if Qeq_bool (policy_count (aggregated result)) 0
               then score - 25 else score in
  Qmax 0 (Qmin 100 score).

Definition calculateMetrics (aggregatedData : AggregatedData) : MetricCalculationResult :=
  let warnings : list string := [] in
  let anomalyFlags : list string := [] in
  let '(average_premium_per_policy_yuan, warnings) :=
    safeDivide (signed_premium_yuan aggregatedData)
               (Some (policy_count aggregatedData))
               "单均保费计算：保单件数为0" warnings in
  let '(average_claim_payment_yuan, warnings) :=
    safeDivide (reported_claim_payment_yuan aggregatedData)
               (Some (claim_case_count aggregatedData))
               "案均赔款计算：赔案件数为0" warnings in
  let '(q, warnings) :=
    safeDivide (expense_amount_yuan aggregatedData)
               (Some (signed_premium_yuan aggregatedData))
               "费用率计算：签单保费为0" warnings in
  let expense_ratio_percent := q * 100 in
  let '(q, warnings) :=
    safeDivide (reported_claim_payment_yuan aggregatedData)
               (Some (matured_premium_yuan aggregatedData))
               "满期赔付率计算：满期保费为0" warnings in
  let expired_loss_ratio_percent := q * 100 in
  let '(q1, warnings) :=
    safeDivide (claim_case_count aggregatedData)
               (Some (policy_count aggregatedData))
               "满期出险率计算：保单件数为0" warnings in
  let '(q2, warnings) :=
    safeDivide (matured_premium_yuan aggregatedData)
               (Some (signed_premium_yuan aggregatedData))
               "满期出险率计算：签单保费为0" warnings in
  let claim_frequency_percent := q1 * q2 * 100 in
  let '(q1, warnings) :=
    safeDivide (expense_amount_yuan aggregatedData)
               (Some (signed_premium_yuan aggregatedData)) "" warnings in
  let '(q2, warnings) :=
    safeDivide (reported_claim_payment_yuan aggregatedData)
               (Some (matured_premium_yuan aggregatedData)) "" warnings in
  let variable_cost_ratio_percent := (q1 + q2) * 100 in
  let '(q, warnings) :=
    safeDivide (matured_margin_contribution_yuan aggregatedData)
               (Some (matured_premium_yuan aggregatedData))
               "边际贡献率计算：满期保费为0" warnings in
  let matured_margin_contribution_rate_percent := q * 100 in
  let '(commercial_auto_underwriting_factor, warnings) :=
    safeDivide (signed_premium_yuan aggregatedData)
               (Some (commercial_premium_before_discount_yuan aggregatedData))
               "商业险自主系数计算：商业险折前保费为0" warnings in
  let combined_ratio_percent := expense_ratio_percent + expired_loss_ratio_percent in
  let profit_margin_percent := 100 - combined_ratio_percent in
  let result :=
    {| aggregated := aggregatedData;
       average_premium_per_policy_yuan := Math_round average_premium_per_policy_yuan;
       average_claim_payment_yuan := Math_round average_claim_payment_yuan;
       claim_frequency_percent := roundToDecimal claim_frequency_percent 1;
       expired_loss_ratio_percent := roundToDecimal expired_loss_ratio_percent 1;
       expense_ratio_percent := roundToDecimal expense_ratio_percent 1;
       variable_cost_ratio_percent := roundToDecimal variable_cost_ratio_percent 1;
       matured_margin_contribution_rate_percent :=
         roundToDecimal matured_margin_contribution_rate_percent 1;
       commercial_auto_underwriting_factor :=
         roundToDecimal commercial_auto_underwriting_factor 4;
       combined_ratio_percent := roundToDecimal combined_ratio_percent 1;
       profit_margin_percent := roundToDecimal profit_margin_percent 1;
       data_quality_score := None;
       anomaly_flags := anomalyFlags;
       calculation_warnings := warnings |} in
  (* detectAnomalies pushes on the array that result.anomaly_flags aliases *)
  let result := set_anomaly_flags result (detectAnomalies result anomalyFlags) in
  set_data_quality_score result (Some (calculateDataQualityScore result)).

(** [calculateAllMetrics]: [aggregated[0]] of an empty array is
    [undefined], and [calculateMetrics] then throws on its first read. *)
Definition calculateAllMetrics (data : list InsuranceRecord)
    : option MetricCalculationResult :=
  aggregated ← aggregateByDimensions Number_toString data [];
  match aggregated with
  | [] => None
  | first :: _ => Some (calculateMetrics first)
  end.

Definition calculateMetricsByDimensions (data : list InsuranceRecord)
    (dimensions : list string) : option (list MetricCalculationResult) :=
  aggregatedGroups ← aggregateByDimensions Number_toString data dimensions;
  Some (List.map calculateMetrics aggregatedGroups).
End Derive.

End MetricCalculator.

(** ** lib/calculations *)

Module Calculations.

(** A [number] that may be [NaN] ([None]). The nine absolute-value fields
    are declared [number]; a field that is missing reads as [undefined],
    which the additions and divisions below turn into [NaN]. Values of
    other types are outside the declared type and read as [NaN] too. *)
Definition num : Type := option Q.

Definition numberField (v : jsval) : num :=
  match v with
  | JNumber q => Some q
  | _ => None
  end.

Definition num_add (a b : num) : num :=
  match a, b with Some x, Some y => Some (x + y)%Q | _, _ => None end.
Definition num_sub (a b : num) : num :=
  match a, b with Some x, Some y => Some (x - y)%Q | _, _ => None end.
Definition num_mul (a b : num) : num :=
  match a, b with Some x, Some y => Some (x * y)%Q | _, _ => None end.
(** only used under a guard that makes the divisor positive *)
Definition num_div (a b : num) : num :=
  match a, b with Some x, Some y => Some (x / y)%Q | _, _ => None end.
(** [a > 0]; false on [NaN] *)
Definition positive (a : num) : bool :=
  match a with Some x => negb (Qle_bool x 0) | None => false end.

Record AbsoluteValueFields : Type := {
  signed_premium_yuan : num;
  matured_premium_yuan : num;
  commercial_premium_before_discount_yuan : num;
  policy_count : num;
  claim_case_count : num;
  reported_claim_payment_yuan : num;
  expense_amount_yuan : num;
  matured_margin_contribution_yuan : num;
  variable_cost_amount_yuan : num
}.

Record CalculatedFields : Type := {
  average_premium_per_policy_yuan : num;
  average_claim_payment_yuan : num;
  claim_frequency_percent : num;
  expired_loss_ratio_percent : num;
  expense_ratio_percent : num;
  variable_cost_ratio_percent : num;
  matured_margin_contribution_rate_percent : num;
  commercial_auto_underwriting_factor : num;
  combined_ratio_percent : num;
  profit_margin_percent : num
}.

Record AnalysisResult : Type := {
  absolute : AbsoluteValueFields;      (* ...aggregatedAbsolute *)
  calculated : CalculatedFields;       (* ...calculatedFields *)
  dimensions : gmap string jsval;
  record_count : nat
}.

Definition hundred : num := Some 100%Q.
Definition zero : num := Some 0%Q.

Definition calculateFields (record : AbsoluteValueFields) : CalculatedFields :=
  let average_premium_per_policy_yuan :=
    if positive (policy_count record)
    then num_div (signed_premium_yuan record) (policy_count record) else zero in
  let average_claim_payment_yuan :=
    if positive (claim_case_count record)
    then num_div (reported_claim_payment_yuan record) (claim_case_count record)
    else zero in
  let claim_frequency_percent :=
    if positive (policy_count record)
    then num_mul (num_div (claim_case_count record) (policy_count record)) hundred
    else zero in
  let expired_loss_ratio_percent :=
    if positive (matured_premium_yuan record)
    then num_mul (num_div (reported_claim_payment_yuan record)
                          (matured_premium_yuan record)) hundred
    else zero in
  let expense_ratio_percent :=
    if positive (signed_premium_yuan record)
    then num_mul (num_div (expense_amount_yuan record) (signed_premium_yuan record))
                 hundred
    else zero in
  let variable_cost_ratio_percent :=
    if positive (signed_premium_yuan record)
    then num_mul (num_div (variable_cost_amount_yuan record)
                          (signed_premium_yuan record)) hundred
    else zero in
  let matured_margin_contribution_rate_percent :=
    if positive (matured_premium_yuan record)
    then num_mul (num_div (matured_margin_contribution_yuan record)
                          (matured_premium_yuan record)) hundred
    else zero in
  let commercial_auto_underwriting_factor :=
    if positive (commercial_premium_before_discount_yuan record)
    then num_div (signed_premium_yuan record)
                 (commercial_premium_before_discount_yuan record)
    else zero in
  let combined_ratio_percent := num_add expired_loss_ratio_percent expense_ratio_percent in
  let profit_margin_percent := num_sub hundred combined_ratio_percent in
  {| average_premium_per_policy_yuan := average_premium_per_policy_yuan;
     average_claim_payment_yuan := average_claim_payment_yuan;
     claim_frequency_percent := claim_frequency_percent;
     expired_loss_ratio_percent := expired_loss_ratio_percent;
     expense_ratio_percent := expense_ratio_percent;
     variable_cost_ratio_percent := variable_cost_ratio_percent;
     matured_margin_contribution_rate_percent := matured_margin_contribution_rate_percent;
     commercial_auto_underwriting_factor := commercial_auto_underwriting_factor;
     combined_ratio_percent := combined_ratio_percent;
     profit_margin_percent := profit_margin_percent |}.

(** The nine fields of a record as [aggregateAbsoluteFields] reads them. *)
Definition absoluteFields (record : InsuranceRecord) : AbsoluteValueFields :=
  {| signed_premium_yuan := numberField (get record "signed_premium_yuan");
     matured_premium_yuan := numberField (get record "matured_premium_yuan");
     commercial_premium_before_discount_yuan :=
       numberField (get record "commercial_premium_before_discount_yuan");
     policy_count := numberField (get record "policy_count");
     claim_case_count := numberField (get record "claim_case_count");
     reported_claim_payment_yuan := numberField (get record "reported_claim_payment_yuan");
     expense_amount_yuan := numberField (get record "expense_amount_yuan");
     matured_margin_contribution_yuan :=
       numberField (get record "matured_margin_contribution_yuan");
     variable_cost_amount_yuan := numberField (get record "variable_cost_amount_yuan") |}.

Definition allZero : AbsoluteValueFields :=
  {| signed_premium_yuan := zero; matured_premium_yuan := zero;
     commercial_premium_before_discount_yuan := zero; policy_count := zero;
     claim_case_count := zero; reported_claim_payment_yuan := zero;
     expense_amount_yuan := zero; matured_margin_contribution_yuan := zero;
     variable_cost_amount_yuan := zero |}.

Definition addFields (acc record : AbsoluteValueFields) : AbsoluteValueFields :=
  {| signed_premium_yuan := num_add (signed_premium_yuan acc) (signed_premium_yuan record);
     matured_premium_yuan :=
       num_add (matured_premium_yuan acc) (matured_premium_yuan record);
     commercial_premium_before_discount_yuan :=
       num_add (commercial_premium_before_discount_yuan acc)
               (commercial_premium_before_discount_yuan record);
     policy_count := num_add (policy_count acc) (policy_count record);
     claim_case_count := num_add (claim_case_count acc) (claim_case_count record);
     reported_claim_payment_yuan :=
       num_add (reported_claim_payment_yuan acc) (reported_claim_payment_yuan record);
     expense_amount_yuan := num_add (expense_amount_yuan acc) (expense_amount_yuan record);
     matured_margin_contribution_yuan :=
       num_add (matured_margin_contribution_yuan acc)
               (matured_margin_contribution_yuan record);
     variable_cost_amount_yuan :=
       num_add (variable_cost_amount_yuan acc) (variable_cost_amount_yuan record) |}.

Definition aggregateAbsoluteFields (records : list AbsoluteValueFields)
    : AbsoluteValueFields :=
  if (length records =? 0)%nat then allZero
  else fold_left addFields records allZero.

Definition calculateAnalysisResult (records : list InsuranceRecord)
    (dimensions : gmap string jsval) : AnalysisResult :=
  let aggregatedAbsolute := aggregateAbsoluteFields (List.map absoluteFields records) in
  let calculatedFields := calculateFields aggregatedAbsolute in
  {| absolute := aggregatedAbsolute;
     calculated := calculatedFields;
     dimensions := dimensions;
     record_count := length records |}.

(** [s.split(sep)] for a one-character separator *)
Fixpoint split (sep : ascii) (s : string) : list string :=
  match s with
  | EmptyString => [""]
  | String c rest =>
      if Ascii.eqb c sep then "" :: split sep rest
      else match split sep rest with
           | [] => [String c ""]
           | h :: t => String c h :: t
           end
  end.

(** [typeof v === 'number'] *)
Definition is_number (v : jsval) : bool :=
  match v with JNumber _ | JNaN => true | _ => false end.

Section Grouping.
Variable Number_toString : Q -> string.
(** [Number(s)] on a string: a number or [NaN]. *)
Variable Number_ofString : string -> jsval.

(** [String(record[field] ?? 'null')] *)
Definition keyPart (record : InsuranceRecord) (field : string) : string :=
  match get record field with
  | JUndefined | JNull => "null"
  | v => ToString Number_toString v
  end.

Definition groupKey (groupByFields : list string) (record : InsuranceRecord) : string :=
  join "|" (List.map (keyPart record) groupByFields).

Definition buildGroups (records : list InsuranceRecord) (groupByFields : list string)
    : list (string * list InsuranceRecord) :=
  fold_left (fun groups record =>
               MetricCalculator.groups_push (groupKey groupByFields record) record groups)
            records [].

(** The value restored for one field from the split key. *)
Definition restoreDimension (first : InsuranceRecord) (dimensionValues : list string)
    (field : string) (index : nat) : jsval :=
  match dimensionValues !! index with
  | None =>
      (* value is undefined: not 'null'; Number(undefined) is NaN *)
      if is_number (get first field) then JNaN else JUndefined
  | Some value =>
      if String.eqb value "null" then JNull
      else if is_number (get first field) then Number_ofString value
      else if String.eqb value "true" then JBool true
      else if String.eqb value "false" then JBool false
      else JString value
  end.

Definition restoreDimensions (groupKey : string) (groupRecords : list InsuranceRecord)
    (groupByFields : list string) : option (gmap string jsval) :=
  match groupRecords with
  | [] => match groupByFields with [] => Some ∅ | _ :: _ => None end
  | first :: _ =>
      let dimensionValues := split "|" groupKey in
      Some (fold_left
              (fun dims '(index, field) =>
                 <[field := restoreDimension first dimensionValues field index]> dims)
              (imap (fun index field => (index, field)) groupByFields) ∅)
  end.

Definition groupByAndCalculate (records : list InsuranceRecord)
    (groupByFields : list string) : option (list AnalysisResult) :=
  if (length groupByFields =? 0)%nat then Some [calculateAnalysisResult records ∅]
  else
    mapM (fun '(groupKey, groupRecords) =>
            dimensions ← restoreDimensions groupKey groupRecords groupByFields;
            Some (calculateAnalysisResult groupRecords dimensions))
         (buildGroups records groupByFields).
End Grouping.

End Calculations.

(** ** lib/data-processor and DataService.applyFilters *)

Module DataProcessor.

(** A filter condition: a scalar (among them [undefined] and [null]) or an
    array of scalars. *)
Inductive condition : Type :=
| Scalar (v : jsval)
| Array (values : list jsval).

(** [FilterConditions] at run time: an object with string keys. *)
Abbreviation FilterConditions := (gmap string condition) (only parsing).

(** The callback of [every] *)
Definition conditionHolds (record : InsuranceRecord) (entry : string * condition) : bool :=
  let '(field, condition) := entry in
  let recordValue := get record field in
  match condition with
  | Scalar JUndefined | Scalar JNull => true
  | Array values => (length values =? 0)%nat || includes values recordValue
  | Scalar v => strict_equals recordValue v
  end.

Definition filterData (data : list InsuranceRecord) (filters : gmap string condition)
    : list InsuranceRecord :=
  List.filter (fun record => forallb (conditionHolds record) (map_to_list filters)) data.

End DataProcessor.

Module DataService.
Import DataProcessor.

(** The body of the [for ... of Object.entries(filters)] loop, as the test
    that lets the loop go on. *)
Definition entryPasses (record : InsuranceRecord) (entry : string * condition) : bool :=
  let '(key, value) := entry in
  match value with
  | Scalar JUndefined | Scalar JNull => true
  | Array values => includes values (get record key)
  | Scalar v => strict_equals (get record key) v
  end.

Definition applyFilters (data : list InsuranceRecord) (filters : gmap string condition)
    : list InsuranceRecord :=
  List.filter (fun record => forallb (entryPasses record) (map_to_list filters)) data.

(** The cache of the service: [Map<string, {data, timestamp}>]. *)
Section Cache.
Context {Data : Type}.

Record entry : Type := { data : Data; timestamp : Z }.

Definition CACHE_DURATION : Z := 24 * 60 * 60 * 1000.

(** [!cacheEntry || !cacheEntry.timestamp] makes a missing entry and a
    zero timestamp invalid. *)
Definition isCacheValid (now : Z) (cacheEntry : option entry) : bool :=
  match cacheEntry with
  | None => false
  | Some e => if (timestamp e =? 0)%Z then false
              else (now - timestamp e <? CACHE_DURATION)%Z
  end.

Definition setCache (now : Z) (key : string) (d : Data) (cache : gmap string entry)
    : gmap string entry :=
  <[key := {| data := d; timestamp := now |}]> cache.

(** [Date.now()] is read only when there is an entry with a timestamp;
    [now] is what it returns then. *)
Definition getCache (now : Z) (key : string) (cache : gmap string entry)
    : option Data * gmap string entry :=
  let cacheEntry := cache !! key in
  if isCacheValid now cacheEntry
  then (data <$> cacheEntry, cache)
  else (None, delete key cache).
End Cache.

End DataService.

(** ** database: class InsuranceDatabase *)

Module InsuranceDatabase.
Import DataProcessor Calculations.

Record DatabaseConfig : Type := {
  useLocalStorage : bool;
  maxRecords : Z;
  cacheTimeout : Z
}.

Definition defaultConfig : DatabaseConfig :=
  {| useLocalStorage := true; maxRecords := 100000; cacheTimeout := 300000 |}.

(** What the operations modelled here put in the cache. *)
Inductive cached : Type :=
| CachedRecords (records : list InsuranceRecord)
| CachedAnalysis (results : list AnalysisResult).

Record cacheEntry : Type := { data : cached; timestamp : Z }.

Record InsuranceDatabase : Type := {
  config : DatabaseConfig;
  cache : gmap string cacheEntry
}.

(** [new InsuranceDatabase()] *)
Definition new : InsuranceDatabase := {| config := defaultConfig; cache := ∅ |}.

Definition isCacheValid (db : InsuranceDatabase) (now timestamp : Z) : bool :=
  (now - timestamp <? cacheTimeout (config db))%Z.

Definition setCache (db : InsuranceDatabase) (now : Z) (key : string) (d : cached)
    : InsuranceDatabase :=
  {| config := config db;
     cache := <[key := {| data := d; timestamp := now |}]> (cache db) |}.

(** [getCache] returns the data or [null]; the database comes back as it
    was, the method writes nothing. *)
Definition getCache (db : InsuranceDatabase) (now : Z) (key : string)
    : option cached * InsuranceDatabase :=
  match cache db !! key with
  | Some c => if isCacheValid db now (timestamp c) then (Some (data c), db) else (None, db)
  | None => (None, db)
  end.

Definition clearCache (db : InsuranceDatabase) : InsuranceDatabase :=
  {| config := config db; cache := ∅ |}.

(** [getStats().cacheSize] *)
Definition cacheSize (db : InsuranceDatabase) : nat := size (cache db).

(** [Array.prototype.sort] with the comparator
    [(a, b) => b.record_count - a.record_count]: a stable sort. *)
Fixpoint insertByCount (x : AnalysisResult) (l : list AnalysisResult)
    : list AnalysisResult :=
  match l with
  | [] => [x]
  | y :: rest =>
      if (record_count y <=? record_count x)%nat then x :: y :: rest
      else y :: insertByCount x rest
  end.

Definition sortByCountDesc (l : list AnalysisResult) : list AnalysisResult :=
  foldr insertByCount [] l.

(** [arr.slice(0, end)] *)
Definition slice0 {A} (arr : list A) (end_ : Z) : list A :=
  let len := Z.of_nat (length arr) in
  let stop := if (end_ <? 0)%Z then Z.max (len + end_) 0 else Z.min end_ len in
  take (Z.to_nat stop) arr.

Section Facade.
Variable Number_toString : Q -> string.
Variable Number_ofString : string -> jsval.
(** [JSON.stringify({ dimensions, filters, limit })] *)
Variable JSON_stringify : list string -> gmap string condition -> Z -> string.

Definition getCacheKey (operation : string) (params : string) : string :=
  operation +:+ "_" +:+ params.

(** [findAll]; [stored] is what [getStoredData()] reads from local
    storage. The whole operation is taken to run at one clock value. *)
Definition findAll (db : InsuranceDatabase) (now : Z) (stored : list InsuranceRecord)
    : cached * InsuranceDatabase :=
  let cacheKey := getCacheKey "findAll" "{}" in
  match getCache db now cacheKey with
  | (Some c, db) => (c, db)
  | (None, db) => (CachedRecords stored, setCache db now cacheKey (CachedRecords stored))
  end.

(** [aggregateByDimensions]. The result is [None] when a step throws or
    when the cache hands [findAll] something that is not a record list,
    which its key excludes. *)
Definition aggregateByDimensions (db : InsuranceDatabase) (now : Z)
    (stored : list InsuranceRecord)
    (dimensions : list string) (filters : gmap string condition) (limit : Z)
    : option cached * InsuranceDatabase :=
  let cacheKey := getCacheKey "aggregateByDimensions"
                              (JSON_stringify dimensions filters limit) in
  match getCache db now cacheKey with
  | (Some c, db) => (Some c, db)
  | (None, db) =>
      let '(allData, db) := findAll db now stored in
      match allData with
      | CachedAnalysis _ => (None, db)
      | CachedRecords allData =>
          let filteredData := filterData allData filters in
          match groupByAndCalculate Number_toString Number_ofString
                                    filteredData dimensions with
          | None => (None, db)
          | Some results =>
              let sortedResults := slice0 (sortByCountDesc results) limit in
              (Some (CachedAnalysis sortedResults),
               setCache db now cacheKey (CachedAnalysis sortedResults))
          end
      end
  end.
End Facade.

End InsuranceDatabase.

(** ** performance: class MemoryCache *)

Module MemoryCache.

Section WithJSON.
(** The values the cache holds, with [JSON.stringify] and [JSON.parse].
    A string is taken as the sequence of its code units. *)
Variable Value : Type.
Variable JSON_stringify : Value -> string.
Variable JSON_parse : string -> Value.

Record CacheConfig : Type := {
  maxSize : Z;
  ttl : Z;
  enableCompression : bool
}.

Definition defaultConfig : CacheConfig :=
  {| maxSize := 100; ttl := 5 * 60 * 1000; enableCompression := true |}.

(** [entry.data] together with [entry.compressed]: the flag tells which
    of the two the data is. *)
Inductive payload : Type :=
| Compressed (text : string)
| Plain (data : Value).

Record CacheEntry : Type := {
  data : payload;
  timestamp : Z;
  size : Z
}.

(** The [Map] is the list of its entries, oldest insertion first; its
    keys are pairwise different. *)
Record MemoryCache : Type := {
  cache : list (string * CacheEntry);
  config : CacheConfig;
  totalSize : Z
}.

(** [new MemoryCache(config)] *)
Definition new (cfg : CacheConfig) : MemoryCache :=
  {| cache := []; config := cfg; totalSize := 0 |}.

(** [Map.prototype.get], [delete] and [set]; [set] on a key that is
    there keeps its place in the order. *)
Fixpoint Map_get (key : string) (m : list (string * CacheEntry)) : option CacheEntry :=
  match m with
  | [] => None
  | (k, e) :: rest => if String.eqb k key then Some e else Map_get key rest
  end.

Fixpoint Map_delete (key : string) (m : list (string * CacheEntry))
    : list (string * CacheEntry) :=
  match m with
  | [] => []
  | (k, e) :: rest => if String.eqb k key then rest else (k, e) :: Map_delete key rest
  end.

Fixpoint Map_set (key : string) (entry : CacheEntry) (m : list (string * CacheEntry))
    : list (string * CacheEntry) :=
  match m with
  | [] => [(key, entry)]
  | (k, e) :: rest =>
      if String.eqb k key then (k, entry) :: rest else (k, e) :: Map_set key entry rest
  end.

Definition generateKey (prefix : string) (params : Value) : string :=
  prefix +:+ ":" +:+ JSON_stringify params.

Definition compress (d : Value) : string := JSON_stringify d.
Definition decompress (compressed : string) : Value := JSON_parse compressed.

Definition calculateSize (d : Value) : Z :=
  Z.of_nat (String.length (JSON_stringify d)) * 2.

Definition expired (cfg : CacheConfig) (now : Z) (entry : CacheEntry) : bool :=
  (now - timestamp entry >? ttl cfg)%Z.

(** [cleanup]: one clock read, then a pass over the entries. *)
Definition cleanup (c : MemoryCache) (now : Z) : MemoryCache :=
  fold_left
    (fun c '(key, entry) =>
       if expired (config c) now entry
       then {| cache := Map_delete key (cache c);
               config := config c;
               totalSize := totalSize c - size entry |}
       else c)
    (cache c) c.

(** The [while] loop of [makeSpace]. The first key of the map is the
    head of the list; deleting it leaves the tail. The loop stops when
    the condition fails, or when the first key is falsy ([undefined] on an
    empty map, or the empty string). *)
Fixpoint evictOldest (maxSize requiredSize : Z) (entries : list (string * CacheEntry))
    (totalSize : Z) : list (string * CacheEntry) * Z :=
  match entries with
  | [] => ([], totalSize)
  | (oldestKey, entry) :: rest =>
      if (Z.of_nat (length entries) >=? maxSize)%Z
         || (totalSize + requiredSize >? maxSize * 1024 * 1024)%Z
      then if String.eqb oldestKey "" then (entries, totalSize)
           else evictOldest maxSize requiredSize rest (totalSize - size entry)
      else (entries, totalSize)
  end.

Definition makeSpace (c : MemoryCache) (now : Z) (requiredSize : Z) : MemoryCache :=
  let c := cleanup c now in
  let '(entries, total) :=
    evictOldest (maxSize (config c)) requiredSize (cache c) (totalSize c) in
  {| cache := entries; config := config c; totalSize := total |}.

(** [set]: [now_cleanup] is the clock read by [cleanup], [now_stamp] the
    one read for the timestamp of the entry. *)
Definition set (c : MemoryCache) (now_cleanup now_stamp : Z)
    (prefix : string) (params : Value) (d : Value) : MemoryCache :=
  let key := generateKey prefix params in
  let size := calculateSize d in
  let c := makeSpace c now_cleanup size in
  let entry :=
    {| data := if enableCompression (config c) then Compressed (compress d) else Plain d;
       timestamp := now_stamp;
       size := size |} in
  {| cache := Map_set key entry (cache c);
     config := config c;
     totalSize := totalSize c + size |}.

(** [get]; the clock is read only when the key is there. *)
Definition get (c : MemoryCache) (now : Z) (prefix : string) (params : Value)
    : option Value * MemoryCache :=
  let key := generateKey prefix params in
  match Map_get key (cache c) with
  | None => (None, c)
  | Some entry =>
      if expired (config c) now entry
      then (None, {| cache := Map_delete key (cache c);
                     config := config c;
                     totalSize := totalSize c - size entry |})
      else (Some (match data entry with
                  | Compressed text => decompress text
                  | Plain d => d
                  end), c)
  end.

Definition clear (c : MemoryCache) : MemoryCache :=
  {| cache := []; config := config c; totalSize := 0 |}.

(** [getStats()] *)
Record Stats : Type := { stats_size : nat; stats_totalSize : Z; hitRate : Z }.

Definition getStats (c : MemoryCache) : Stats :=
  {| stats_size := length (cache c); stats_totalSize := totalSize c; hitRate := 0 |}.

(** The sum of the recorded sizes of the entries that are in the map. *)
Definition sumSizes (m : list (string * CacheEntry)) : Z :=
  fold_right (fun p acc => (size (snd p) + acc)%Z) 0%Z m.

(** The operations of a cache, for runs of them. *)
Inductive op : Type :=
| OpSet (now_cleanup now_stamp : Z) (prefix : string) (params d : Value)
| OpGet (now : Z) (prefix : string) (params : Value)
| OpClear.

Definition step (c : MemoryCache) (o : op) : MemoryCache :=
  match o with
  | OpSet t1 t2 prefix params d => set c t1 t2 prefix params d
  | OpGet now prefix params => snd (get c now prefix params)
  | OpClear => clear c
  end.

Definition run (c : MemoryCache) (ops : list op) : MemoryCache :=
  fold_left step ops c.
End WithJSON.

Arguments Compressed {Value} text.
Arguments Plain {Value} data.
Arguments data {Value} c.
Arguments timestamp {Value} c.
Arguments size {Value} c.
Arguments cache {Value} m.
Arguments config {Value} m.
Arguments totalSize {Value} m.
Arguments new {Value} cfg.
Arguments Map_get {Value} key m.
Arguments Map_delete {Value} key m.
Arguments Map_set {Value} key entry m.
Arguments generateKey {Value} JSON_stringify prefix params.
Arguments calculateSize {Value} JSON_stringify d.
Arguments expired {Value} cfg now entry.
Arguments cleanup {Value} c now.
Arguments evictOldest {Value} maxSize requiredSize entries totalSize.
Arguments makeSpace {Value} c now requiredSize.
Arguments set {Value} JSON_stringify c now_cleanup now_stamp prefix params d.
Arguments get {Value} JSON_stringify JSON_parse c now prefix params.
Arguments clear {Value} c.
Arguments getStats {Value} c.
Arguments sumSizes {Value} m.
Arguments OpSet {Value} now_cleanup now_stamp prefix params d.
Arguments OpGet {Value} now prefix params.
Arguments OpClear {Value}.
Arguments step {Value} JSON_stringify JSON_parse c o.
Arguments run {Value} JSON_stringify JSON_parse c ops.

End MemoryCache.

(** ** Words of the specification, for the statements below *)

Module Spec.
Local Open Scope Q_scope.

(** A quotient that degrades to 0 when its denominator is zero. *)
Definition quotient (numerator denominator : Q) : Q :=
  if Qeq_bool denominator 0 then 0 else numerator / denominator.

(** The warning of one division: present when the denominator is zero. *)
Definition warning_if_zero (denominator : Q) (message : string) : list string :=
  if Qeq_bool denominator 0 then [message] else [].

(** The warnings [calculateMetrics] can record, in the order of its
    divisions. The two divisions of the variable cost ratio have none. *)
Definition named_warnings : list string :=
  ["单均保费计算：保单件数为0"; "案均赔款计算：赔案件数为0";
   "费用率计算：签单保费为0"; "满期赔付率计算：满期保费为0";
   "满期出险率计算：保单件数为0"; "满期出险率计算：签单保费为0";
   "边际贡献率计算：满期保费为0"; "商业险自主系数计算：商业险折前保费为0"].

(** What a record contributes to the sum of a field: its value when that
    is a number, 0 when it is missing or not numeric. *)
Definition contribution (record : InsuranceRecord) (field : string) : Q :=
  match record !! field with
  | Some (JNumber q) => q
  | _ => 0
  end.

(** The arithmetic sum of a field over the records. *)
Definition arithmetic_sum (records : list InsuranceRecord) (field : string) : Q :=
  fold_right (fun record acc => contribution record field + acc) 0 records.

(** The seventeen dimension fields of [FilterDimensions]. *)
Definition dimension_fields : list string :=
  ["policy_start_year"; "week_number"; "snapshot_date"; "chengdu_branch";
   "third_level_organization"; "business_type_category"; "customer_category_3";
   "insurance_type"; "coverage_type"; "renewal_status"; "terminal_source";
   "is_new_energy_vehicle"; "is_transferred_vehicle"; "vehicle_insurance_grade";
   "highway_risk_grade"; "large_truck_score"; "small_truck_score"].

(** The predicate of one filter entry, as the specification words it:
    no constraint when the filter is absent, equality for a single value,
    membership for a set of values. *)
Definition satisfies (recordValue : jsval) (c : DataProcessor.condition) : Prop :=
  match c with
  | DataProcessor.Scalar JUndefined | DataProcessor.Scalar JNull => True
  | DataProcessor.Scalar v => strict_equals recordValue v = true
  | DataProcessor.Array values => includes values recordValue = true
  end.

(** As [satisfies], with an empty set of values imposing no constraint. *)
Definition satisfies_or_empty (recordValue : jsval) (c : DataProcessor.condition) : Prop :=
  match c with
  | DataProcessor.Array [] => True
  | _ => satisfies recordValue c
  end.
(** Every bucket of a grouping map holds a record. *)
Definition nonempty_buckets (groups : list (string * list (gmap string jsval))) : Prop :=
  Forall (fun p => snd p <> []) groups.

(** A filter entry that [undefined] does not pass: a single value other than
    [undefined] and [null], or a non-empty set of values without [undefined]. *)
Definition rejects_undefined (c : DataProcessor.condition) : Prop :=
  match c with
  | DataProcessor.Scalar v => v <> JUndefined /\ v <> JNull
  | DataProcessor.Array values => values <> [] /\ includes values JUndefined = false
  end.

(** [groups.get(key)] on a grouping map, the empty list when the key is not
    there. *)
Fixpoint bucket_of (key : string) (groups : list (string * list (gmap string jsval)))
    : list (gmap string jsval) :=
  match groups with
  | [] => []
  | (k, bucket) :: rest => if String.eqb k key then bucket else bucket_of key rest
  end.

(** Two records are in the same group. *)
Definition share_group (groups : list (string * list (gmap string jsval)))
    (r1 r2 : gmap string jsval) : Prop :=
  exists key bucket, (key, bucket) ∈ groups /\ r1 ∈ bucket /\ r2 ∈ bucket.

(** The projection of a record on a list of dimension fields. *)
Definition projection (fields : list string) (record : gmap string jsval) : list jsval :=
  List.map (get record) fields.

#[export] Instance satisfies_dec (v : jsval) (c : DataProcessor.condition) :
  Decision (satisfies v c).
Proof. destruct c as [[]|]; simpl; apply _. Defined.

#[export] Instance satisfies_or_empty_dec (v : jsval) (c : DataProcessor.condition) :
  Decision (satisfies_or_empty v c).
Proof. destruct c as [[]|[|]]; simpl; apply _. Defined.
End Spec.

(** ** Runs of writes on a memory cache *)

Module CacheSpec.
Import MemoryCache.

Section Writes.
Variable Value : Type.
Variable JSON_stringify : Value -> string.

(** One call of [set], with the two clock values it reads. *)
Record write : Type := {
  at_cleanup : Z;
  at_stamp : Z;
  prefix : string;
  params : Value;
  value : Value
}.

Definition write_key (w : write) : string :=
  generateKey JSON_stringify (prefix w) (params w).

(** The entry a write puts in the map. *)
Definition written_entry (cfg : CacheConfig) (w : write) : string * CacheEntry Value :=
  (write_key w,
   {| data := if enableCompression cfg then Compressed (compress Value JSON_stringify (value w))
              else Plain (value w);
      timestamp := at_stamp w;
      size := calculateSize JSON_stringify (value w) |}).

Definition apply_write (c : MemoryCache.MemoryCache Value) (w : write)
    : MemoryCache.MemoryCache Value :=
  set JSON_stringify c (at_cleanup w) (at_stamp w) (prefix w) (params w) (value w).

Definition write_all (c : MemoryCache.MemoryCache Value) (ws : list write)
    : MemoryCache.MemoryCache Value :=
  fold_left apply_write ws c.

(** No entry expires between the writes: when a later write cleans up, no
    entry of an earlier write is older than the TTL. *)
Definition no_expiry (cfg : CacheConfig) (ws : list write) : Prop :=
  ForallOrdPairs (fun earlier later => (at_cleanup later - at_stamp earlier <= ttl cfg)%Z) ws.

(** The entries of a cache outlive the cleanups of the writes to come. *)
Definition outlives (cfg : CacheConfig) (m : list (string * CacheEntry Value))
    (ws : list write) : Prop :=
  Forall (fun p => Forall (fun w => (at_cleanup w - timestamp (snd p) <= ttl cfg)%Z) ws) m.

(** The bookkeeping of a cache is sound: the running total is the sum of the
    recorded sizes, and the keys are pairwise different and not empty. *)
Definition sound (c : MemoryCache.MemoryCache Value) : Prop :=
  totalSize c = sumSizes (cache c)
  /\ NoDup (List.map fst (cache c))
  /\ Forall (fun p => fst p <> "") (cache c).

(** The byte bound of a configuration. *)
Definition byte_bound (cfg : CacheConfig) : Z := (maxSize cfg * 1024 * 1024)%Z.
End Writes.

Arguments at_cleanup {Value} w.
Arguments at_stamp {Value} w.
Arguments prefix {Value} w.
Arguments params {Value} w.
Arguments value {Value} w.
Arguments write_key {Value} JSON_stringify w.
Arguments written_entry {Value} JSON_stringify cfg w.
Arguments apply_write {Value} JSON_stringify c w.
Arguments write_all {Value} JSON_stringify c ws.
Arguments no_expiry {Value} cfg ws.
Arguments outlives {Value} cfg m ws.
Arguments sound {Value} c.
End CacheSpec.

(** ** Example data *)

Module Examples.
Import MetricCalculator.

Definition number (z : Z) : jsval := JNumber (inject_Z z).

(** The record of the example scenario. *)
Definition scenario_record : gmap string jsval :=
  list_to_map
    [("third_level_organization", JString "A");
     ("signed_premium_yuan", number 1000); ("policy_count", number 2);
     ("matured_premium_yuan", number 900); ("claim_case_count", number 1);
     ("reported_claim_payment_yuan", number 300); ("expense_amount_yuan", number 100);
     ("matured_margin_contribution_yuan", number 200);
     ("commercial_premium_before_discount_yuan", number 1200)].

(** Its absolute values, as [lib/calculations] reads them. *)
Definition scenario_absolute : Calculations.AbsoluteValueFields :=
  Calculations.absoluteFields scenario_record.

(** A group with no signed premium but with matured premium and claims. *)
Definition unsigned_group : AggregatedData :=
  {| dimensions := ∅;
     signed_premium_yuan := 0; matured_premium_yuan := 100;
     commercial_premium_before_discount_yuan := 120; policy_count := 2;
     claim_case_count := 1; reported_claim_payment_yuan := 50;
     expense_amount_yuan := 10; matured_margin_contribution_yuan := 20;
     variable_cost_amount_yuan := 60; record_count := 1 |}.

(** A group without any policy. *)
Definition empty_group : AggregatedData :=
  {| dimensions := ∅;
     signed_premium_yuan := 0; matured_premium_yuan := 0;
     commercial_premium_before_discount_yuan := 0; policy_count := 0;
     claim_case_count := 0; reported_claim_payment_yuan := 0;
     expense_amount_yuan := 0; matured_margin_contribution_yuan := 0;
     variable_cost_amount_yuan := 0; record_count := 1 |}.
(** Two records that differ on the branch: the string [null] and nothing. *)
Definition branch_named_null : gmap string jsval := {[ "chengdu_branch" := JString "null" ]}.
Definition branch_missing : gmap string jsval := ∅.

(** A missing, B = "x" and A = "x", B missing, for A the branch and B the
    organization. *)
Definition only_organization_x : gmap string jsval :=
  {[ "third_level_organization" := JString "x" ]}.
Definition only_branch_x : gmap string jsval := {[ "chengdu_branch" := JString "x" ]}.

(** The same with the string [null] in the place of ["x"]. *)
Definition only_organization_null : gmap string jsval :=
  {[ "third_level_organization" := JString "null" ]}.

(** [Number(s)] on strings that are no numerals, the only ones the examples
    would convert. *)
Definition Number_ofString (s : string) : jsval := JNaN.

(** A serializer of the query parameters for the examples: the dimension
    names, the filtered fields and the limit. The cache key only has to tell
    requests apart. *)
Definition stringify_query (dimensions : list string)
    (filters : gmap string DataProcessor.condition) (limit : Z) : string :=
  join "," dimensions +:+ ";" +:+ join "," (List.map fst (map_to_list filters))
    +:+ ";" +:+ decimal1_toString (inject_Z limit).

(** Integers as cached values: the JSON text of an integer is its decimal
    numeral. *)
Definition stringify_integer (z : Z) : string := NilZero.string_of_int (Z.to_int z).
Definition parse_integer (s : string) : Z :=
  match NilZero.int_of_string s with
  | Some i => Z.of_int i
  | None => 0%Z
  end.
(** Cache configurations with room for three, two and no entries. *)
Definition room_for (n : Z) : MemoryCache.CacheConfig :=
  {| MemoryCache.maxSize := n; MemoryCache.ttl := 5 * 60 * 1000;
     MemoryCache.enableCompression := true |}.

(** The write of an integer under the key [name:1] at clock value [t]. *)
Definition write_at (t : Z) (name : string) (v : Z) : CacheSpec.write Z :=
  {| CacheSpec.at_cleanup := t; CacheSpec.at_stamp := t; CacheSpec.prefix := name;
     CacheSpec.params := 1%Z; CacheSpec.value := v |}.

(** Three writes on different keys. *)
Definition three_writes : list (CacheSpec.write Z) :=
  [write_at 0 "a" 10; write_at 1 "b" 20; write_at 2 "c" 30].

(** Five writes, the third on the key of the first. *)
Definition writes_with_overwrite : list (CacheSpec.write Z) :=
  [write_at 0 "a" 10; write_at 1 "b" 20; write_at 2 "a" 30; write_at 3 "c" 40;
   write_at 4 "d" 50].

(** The database after [findAll] has cached one record at clock value 0. *)
Definition database_with_entry : InsuranceDatabase.InsuranceDatabase :=
  InsuranceDatabase.setCache InsuranceDatabase.new 0 "findAll_{}"
    (InsuranceDatabase.CachedRecords [scenario_record]).
End Examples.

(** ** JavaScript numbers with their infinities, and [Array.prototype.slice] *)

Module JsNumber.

(** A number where a division may be by zero: a rational, [NaN], or an
    infinity with its sign. A zero is taken as [+0]. *)
Inductive number : Type :=
| Finite (q : Q)
| NaN
| Infinity (negative : bool).

Definition of_Z (z : Z) : number := Finite (inject_Z z).
Definition of_nat (n : nat) : number := of_Z (Z.of_nat n).

Definition is_negative (q : Q) : bool := negb (Qle_bool 0 q).

Definition add (a b : number) : number :=
  match a, b with
  | NaN, _ | _, NaN => NaN
  | Finite x, Finite y => Finite (x + y)
  | Infinity s, Finite _ | Finite _, Infinity s => Infinity s
  | Infinity s, Infinity t => if Bool.eqb s t then Infinity s else NaN
  end.

Definition opp (a : number) : number :=
  match a with
  | Finite x => Finite (- x)
  | NaN => NaN
  | Infinity s => Infinity (negb s)
  end.

Definition sub (a b : number) : number := add a (opp b).

Definition mul (a b : number) : number :=
  match a, b with
  | NaN, _ | _, NaN => NaN
  | Finite x, Finite y => Finite (x * y)
  | Infinity s, Finite y | Finite y, Infinity s =>
      if Qeq_bool y 0 then NaN else Infinity (xorb s (is_negative y))
  | Infinity s, Infinity t => Infinity (xorb s t)
  end.

Definition div (a b : number) : number :=
  match a, b with
  | NaN, _ | _, NaN => NaN
  | Finite x, Finite y =>
      if Qeq_bool y 0
      then if Qeq_bool x 0 then NaN else Infinity (is_negative x)
      else Finite (x / y)
  | Finite _, Infinity _ => Finite 0
  | Infinity s, Finite y => Infinity (xorb s (is_negative y))
  | Infinity _, Infinity _ => NaN
  end.

(** [a < b], [a > b], [a <= b]: false when an operand is [NaN]. *)
Definition lt (a b : number) : bool :=
  match a, b with
  | NaN, _ | _, NaN => false
  | Finite x, Finite y => negb (Qle_bool y x)
  | Finite _, Infinity s => negb s
  | Infinity s, Finite _ => s
  | Infinity s, Infinity t => s && negb t
  end.

Definition gt (a b : number) : bool := lt b a.

Definition le (a b : number) : bool :=
  match a, b with
  | NaN, _ | _, NaN => false
  | _, _ => negb (lt b a)
  end.

(** [a === b] *)
Definition strict_equals (a b : number) : bool :=
  match a, b with
  | Finite x, Finite y => Qeq_bool x y
  | Infinity s, Infinity t => Bool.eqb s t
  | _, _ => false
  end.

(** SameValueZero, the comparison of a [Set] *)
Definition same_value_zero (a b : number) : bool :=
  match a, b with
  | NaN, NaN => true
  | _, _ => strict_equals a b
  end.

(** ToBoolean *)
Definition truthy (a : number) : bool :=
  match a with
  | Finite q => negb (Qeq_bool q 0)
  | NaN => false
  | Infinity _ => true
  end.

Definition Math_abs (a : number) : number :=
  match a with
  | Finite q => Finite (Qabs q)
  | NaN => NaN
  | Infinity _ => Infinity false
  end.

Definition Math_floor (a : number) : number :=
  match a with
  | Finite q => Finite (inject_Z (Qfloor q))
  | _ => a
  end.

Definition Math_ceil (a : number) : number :=
  match a with
  | Finite q => Finite (inject_Z (Qceiling q))
  | _ => a
  end.

(** [Math.max] and [Math.min] of two arguments: [NaN] when one is. *)
Definition Math_max (a b : number) : number :=
  match a, b with
  | NaN, _ | _, NaN => NaN
  | _, _ => if lt a b then b else a
  end.

Definition Math_min (a b : number) : number :=
  match a, b with
  | NaN, _ | _, NaN => NaN
  | _, _ => if lt b a then b else a
  end.

(** [arr.slice(start, end)] for integer arguments: a negative index counts
    from the end, and both are clamped to the array. *)
Definition slice {A} (arr : list A) (start end_ : Z) : list A :=
  let len := Z.of_nat (length arr) in
  let k := if (start <? 0)%Z then Z.max (len + start) 0 else Z.min start len in
  let final := if (end_ <? 0)%Z then Z.max (len + end_) 0 else Z.min end_ len in
  take (Z.to_nat (final - k)) (drop (Z.to_nat k) arr).

End JsNumber.

(** ** lib/data-processor: paginateData *)

Module Paging.
Import JsNumber.

Record Page : Type := {
  data : list InsuranceRecord;
  total : nat;
  page : Z;
  pageSize : Z;
  totalPages : number
}.

(** [page] and [pageSize] are integers. *)
Definition paginateData (data : list InsuranceRecord) (page pageSize : Z) : Page :=
  let total := length data in
  let totalPages := Math_ceil (div (of_nat total) (of_Z pageSize)) in
  let startIndex := ((page - 1) * pageSize)%Z in
  let endIndex := (startIndex + pageSize)%Z in
  {| data := slice data startIndex endIndex;
     total := total;
     page := page;
     pageSize := pageSize;
     totalPages := totalPages |}.

End Paging.

(** ** lib/calculations: validateRecord, calculateGrowthRate, calculateMovingAverage *)

Module Validation.
Import JsNumber.

(** [Partial<InsuranceRecord>] on the fields that are read: each is a
    number or is missing ([None]). *)
Record PartialRecord : Type := {
  policy_start_year : option number;
  week_number : option number;
  policy_count : option number;
  claim_case_count : option number;
  signed_premium_yuan : option number;
  matured_premium_yuan : option number;
  reported_claim_payment_yuan : option number
}.

Record Validation : Type := {
  isValid : bool;
  errors : list string;
  warnings : list string
}.

(** ToBoolean of a field *)
Definition present (v : option number) : bool :=
  match v with
  | Some n => truthy n
  | None => false
  end.

(** [v && test(v)] as a condition *)
Definition present_and (v : option number) (test : number -> bool) : bool :=
  match v with
  | Some n => truthy n && test n
  | None => false
  end.

(** [if (condition) list.push(message)] *)
Definition push_if (condition : bool) (message : string) (messages : list string)
    : list string :=
  if condition then messages ++ [message] else messages.

Definition validateRecord (record : PartialRecord) : Validation :=
  let errors := [] in
  let warnings := [] in
  let errors := push_if (negb (present (policy_start_year record)))
                        "起保年度不能为空" errors in
  let errors := push_if (negb (present (week_number record)))
                        "周序号不能为空" errors in
  let errors :=
    push_if (negb (present (policy_count record))
             || match policy_count record with
                | Some n => le n (of_Z 0)
                | None => false
                end)
            "保单件数必须大于0" errors in
  let errors :=
    push_if (present_and (policy_start_year record)
                         (fun year => lt year (of_Z 2020) || gt year (of_Z 2030)))
            "起保年度超出合理范围(2020-2030)" errors in
  let errors :=
    push_if (present_and (week_number record)
                         (fun week => lt week (of_Z 1) || gt week (of_Z 53)))
            "周序号超出合理范围(1-53)" errors in
  let errors :=
    push_if (present_and (signed_premium_yuan record) (fun v => lt v (of_Z 0)))
            "签单保费不能为负数" errors in
  let errors :=
    push_if (present_and (matured_premium_yuan record) (fun v => lt v (of_Z 0)))
            "满期保费不能为负数" errors in
  let errors :=
    push_if (present_and (reported_claim_payment_yuan record) (fun v => lt v (of_Z 0)))
            "已报告赔款不能为负数" errors in
  let warnings :=
    push_if (present_and (claim_case_count record)
               (fun claims => present_and (policy_count record)
                                (fun policies => gt claims policies)))
            "赔案件数超过保单件数，请检查数据准确性" warnings in
  let warnings :=
    push_if (present_and (matured_premium_yuan record)
               (fun matured => present_and (signed_premium_yuan record)
                                 (fun signed =>
                                    gt (div (Math_abs (sub matured signed)) signed)
                                       (Finite (1 # 2)))))
            "满期保费与签单保费差异较大，请检查数据准确性" warnings in
  {| isValid := (length errors =? 0)%nat;
     errors := errors;
     warnings := warnings |}.

End Validation.

Module Series.
Import JsNumber.

Definition calculateGrowthRate (current previous : number) : number :=
  if strict_equals previous (of_Z 0)
  then if gt current (of_Z 0) then of_Z 100 else of_Z 0
  else mul (div (sub current previous) previous) (of_Z 100).

(** [values.reduce((a, b) => a + b, 0)] *)
Definition sum (values : list number) : number :=
  fold_left add values (of_Z 0).

(** [window] is an integer. The loop runs [i] from [window - 1] up to
    [values.length - 1]. *)
Definition calculateMovingAverage (values : list number) (window : Z) : list number :=
  let len := Z.of_nat (length values) in
  if (len <? window)%Z then values
  else
    List.map (fun i => div (sum (slice values (i - window + 1) (i + 1))) (of_Z window))
             (seqZ (window - 1) (len - (window - 1))).

End Series.

(** ** performance: ChunkLoader, PerformanceMonitor, DataOptimizer *)

Module ChunkLoader.
Import JsNumber.

Record ChunkConfig : Type := {
  chunkSize : Z;
  maxConcurrent : Z;
  preloadNext_enabled : bool
}.

Definition defaultConfig : ChunkConfig :=
  {| chunkSize := 1000; maxConcurrent := 3; preloadNext_enabled := true |}.

(** [loadingChunks] is a [Set<number>]: its members in insertion order. *)
Record ChunkLoader : Type := {
  config : ChunkConfig;
  loadingChunks : list number
}.

Definition new (cfg : ChunkConfig) : ChunkLoader :=
  {| config := cfg; loadingChunks := [] |}.

Definition Set_has (s : list number) (v : number) : bool :=
  existsb (fun x => same_value_zero x v) s.

Definition Set_add (s : list number) (v : number) : list number :=
  if Set_has s v then s else s ++ [v].

Definition Set_delete (s : list number) (v : number) : list number :=
  List.filter (fun x => negb (same_value_zero x v)) s.

Definition chunkIndexOf (loader : ChunkLoader) (startIndex : Z) : number :=
  Math_floor (div (of_Z startIndex) (of_Z (chunkSize (config loader)))).

(** [preloadNext] up to the timer it sets. *)
Definition preloadNext (loader : ChunkLoader) (startIndex : Z) : ChunkLoader :=
  let chunkIndex := chunkIndexOf loader startIndex in
  if Set_has (loadingChunks loader) chunkIndex
     || (Z.of_nat (length (loadingChunks loader)) >=? maxConcurrent (config loader))%Z
  then loader
  else {| config := config loader;
          loadingChunks := Set_add (loadingChunks loader) chunkIndex |}.

(** The callback of the timer of [preloadNext]. *)
Definition preloadDone (loader : ChunkLoader) (chunkIndex : number) : ChunkLoader :=
  {| config := config loader;
     loadingChunks := Set_delete (loadingChunks loader) chunkIndex |}.

Record Chunk (T : Type) : Type := {
  chunk : list T;
  hasMore : bool;
  nextIndex : Z
}.
Arguments chunk {T} c.
Arguments hasMore {T} c.
Arguments nextIndex {T} c.

(** [loadChunks] with integer [startIndex] and [count]. *)
Definition loadChunks {T} (loader : ChunkLoader) (data : list T) (startIndex count : Z)
    : Chunk T * ChunkLoader :=
  let len := Z.of_nat (length data) in
  let endIndex := Z.min (startIndex + count) len in
  let chunk := slice data startIndex endIndex in
  let loader :=
    if preloadNext_enabled (config loader) && (endIndex <? len)%Z
    then preloadNext loader endIndex
    else loader in
  ({| chunk := chunk; hasMore := (endIndex <? len)%Z; nextIndex := endIndex |}, loader).

(** The events of a loader: a call of [loadChunks], or the timer of a
    preload firing. *)
Inductive event (T : Type) : Type :=
| Load (data : list T) (startIndex count : Z)
| TimerFires (chunkIndex : number).
Arguments Load {T} data startIndex count.
Arguments TimerFires {T} chunkIndex.

Definition step {T} (loader : ChunkLoader) (e : event T) : ChunkLoader :=
  match e with
  | Load data startIndex count => snd (loadChunks loader data startIndex count)
  | TimerFires chunkIndex => preloadDone loader chunkIndex
  end.

Record VisibleRange : Type := {
  startIndex : number;
  endIndex : number;
  visibleItems : number
}.

Definition calculateVisibleRange (scrollTop containerHeight itemHeight totalItems
                                  overscan : number) : VisibleRange :=
  let startIndex :=
    Math_max (of_Z 0) (sub (Math_floor (div scrollTop itemHeight)) overscan) in
  let visibleItems := Math_ceil (div containerHeight itemHeight) in
  let endIndex :=
    Math_min (sub totalItems (of_Z 1))
             (add (add startIndex visibleItems) (mul overscan (of_Z 2))) in
  {| startIndex := startIndex; endIndex := endIndex; visibleItems := visibleItems |}.

End ChunkLoader.

Module PerformanceMonitor.
Local Open Scope Q_scope.

Record PerformanceMetrics : Type := {
  queryTime : Q;
  renderTime : Q;
  dataSize : Q;
  cacheHit : bool
}.

Record PerformanceMonitor : Type := {
  metrics : list PerformanceMetrics;
  maxMetrics : Z
}.

Definition new : PerformanceMonitor := {| metrics := []; maxMetrics := 100 |}.

(** [push], then [shift] when the array has grown over the maximum. *)
Definition addMetrics (monitor : PerformanceMonitor) (m : PerformanceMetrics)
    : PerformanceMonitor :=
  let pushed := metrics monitor ++ [m] in
  {| metrics := if (Z.of_nat (length pushed) >? maxMetrics monitor)%Z
                then tail pushed else pushed;
     maxMetrics := maxMetrics monitor |}.

(** One measurement: the clock and the heap size read by [startMeasure],
    then those read by the function it returns, with its two arguments.
    A heap size that is not available is [None], and reads as 0. *)
Record measurement : Type := {
  startTime : Q;
  startHeap : option Q;
  endTime : Q;
  endHeap : option Q;
  hit : bool;
  size : Q
}.

(** [x || 0] on a heap size *)
Definition heap_or_zero (heap : option Q) : Q := default 0 heap.

Definition measure (monitor : PerformanceMonitor) (s : measurement)
    : PerformanceMetrics * PerformanceMonitor :=
  let startMemory := heap_or_zero (startHeap s) in
  let endMemory := heap_or_zero (endHeap s) in
  let m := {| queryTime := endTime s - startTime s;
              renderTime := 0;
              dataSize := if Qeq_bool (size s) 0 then endMemory - startMemory else size s;
              cacheHit := hit s |} in
  (m, addMetrics monitor m).

Record Stats : Type := {
  avgQueryTime : Q;
  avgRenderTime : Q;
  avgDataSize : Q;
  cacheHitRate : Q;
  totalQueries : nat
}.

(** [metrics.reduce((sum, m) => sum + field(m), 0)] *)
Definition total (field : PerformanceMetrics -> Q) (ms : list PerformanceMetrics) : Q :=
  fold_left (fun sum m => sum + field m) ms 0.

Definition getStats (monitor : PerformanceMonitor) : Stats :=
  if (length (metrics monitor) =? 0)%nat
  then {| avgQueryTime := 0; avgRenderTime := 0; avgDataSize := 0;
          cacheHitRate := 0; totalQueries := 0 |}
  else
    let totalQueries := length (metrics monitor) in
    let cacheHits := length (List.filter cacheHit (metrics monitor)) in
    let n := inject_Z (Z.of_nat totalQueries) in
    {| avgQueryTime := total queryTime (metrics monitor) / n;
       avgRenderTime := total renderTime (metrics monitor) / n;
       avgDataSize := total dataSize (metrics monitor) / n;
       cacheHitRate := (inject_Z (Z.of_nat cacheHits) / n) * 100;
       totalQueries := totalQueries |}.

Record Check : Type := {
  queryTimeOk : bool;
  renderTimeOk : bool;
  overallOk : bool
}.

Definition less (a b : Q) : bool := negb (Qle_bool b a).

Definition checkPerformance (monitor : PerformanceMonitor) : Check :=
  let stats := getStats monitor in
  let queryTimeOk := less (avgQueryTime stats) 2000 in
  let renderTimeOk := less (avgRenderTime stats) 1000 in
  {| queryTimeOk := queryTimeOk;
     renderTimeOk := renderTimeOk;
     overallOk := queryTimeOk && renderTimeOk |}.

End PerformanceMonitor.

Module DataOptimizer.

Section Generic.
Context {T : Type}.
(** SameValueZero on the items, the comparison of [new Set(data)]. *)
Variable sameValueZero : T -> T -> bool.

(** [data.filter(...)] with the set [seen] that the callback reads and
    extends. *)
Fixpoint keepUnseen (keyFn : T -> string) (data : list T) (seen : gset string) : list T :=
  match data with
  | [] => []
  | item :: rest =>
      let key := keyFn item in
      if bool_decide (key ∈ seen) then keepUnseen keyFn rest seen
      else item :: keepUnseen keyFn rest ({[key]} ∪ seen)
  end.

Definition deduplicate (data : list T) (keyFn : option (T -> string)) : list T :=
  match keyFn with
  | None =>
      fold_left (fun set item => if existsb (sameValueZero item) set then set
                                 else set ++ [item])
                data []
  | Some keyFn => keepUnseen keyFn data ∅
  end.

(** A [Map<string, T[]>] as the list of its entries, oldest key first. *)
Fixpoint Map_get (key : string) (m : list (string * list T)) : option (list T) :=
  match m with
  | [] => None
  | (k, v) :: rest => if String.eqb k key then Some v else Map_get key rest
  end.

Fixpoint Map_set (key : string) (value : list T) (m : list (string * list T))
    : list (string * list T) :=
  match m with
  | [] => [(key, value)]
  | (k, v) :: rest =>
      if String.eqb k key then (k, value) :: rest else (k, v) :: Map_set key value rest
  end.

(** The body of the loop of [groupBy]; [maxGroupSize] is an integer. *)
Definition groupBy_step (keyFn : T -> string) (maxGroupSize : Z)
    (groups : list (string * list T)) (item : T) : list (string * list T) :=
  let key := keyFn item in
  let group := default [] (Map_get key groups) in
  if (Z.of_nat (length group) <? maxGroupSize)%Z
  then Map_set key (group ++ [item]) groups
  else groups.

Definition groupBy (data : list T) (keyFn : T -> string) (maxGroupSize : Z)
    : list (string * list T) :=
  fold_left (groupBy_step keyFn maxGroupSize) data [].
End Generic.

(** [value !== null && value !== undefined && value !== ''] *)
Definition kept (value : jsval) : bool :=
  negb (strict_equals value JNull) && negb (strict_equals value JUndefined)
  && negb (strict_equals value (JString "")).

(** [compress]: the objects with their empty fields removed. *)
Definition compress (data : list (gmap string jsval)) : list (gmap string jsval) :=
  List.map (fun item => filter (fun entry => kept (snd entry) = true) item) data.

End DataOptimizer.

(** ** DataService.calculateGlobalMetrics *)

Module DataServiceMetrics.
Import MetricCalculator.

Section WithRuntime.
Variable Number_toString : Q -> string.
(** [JSON.stringify({ dataLength })] *)
Variable JSON_stringify : nat -> string.

(** [getCacheKey] with its parameters serialized: [paramStr] is the JSON
    text of the parameters, which are an object here and so truthy. *)
Definition getCacheKey (prefix paramStr : string) : string :=
  prefix +:+ "_" +:+ paramStr.

(** [calculateGlobalMetrics]; [now_get] is the clock read by [getCache],
    [now_set] the one read by [setCache]. [None] is the rejection of the
    promise when [calculateAllMetrics] throws. *)
Definition calculateGlobalMetrics
    (cache : gmap string (DataService.entry (Data := MetricCalculationResult)))
    (now_get now_set : Z) (data : list InsuranceRecord)
    : option MetricCalculationResult
      * gmap string (DataService.entry (Data := MetricCalculationResult)) :=
  let cacheKey := getCacheKey "global_metrics" (JSON_stringify (length data)) in
  match DataService.getCache now_get cacheKey cache with
  | (Some cached, cache) => (Some cached, cache)
  | (None, cache) =>
      match calculateAllMetrics Number_toString data with
      | None => (None, cache)
      | Some result => (Some result, DataService.setCache now_set cacheKey result cache)
      end
  end.
End WithRuntime.

End DataServiceMetrics.

(** ** Words for the further properties *)

Module Further.

(** The keys of a list in the order in which they first occur. *)
Definition first_seen (keys : list string) : list string :=
  fold_left (fun seen key => if bool_decide (key ∈ seen) then seen else seen ++ [key])
            keys [].

(** The records of the input whose key is [key], in input order. *)
Definition records_with (keyOf : gmap string jsval -> string) (key : string)
    (data : list (gmap string jsval)) : list (gmap string jsval) :=
  List.filter (fun record => String.eqb (keyOf record) key) data.

(** The dimension values a group takes from its first record. *)
Definition values_of_first (members : list (gmap string jsval)) (fields : list string)
    : gmap string jsval :=
  match members with
  | [] => ∅
  | first :: _ => fold_left (fun dims field => <[field := get first field]> dims) fields ∅
  end.

(** The members of all the groups together. *)
Definition total_members (groups : list MetricCalculator.AggregatedData) : nat :=
  sum_list (List.map MetricCalculator.record_count groups).

(** Every record holds a number under [field]. *)
Definition numeric_everywhere (field : string) (records : list (gmap string jsval)) : Prop :=
  Forall (fun record => exists q, record !! field = Some (JNumber q)) records.

(** A sum that is the arithmetic sum when every record holds a number, and
    [NaN] otherwise. *)
Definition sum_or_NaN (result : Calculations.num) (field : string)
    (records : list (gmap string jsval)) : Prop :=
  match result with
  | Some q => numeric_everywhere field records /\ (q == Spec.arithmetic_sum records field)%Q
  | None => ~ numeric_everywhere field records
  end.

(** The sums of an aggregated group as [lib/calculations] takes them. *)
Definition as_absolute (g : MetricCalculator.AggregatedData) : Calculations.AbsoluteValueFields :=
  {| Calculations.signed_premium_yuan := Some (MetricCalculator.signed_premium_yuan g);
     Calculations.matured_premium_yuan := Some (MetricCalculator.matured_premium_yuan g);
     Calculations.commercial_premium_before_discount_yuan :=
       Some (MetricCalculator.commercial_premium_before_discount_yuan g);
     Calculations.policy_count := Some (MetricCalculator.policy_count g);
     Calculations.claim_case_count := Some (MetricCalculator.claim_case_count g);
     Calculations.reported_claim_payment_yuan :=
       Some (MetricCalculator.reported_claim_payment_yuan g);
     Calculations.expense_amount_yuan := Some (MetricCalculator.expense_amount_yuan g);
     Calculations.matured_margin_contribution_yuan :=
       Some (MetricCalculator.matured_margin_contribution_yuan g);
     Calculations.variable_cost_amount_yuan :=
       Some (MetricCalculator.variable_cost_amount_yuan g) |}.

(** A value of [lib/calculations] that is a number, rounded as the metric
    calculator rounds it. *)
Definition rounds_to (unrounded : Calculations.num) (round : Q -> Q) (exposed : Q) : Prop :=
  exists q, unrounded = Some q /\ (exposed == round q)%Q.

(** The part of a string before its first [|], the whole string when it
    has none. *)
Fixpoint up_to_bar (s : string) : string :=
  match s with
  | EmptyString => EmptyString
  | String c rest => if Ascii.eqb c "|" then EmptyString else String c (up_to_bar rest)
  end.

(** The members of all the groups of [lib/calculations] together. *)
Definition total_records (results : list Calculations.AnalysisResult) : nat :=
  sum_list (List.map Calculations.record_count results).

(** A result list in which no result has more members than one before it. *)
Definition descending_by_count (results : list Calculations.AnalysisResult) : Prop :=
  forall i j a b,
    (i < j)%nat -> results !! i = Some a -> results !! j = Some b ->
    (Calculations.record_count b <= Calculations.record_count a)%nat.

(** The pages 1 to [n] of a list, one after the other. *)
Definition pages_through (data : list (gmap string jsval)) (pageSize : Z) (n : nat)
    : list (gmap string jsval) :=
  concat (List.map (fun p => Paging.data (Paging.paginateData data (Z.of_nat p) pageSize))
                   (seq 1 n)).

(** A field that holds a number between [lo] and [hi]. *)
Definition within (lo hi : Z) (v : option JsNumber.number) : Prop :=
  exists q, v = Some (JsNumber.Finite q) /\ (inject_Z lo <= q <= inject_Z hi)%Q.

(** A field that holds a number above zero, or plus infinity. *)
Definition above_zero (v : option JsNumber.number) : Prop :=
  match v with
  | Some (JsNumber.Finite q) => (0 < q)%Q
  | Some (JsNumber.Infinity false) => True
  | _ => False
  end.

(** A field that holds no number below zero: it is missing, [NaN], plus
    infinity or a number that is not negative. *)
Definition not_below_zero (v : option JsNumber.number) : Prop :=
  match v with
  | Some (JsNumber.Finite q) => (0 <= q)%Q
  | Some (JsNumber.Infinity true) => False
  | _ => True
  end.

(** The monitor after a list of measurements, on a new monitor. *)
Definition measured (samples : list PerformanceMonitor.measurement)
    : PerformanceMonitor.PerformanceMonitor :=
  fold_left (fun monitor s => snd (PerformanceMonitor.measure monitor s))
            samples PerformanceMonitor.new.

(** The items of a list with a given key, in input order. *)
Definition items_with {T} (keyFn : T -> string) (key : string) (data : list T) : list T :=
  List.filter (fun item => String.eqb (keyFn item) key) data.

(** A list as the value of a map entry: nothing when it is empty. *)
Definition if_nonempty {T} (l : list T) : option (list T) :=
  match l with
  | [] => None
  | _ => Some l
  end.
End Further.

(** * Properties *)

(** ** Arithmetic helpers *)

Section Rounding.
Local Open Scope Q_scope.

Lemma Math_round_compat (x y : Q) : x == y -> Math_round x == Math_round y.
Proof.
  intros E. unfold Math_round.
  assert (H : Qfloor (x + (1 # 2)) = Qfloor (y + (1 # 2))) by (apply Qfloor_comp; rewrite E; reflexivity).
  rewrite H. reflexivity.
Qed.

Lemma roundToDecimal_compat (x y : Q) (d : Z) :
  x == y -> MetricCalculator.roundToDecimal x d == MetricCalculator.roundToDecimal y d.
Proof.
  intros E. unfold MetricCalculator.roundToDecimal.
  rewrite (Math_round_compat (x * Math_pow10 d) (y * Math_pow10 d)); [reflexivity|].
  rewrite E. reflexivity.
Qed.

Lemma Math_round_zero : Math_round 0 == 0.
Proof. reflexivity. Qed.

Lemma roundToDecimal_zero (x : Q) (d : Z) :
  x == 0 -> MetricCalculator.roundToDecimal x d == 0.
Proof.
  intros E. rewrite (roundToDecimal_compat x 0 d E).
  unfold MetricCalculator.roundToDecimal.
  rewrite (Math_round_compat (0 * Math_pow10 d) 0) by ring.
  rewrite Math_round_zero. unfold Qdiv. ring.
Qed.

(** One decimal: the value is an integer number of tenths. *)
Lemma roundToDecimal_1 (x : Q) :
  MetricCalculator.roundToDecimal x 1 == inject_Z (Qfloor (x * 10 + (1 # 2))) / 10.
Proof. reflexivity. Qed.

(** [Math.round] is within a half of its argument. *)
Lemma Math_round_bounds (x : Q) : x - (1 # 2) < Math_round x /\ Math_round x <= x + (1 # 2).
Proof.
  unfold Math_round. split.
  - pose proof (Qlt_floor (x + (1 # 2))) as H.
    rewrite inject_Z_plus in H. change (inject_Z 1) with 1 in H. lra.
  - apply Qfloor_le.
Qed.

(** Rounding a sum differs from the sum of the roundings by at most one
    unit. *)
Lemma Math_round_sum (x y : Q) :
  -1 <= Math_round (x + y) - (Math_round x + Math_round y) <= 1.
Proof.
  pose proof (Math_round_bounds x) as [Hx1 Hx2].
  pose proof (Math_round_bounds y) as [Hy1 Hy2].
  pose proof (Math_round_bounds (x + y)) as [Hs1 Hs2].
  unfold Math_round in *.
  set (a := Qfloor (x + (1 # 2))) in *.
  set (b := Qfloor (y + (1 # 2))) in *.
  set (c := Qfloor (x + y + (1 # 2))) in *.
  assert (Hlt : (c - (a + b) < 2)%Z).
  { rewrite Zlt_Qlt. unfold Z.sub.
    rewrite inject_Z_plus, inject_Z_opp, inject_Z_plus.
    change (inject_Z 2) with 2. lra. }
  assert (Hgt : (-2 < c - (a + b))%Z).
  { rewrite Zlt_Qlt. unfold Z.sub.
    rewrite inject_Z_plus, inject_Z_opp, inject_Z_plus.
    change (inject_Z (-2)) with (-2). lra. }
  assert (Hle : (c - (a + b) <= 1)%Z) by lia.
  assert (Hge : (-1 <= c - (a + b))%Z) by lia.
  rewrite Zle_Qle in Hle, Hge. unfold Z.sub in Hle, Hge.
  rewrite inject_Z_plus, inject_Z_opp, inject_Z_plus in Hle, Hge.
  change (inject_Z 1) with 1 in Hle. change (inject_Z (-1)) with (-1) in Hge.
  split; lra.
Qed.

Lemma roundToDecimal_1_sum (x y : Q) :
  Qabs (MetricCalculator.roundToDecimal (x + y) 1
        - (MetricCalculator.roundToDecimal x 1 + MetricCalculator.roundToDecimal y 1))
  <= 1 # 10.
Proof.
  apply Qabs_Qle_condition.
  unfold MetricCalculator.roundToDecimal.
  change (Math_pow10 1) with 10.
  pose proof (Math_round_sum (x * 10) (y * 10)) as [H1 H2].
  rewrite (Math_round_compat ((x + y) * 10) (x * 10 + y * 10)) by ring.
  set (A := Math_round (x * 10)) in *.
  set (B := Math_round (y * 10)) in *.
  set (C := Math_round (x * 10 + y * 10)) in *.
  unfold Qdiv. assert (E : / 10 == 1 # 10) by reflexivity.
  rewrite E. split; lra.
Qed.
End Rounding.

(** ** The aggregator without dimensions *)

Section AggregatorProperties.
Import MetricCalculator Spec.
Local Open Scope Q_scope.
Variable Number_toString : Q -> string.

Lemma numeric_or_zero_contribution (record : gmap string jsval) (field : string) :
  numeric_or_zero (get record field) = contribution record field.
Proof.
  unfold get, contribution. destruct (record !! field) as [v|]; [destruct v|]; reflexivity.
Qed.

Lemma safeSum_from (data : list (gmap string jsval)) (field : string) (start : Q) :
  fold_left (fun sum record => sum + numeric_or_zero (get record field)) data start
  == start + arithmetic_sum data field.
Proof.
  revert start. induction data as [|record data IH]; intros start; simpl.
  - ring.
  - rewrite IH, numeric_or_zero_contribution. ring.
Qed.

Lemma safeSum_arithmetic_sum (data : list (gmap string jsval)) (field : string) :
  safeSum data field == arithmetic_sum data field.
Proof. unfold safeSum. rewrite safeSum_from. ring. Qed.

End AggregatorProperties.


(** ** The metric deriver *)

Section MetricProperties.
Import MetricCalculator Spec.
Local Open Scope Q_scope.
Variable Number_toString : Q -> string.

Ltac by_denominators g :=
  unfold calculateMetrics, safeDivide, quotient, warning_if_zero;
  destruct (Qeq_bool (policy_count g) 0), (Qeq_bool (claim_case_count g) 0),
           (Qeq_bool (signed_premium_yuan g) 0), (Qeq_bool (matured_premium_yuan g) 0),
           (Qeq_bool (commercial_premium_before_discount_yuan g) 0);
  reflexivity.

(** Every exposed field is one rounding of a formula over unrounded
    quotients. *)
Lemma exposed_average_premium g :
  average_premium_per_policy_yuan (calculateMetrics Number_toString g)
  = Math_round (quotient (signed_premium_yuan g) (policy_count g)).
Proof. by_denominators g. Qed.

Lemma exposed_average_claim g :
  average_claim_payment_yuan (calculateMetrics Number_toString g)
  = Math_round (quotient (reported_claim_payment_yuan g) (claim_case_count g)).
Proof. by_denominators g. Qed.

Lemma exposed_expense_ratio g :
  expense_ratio_percent (calculateMetrics Number_toString g)
  = roundToDecimal (quotient (expense_amount_yuan g) (signed_premium_yuan g) * 100) 1.
Proof. by_denominators g. Qed.

Lemma exposed_loss_ratio g :
  expired_loss_ratio_percent (calculateMetrics Number_toString g)
  = roundToDecimal
      (quotient (reported_claim_payment_yuan g) (matured_premium_yuan g) * 100) 1.
Proof. by_denominators g. Qed.

Lemma exposed_claim_frequency g :
  claim_frequency_percent (calculateMetrics Number_toString g)
  = roundToDecimal
      (quotient (claim_case_count g) (policy_count g)
       * quotient (matured_premium_yuan g) (signed_premium_yuan g) * 100) 1.
Proof. by_denominators g. Qed.

Lemma exposed_variable_cost_ratio g :
  variable_cost_ratio_percent (calculateMetrics Number_toString g)
  = roundToDecimal
      ((quotient (expense_amount_yuan g) (signed_premium_yuan g)
        + quotient (reported_claim_payment_yuan g) (matured_premium_yuan g)) * 100) 1.
Proof. by_denominators g. Qed.

Lemma exposed_margin_rate g :
  matured_margin_contribution_rate_percent (calculateMetrics Number_toString g)
  = roundToDecimal
      (quotient (matured_margin_contribution_yuan g) (matured_premium_yuan g) * 100) 1.
Proof. by_denominators g. Qed.

Lemma exposed_underwriting_factor g :
  commercial_auto_underwriting_factor (calculateMetrics Number_toString g)
  = roundToDecimal
      (quotient (signed_premium_yuan g) (commercial_premium_before_discount_yuan g)) 4.
Proof. by_denominators g. Qed.

Lemma exposed_combined_ratio g :
  combined_ratio_percent (calculateMetrics Number_toString g)
  = roundToDecimal
      (quotient (expense_amount_yuan g) (signed_premium_yuan g) * 100
       + quotient (reported_claim_payment_yuan g) (matured_premium_yuan g) * 100) 1.
Proof. by_denominators g. Qed.

Lemma exposed_profit_margin g :
  profit_margin_percent (calculateMetrics Number_toString g)
  = roundToDecimal
      (100 - (quotient (expense_amount_yuan g) (signed_premium_yuan g) * 100
              + quotient (reported_claim_payment_yuan g) (matured_premium_yuan g) * 100))
      1.
Proof. by_denominators g. Qed.

(** The warnings, in the order of the divisions. *)
Lemma recorded_warnings g :
  calculation_warnings (calculateMetrics Number_toString g)
  = warning_if_zero (policy_count g) "单均保费计算：保单件数为0"
    ++ warning_if_zero (claim_case_count g) "案均赔款计算：赔案件数为0"
    ++ warning_if_zero (signed_premium_yuan g) "费用率计算：签单保费为0"
    ++ warning_if_zero (matured_premium_yuan g) "满期赔付率计算：满期保费为0"
    ++ warning_if_zero (policy_count g) "满期出险率计算：保单件数为0"
    ++ warning_if_zero (signed_premium_yuan g) "满期出险率计算：签单保费为0"
    ++ warning_if_zero (matured_premium_yuan g) "边际贡献率计算：满期保费为0"
    ++ warning_if_zero (commercial_premium_before_discount_yuan g)
         "商业险自主系数计算：商业险折前保费为0".
Proof. by_denominators g. Qed.

Lemma quotient_zero (n d : Q) : d == 0 -> quotient n d = 0.
Proof.
  intros E. unfold quotient. apply Qeq_bool_iff in E. rewrite E. reflexivity.
Qed.

Lemma warning_if_zero_present (d : Q) (message : string) :
  d == 0 -> warning_if_zero d message = [message].
Proof.
  intros E. unfold warning_if_zero. apply Qeq_bool_iff in E. rewrite E. reflexivity.
Qed.

Lemma warning_if_zero_named (d : Q) (message : string) :
  In message named_warnings -> Forall (fun w => In w named_warnings) (warning_if_zero d message).
Proof.
  intros H. unfold warning_if_zero. destruct (Qeq_bool d 0).
  - apply Forall_cons. split; [exact H | apply Forall_nil; exact I].
  - apply Forall_nil. exact I.
Qed.

(** The claim frequency of [calculateMetrics] is the composite formula:
    the claims per policy times the maturity correction, times 100, rounded
    to one decimal afterwards. *)
Lemma calculateMetrics_claim_frequency g :
  claim_frequency_percent (calculateMetrics Number_toString g)
  == roundToDecimal
       (quotient (claim_case_count g) (policy_count g)
        * quotient (matured_premium_yuan g) (signed_premium_yuan g) * 100) 1.
Proof. rewrite exposed_claim_frequency. reflexivity. Qed.

End MetricProperties.

Section ZeroDenominators.
Import MetricCalculator Spec.
Local Open Scope Q_scope.
Variable Number_toString : Q -> string.

Lemma safeDivide_zero_denominator (numerator : Q) (denominator : option Q)
    (message : string) (warnings : list string) :
  (denominator = None \/ exists d, denominator = Some d /\ d == 0) ->
  message <> "" ->
  safeDivide numerator denominator message warnings = (0, warnings ++ [message]).
Proof.
  intros Hd Hm. unfold safeDivide.
  assert (Hneq : String.eqb message "" = false) by (apply String.eqb_neq; exact Hm).
  destruct Hd as [-> | (d & -> & Hz)].
  - rewrite Hneq. reflexivity.
  - apply Qeq_bool_iff in Hz. rewrite Hz, Hneq. reflexivity.
Qed.

Lemma warnings_are_named g :
  Forall (fun w => In w named_warnings)
         (calculation_warnings (calculateMetrics Number_toString g)).
Proof.
  rewrite recorded_warnings.
  repeat (apply Forall_app; split);
    apply warning_if_zero_named; unfold named_warnings; simpl; tauto.
Qed.

(** C2, as the code has it. Every division of [calculateMetrics] goes
    through [safeDivide], which returns 0 on a zero denominator. A field that
    is one quotient is then 0 and the warning of that division is recorded;
    the claim frequency is 0 when either of its two denominators is zero, with
    the warning of each zero denominator. The variable cost ratio is the sum
    of two quotients whose divisions carry no message: a zero denominator
    only drops its quotient from the sum, and no warning names this field. *)
Theorem zero_denominator_degrades g :
  (forall numerator denominator message warnings,
     (denominator = None \/ exists d, denominator = Some d /\ d == 0) ->
     fst (safeDivide numerator denominator message warnings) = 0
     /\ (message <> "" ->
         snd (safeDivide numerator denominator message warnings) = warnings ++ [message]))
  /\ (policy_count g == 0 ->
     average_premium_per_policy_yuan (calculateMetrics Number_toString g) == 0
     /\ In "单均保费计算：保单件数为0"
           (calculation_warnings (calculateMetrics Number_toString g)))
  /\ (claim_case_count g == 0 ->
     average_claim_payment_yuan (calculateMetrics Number_toString g) == 0
     /\ In "案均赔款计算：赔案件数为0"
           (calculation_warnings (calculateMetrics Number_toString g)))
  /\ (signed_premium_yuan g == 0 ->
     expense_ratio_percent (calculateMetrics Number_toString g) == 0
     /\ In "费用率计算：签单保费为0"
           (calculation_warnings (calculateMetrics Number_toString g)))
  /\ (matured_premium_yuan g == 0 ->
     expired_loss_ratio_percent (calculateMetrics Number_toString g) == 0
     /\ In "满期赔付率计算：满期保费为0"
           (calculation_warnings (calculateMetrics Number_toString g)))
  /\ (policy_count g == 0 ->
     claim_frequency_percent (calculateMetrics Number_toString g) == 0
     /\ In "满期出险率计算：保单件数为0"
           (calculation_warnings (calculateMetrics Number_toString g)))
  /\ (signed_premium_yuan g == 0 ->
     claim_frequency_percent (calculateMetrics Number_toString g) == 0
     /\ In "满期出险率计算：签单保费为0"
           (calculation_warnings (calculateMetrics Number_toString g)))
  /\ (matured_premium_yuan g == 0 ->
     matured_margin_contribution_rate_percent (calculateMetrics Number_toString g) == 0
     /\ In "边际贡献率计算：满期保费为0"
           (calculation_warnings (calculateMetrics Number_toString g)))
  /\ (commercial_premium_before_discount_yuan g == 0 ->
     commercial_auto_underwriting_factor (calculateMetrics Number_toString g) == 0
     /\ In "商业险自主系数计算：商业险折前保费为0"
           (calculation_warnings (calculateMetrics Number_toString g)))
  /\ (signed_premium_yuan g == 0 ->
     variable_cost_ratio_percent (calculateMetrics Number_toString g)
     == roundToDecimal
          (quotient (reported_claim_payment_yuan g) (matured_premium_yuan g) * 100) 1)
  /\ (matured_premium_yuan g == 0 ->
     variable_cost_ratio_percent (calculateMetrics Number_toString g)
     == roundToDecimal
          (quotient (expense_amount_yuan g) (signed_premium_yuan g) * 100) 1)
  /\ Forall (fun w => In w named_warnings)
            (calculation_warnings (calculateMetrics Number_toString g)).
Proof.
  split.
  { intros numerator denominator message warnings Hd. split.
    - unfold safeDivide. destruct Hd as [-> | (d & -> & Hz)]; [reflexivity|].
      apply Qeq_bool_iff in Hz. rewrite Hz. reflexivity.
    - intros Hm. rewrite (safeDivide_zero_denominator _ _ _ _ Hd Hm). reflexivity. }
  rewrite recorded_warnings.
  repeat match goal with |- _ /\ _ => split end.
  - intros E. rewrite exposed_average_premium, (quotient_zero _ _ E).
    rewrite !(warning_if_zero_present _ _ E). split; [reflexivity|].
    apply in_or_app. left. left. reflexivity.
  - intros E. rewrite exposed_average_claim, (quotient_zero _ _ E).
    rewrite !(warning_if_zero_present _ _ E). split; [reflexivity|].
    apply in_or_app. right. apply in_or_app. left. left. reflexivity.
  - intros E. rewrite exposed_expense_ratio, (quotient_zero _ _ E).
    rewrite !(warning_if_zero_present _ _ E). split; [reflexivity|].
    do 2 (apply in_or_app; right). apply in_or_app. left. left. reflexivity.
  - intros E. rewrite exposed_loss_ratio, (quotient_zero _ _ E).
    rewrite !(warning_if_zero_present _ _ E). split; [reflexivity|].
    do 3 (apply in_or_app; right). apply in_or_app. left. left. reflexivity.
  - intros E. rewrite exposed_claim_frequency, (quotient_zero _ _ E).
    rewrite !(warning_if_zero_present _ _ E).
    split; [apply roundToDecimal_zero; ring|].
    do 4 (apply in_or_app; right). apply in_or_app. left. left. reflexivity.
  - intros E. rewrite exposed_claim_frequency, (quotient_zero _ _ E).
    rewrite !(warning_if_zero_present _ _ E).
    split; [apply roundToDecimal_zero; ring|].
    do 5 (apply in_or_app; right). apply in_or_app. left. left. reflexivity.
  - intros E. rewrite exposed_margin_rate, (quotient_zero _ _ E).
    rewrite !(warning_if_zero_present _ _ E). split; [reflexivity|].
    do 6 (apply in_or_app; right). apply in_or_app. left. left. reflexivity.
  - intros E. rewrite exposed_underwriting_factor, (quotient_zero _ _ E).
    rewrite !(warning_if_zero_present _ _ E). split; [reflexivity|].
    do 7 (apply in_or_app; right). left. reflexivity.
  - intros E. rewrite exposed_variable_cost_ratio, (quotient_zero _ _ E).
    apply roundToDecimal_compat. ring.
  - intros E. rewrite exposed_variable_cost_ratio, (quotient_zero _ _ E).
    apply roundToDecimal_compat. ring.
  - rewrite <- (recorded_warnings Number_toString). apply warnings_are_named.
Qed.
End ZeroDenominators.

(** The group without any policy: the average premium is 0 and its warning is
    recorded. *)
Lemma zero_denominator_degrades_witness :
  (MetricCalculator.policy_count Examples.empty_group == 0)%Q
  /\ (MetricCalculator.average_premium_per_policy_yuan
        (MetricCalculator.calculateMetrics decimal1_toString Examples.empty_group) == 0)%Q
  /\ In "单均保费计算：保单件数为0"
        (MetricCalculator.calculation_warnings
           (MetricCalculator.calculateMetrics decimal1_toString Examples.empty_group)).
Proof.
  split; [reflexivity|].
  apply (proj1 (proj2 (zero_denominator_degrades decimal1_toString Examples.empty_group))).
  reflexivity.
Defined.

(** C2 as stated fails on the variable cost ratio: with no signed premium its
    denominator is zero, yet the field is 50 and the recorded warnings are
    those of the expense ratio and of the claim frequency only. *)
Lemma variable_cost_ratio_not_zeroed :
  (MetricCalculator.signed_premium_yuan Examples.unsigned_group == 0)%Q
  /\ (MetricCalculator.variable_cost_ratio_percent
        (MetricCalculator.calculateMetrics decimal1_toString Examples.unsigned_group)
      == 50)%Q
  /\ ~ (MetricCalculator.variable_cost_ratio_percent
          (MetricCalculator.calculateMetrics decimal1_toString Examples.unsigned_group)
        == 0)%Q
  /\ MetricCalculator.calculation_warnings
       (MetricCalculator.calculateMetrics decimal1_toString Examples.unsigned_group)
     = ["费用率计算：签单保费为0"; "满期出险率计算：签单保费为0"].
Proof.
  split; [reflexivity|]. split; [reflexivity|]. split; [|reflexivity].
  intros H. vm_compute in H. discriminate H.
Qed.

(** ** The claim frequency of lib/calculations *)

(** Whatever the premiums are, the claim frequency of [calculateFields]
    is the claims per policy times 100. *)
Lemma calculateFields_claim_frequency (record : Calculations.AbsoluteValueFields) :
  Calculations.positive (Calculations.policy_count record) = true ->
  Calculations.claim_frequency_percent (Calculations.calculateFields record)
  = Calculations.num_mul
      (Calculations.num_div (Calculations.claim_case_count record)
                            (Calculations.policy_count record))
      Calculations.hundred.
Proof. intros H. unfold Calculations.calculateFields. simpl. rewrite H. reflexivity. Qed.

(** C1 at the record of the example scenario (1 claim on 2 policies, 900
    matured out of 1000 signed): [calculateFields] returns 50, the plain
    claims per policy, where the composite formula gives 45, which is what
    [calculateMetrics] returns for the same sums. *)
Theorem calculateFields_claim_frequency_without_maturity :
  exists q : Q,
    Calculations.claim_frequency_percent
      (Calculations.calculateFields Examples.scenario_absolute) = Some q
    /\ (q == 50)%Q
    /\ ~ (q == Spec.quotient 1 2 * Spec.quotient 900 1000 * 100)%Q
    /\ exists g,
        MetricCalculator.aggregateByDimensions decimal1_toString
          [Examples.scenario_record] [] = Some [g]
        /\ (MetricCalculator.claim_frequency_percent
              (MetricCalculator.calculateMetrics decimal1_toString g) == 45)%Q.
Proof.
  eexists. split; [reflexivity|]. split; [reflexivity|]. split.
  - intros H. vm_compute in H. discriminate H.
  - eexists. split; [reflexivity|]. reflexivity.
Qed.

(** ** Filtering *)

Section FilterProperties.
Import DataProcessor Spec.

Lemma conditionHolds_spec (record : gmap string jsval) (field : string) (c : condition) :
  conditionHolds record (field, c) = true <-> satisfies_or_empty (get record field) c.
Proof.
  destruct c as [v|values]; simpl.
  - destruct v; simpl; tauto.
  - destruct values as [|x values]; simpl; tauto.
Qed.

Lemma entryPasses_spec (record : gmap string jsval) (field : string) (c : condition) :
  DataService.entryPasses record (field, c) = true <-> satisfies (get record field) c.
Proof.
  destruct c as [v|values]; simpl.
  - destruct v; simpl; tauto.
  - tauto.
Qed.

Lemma every_entry (test : string * condition -> bool) (P : string -> condition -> Prop)
    (filters : gmap string condition) :
  (forall field c, test (field, c) = true <-> P field c) ->
  forallb test (map_to_list filters) = true <-> map_Forall P filters.
Proof.
  intros Htest. rewrite forallb_forall, map_Forall_to_list, Forall_forall. split.
  - intros H [field c] Hin. apply Htest, H, list_elem_of_In, Hin.
  - intros H [field c] Hin. apply Htest. apply (H (field, c)), list_elem_of_In, Hin.
Qed.

Lemma filter_by_test {A} (test : A -> bool) (P : A -> Prop) `{!forall x, Decision (P x)}
    (l : list A) :
  (forall x, test x = true <-> P x) -> List.filter test l = filter P l.
Proof.
  intros Htest. induction l as [|x l IH]; [reflexivity|].
  simpl. rewrite filter_cons, IH.
  destruct (decide (P x)) as [Hp|Hn].
  - apply Htest in Hp. rewrite Hp. reflexivity.
  - destruct (test x) eqn:E; [|reflexivity]. apply Htest in E. contradiction.
Qed.

(** C8, as the code has it. [filterData] returns, in their order, exactly
    the records that satisfy every entry of the filter: no constraint for an
    absent ([undefined] or [null]) filter or for an empty set of values,
    equality for a single value, membership for a non-empty set of values. *)
Theorem filterData_is_the_conjunction (data : list (gmap string jsval))
    (filters : gmap string condition) :
  filterData data filters
  = filter (fun record =>
              map_Forall (fun field c => satisfies_or_empty (get record field) c) filters)
           data.
Proof.
  unfold filterData. apply filter_by_test. intros record.
  apply every_entry. intros field c. apply conditionHolds_spec.
Qed.

(** [DataService.applyFilters] is the conjunction with plain membership: an
    empty set of values matches no record there. *)
Lemma applyFilters_is_the_conjunction (data : list (gmap string jsval))
    (filters : gmap string condition) :
  DataService.applyFilters data filters
  = filter (fun record =>
              map_Forall (fun field c => satisfies (get record field) c) filters)
           data.
Proof.
  unfold DataService.applyFilters. apply filter_by_test. intros record.
  apply every_entry. intros field c. apply entryPasses_spec.
Qed.
End FilterProperties.

(** C8 as stated fails on an empty set of values: the record passes
    [filterData] although its value is no member of the set. *)
Lemma empty_value_set_is_no_constraint :
  DataProcessor.filterData [Examples.scenario_record]
    {[ "third_level_organization" := DataProcessor.Array [] ]}
  = [Examples.scenario_record]
  /\ ~ map_Forall (fun field c => Spec.satisfies (get Examples.scenario_record field) c)
         ({[ "third_level_organization" := DataProcessor.Array [] ]}
            : gmap string DataProcessor.condition)
  /\ DataService.applyFilters [Examples.scenario_record]
       {[ "third_level_organization" := DataProcessor.Array [] ]}
     = [].
Proof.
  split; [|split].
  - unfold DataProcessor.filterData. rewrite map_to_list_singleton. reflexivity.
  - rewrite map_Forall_singleton. simpl. discriminate.
  - unfold DataService.applyFilters. rewrite map_to_list_singleton. reflexivity.
Qed.

(** ** Requests that name an unknown field *)

Section UnknownFields.
Import DataProcessor Calculations Spec.
Variable Number_toString : Q -> string.
Variable Number_ofString : string -> jsval.
Variable JSON_stringify : list string -> gmap string condition -> Z -> string.

Lemma groups_push_nonempty key record groups :
  nonempty_buckets groups -> nonempty_buckets (MetricCalculator.groups_push key record groups).
Proof.
  unfold nonempty_buckets. induction groups as [|[k bucket] rest IH]; intros H; simpl.
  - apply Forall_cons. split; [discriminate | apply Forall_nil; exact I].
  - apply Forall_cons in H as [Hb Hrest].
    destruct (String.eqb k key).
    + apply Forall_cons. split; [|exact Hrest].
      simpl. destruct bucket; discriminate.
    + apply Forall_cons. split; [exact Hb | apply IH, Hrest].
Qed.

Lemma fold_push_nonempty (keyOf : gmap string jsval -> string) records groups :
  nonempty_buckets groups ->
  nonempty_buckets
    (fold_left (fun groups record => MetricCalculator.groups_push (keyOf record) record groups)
               records groups).
Proof.
  revert groups. induction records as [|record records IH]; intros groups H; simpl.
  - exact H.
  - apply IH, groups_push_nonempty, H.
Qed.

(** Grouping never throws, whatever the field names are. *)
Lemma groupByAndCalculate_total (records : list (gmap string jsval))
    (groupByFields : list string) :
  is_Some (groupByAndCalculate Number_toString Number_ofString records groupByFields).
Proof.
  unfold groupByAndCalculate. destruct (length groupByFields =? 0)%nat; [eexists; reflexivity|].
  apply mapM_is_Some.
  assert (H : nonempty_buckets (buildGroups Number_toString records groupByFields)).
  { apply fold_push_nonempty. apply Forall_nil. exact I. }
  unfold nonempty_buckets in H. eapply Forall_impl; [exact H|].
  intros [key bucket] Hne. simpl in *.
  destruct bucket as [|first bucket]; [congruence|]. eexists. reflexivity.
Qed.

Lemma aggregateByDimensions_total (data : list (gmap string jsval))
    (groupByFields : list string) :
  is_Some (MetricCalculator.aggregateByDimensions Number_toString data groupByFields).
Proof.
  unfold MetricCalculator.aggregateByDimensions.
  destruct (length data =? 0)%nat; [eexists; reflexivity|].
  destruct (length groupByFields =? 0)%nat; [eexists; reflexivity|].
  apply mapM_is_Some.
  assert (H : nonempty_buckets
                (MetricCalculator.buildGroups Number_toString data groupByFields)).
  { apply fold_push_nonempty. apply Forall_nil. exact I. }
  unfold nonempty_buckets in H. eapply Forall_impl; [exact H|].
  intros [key bucket] Hne. simpl in *.
  destruct bucket as [|first bucket]; [congruence|]. eexists. reflexivity.
Qed.

(** A record without the field reads [undefined] there. *)
Lemma get_missing (record : gmap string jsval) (field : string) :
  record !! field = None -> get record field = JUndefined.
Proof. intros H. unfold get. rewrite H. reflexivity. Qed.

Lemma conditionHolds_missing (record : gmap string jsval) (field : string) (c : condition) :
  record !! field = None -> rejects_undefined c -> conditionHolds record (field, c) = false.
Proof.
  intros Hm Hc. unfold conditionHolds. rewrite (get_missing _ _ Hm).
  destruct c as [v|values]; simpl in Hc.
  - destruct Hc as [Hu Hn]. destruct v; try reflexivity; congruence.
  - destruct Hc as [Hne Hinc]. rewrite Hinc. destruct values; [congruence|reflexivity].
Qed.

Lemma filterData_missing_field (data : list (gmap string jsval))
    (filters : gmap string condition) (field : string) (c : condition) :
  Forall (fun record => record !! field = None) data ->
  filters !! field = Some c ->
  rejects_undefined c ->
  filterData data filters = [].
Proof.
  intros Hdata Hf Hc. unfold filterData.
  induction data as [|record data IH]; [reflexivity|].
  apply Forall_cons in Hdata as [Hrec Hrest]. simpl.
  assert (Hfalse : forallb (conditionHolds record) (map_to_list filters) = false).
  { apply not_true_is_false. intros Hall. rewrite forallb_forall in Hall.
    assert (Hin : In (field, c) (map_to_list filters)).
    { apply list_elem_of_In, elem_of_map_to_list, Hf. }
    specialize (Hall _ Hin). rewrite (conditionHolds_missing _ _ _ Hrec Hc) in Hall.
    discriminate. }
  rewrite Hfalse. apply IH, Hrest.
Qed.

Lemma keyPart_missing (record : gmap string jsval) (field : string) :
  record !! field = None -> keyPart Number_toString record field = "null".
Proof. intros H. unfold keyPart. rewrite (get_missing _ _ H). reflexivity. Qed.

Lemma push_all_null (field : string) (records bucket : list (gmap string jsval)) :
  Forall (fun record => record !! field = None) records ->
  fold_left (fun groups record =>
               MetricCalculator.groups_push (groupKey Number_toString [field] record)
                                            record groups)
            records [("null", bucket)]
  = [("null", bucket ++ records)].
Proof.
  revert bucket. induction records as [|record records IH]; intros bucket H; simpl.
  - rewrite app_nil_r. reflexivity.
  - apply Forall_cons in H as [Hrec Hrest].
    unfold groupKey at 2. simpl. rewrite (keyPart_missing _ _ Hrec). simpl.
    rewrite IH by exact Hrest. rewrite <- app_assoc. reflexivity.
Qed.

Lemma groupByAndCalculate_missing_field (records : list (gmap string jsval))
    (field : string) :
  records <> [] ->
  Forall (fun record => record !! field = None) records ->
  groupByAndCalculate Number_toString Number_ofString records [field]
  = Some [calculateAnalysisResult records (<[field := JNull]> ∅)].
Proof.
  intros Hne Hall. destruct records as [|first records]; [congruence|].
  unfold groupByAndCalculate, buildGroups. simpl length. simpl Nat.eqb. cbv iota.
  apply Forall_cons in Hall as [Hfirst Hrest].
  simpl fold_left. unfold groupKey at 2. simpl List.map. simpl join.
  rewrite (keyPart_missing _ _ Hfirst). simpl MetricCalculator.groups_push.
  rewrite push_all_null by exact Hrest.
  reflexivity.
Qed.

(** C9, as the code has it. No operation checks a field name against the
    dimension fields, and no request is rejected for one: the facade always
    answers. A filter entry on a field that no record carries compares with
    [undefined], so a single value (or a non-empty set without [undefined])
    leaves no record; grouping by such a field puts every record in one group
    whose dimension value is [null]. *)
Theorem unknown_field_is_not_rejected :
  (forall db now stored dimensions filters limit,
     (forall e, InsuranceDatabase.cache db
                  !! InsuranceDatabase.getCacheKey "findAll" "{}" = Some e ->
                exists records,
                  InsuranceDatabase.data e = InsuranceDatabase.CachedRecords records) ->
     is_Some (fst (InsuranceDatabase.aggregateByDimensions
                     Number_toString Number_ofString JSON_stringify
                     db now stored dimensions filters limit)))
  /\ (forall data filters field c,
        Forall (fun record => record !! field = None) data ->
        filters !! field = Some c ->
        rejects_undefined c ->
        filterData data filters = [])
  /\ (forall records field,
        records <> [] ->
        Forall (fun record => record !! field = None) records ->
        groupByAndCalculate Number_toString Number_ofString records [field]
        = Some [calculateAnalysisResult records (<[field := JNull]> ∅)]).
Proof.
  split; [|split].
  - intros db now stored dimensions filters limit Hfind.
    assert (Hsame : forall key, snd (InsuranceDatabase.getCache db now key) = db).
    { intros key. unfold InsuranceDatabase.getCache.
      destruct (InsuranceDatabase.cache db !! key) as [e|]; [|reflexivity].
      destruct (InsuranceDatabase.isCacheValid db now _); reflexivity. }
    unfold InsuranceDatabase.aggregateByDimensions.
    pose proof (Hsame (InsuranceDatabase.getCacheKey "aggregateByDimensions"
                         (JSON_stringify dimensions filters limit))) as Hdb.
    destruct (InsuranceDatabase.getCache db now _) as [[c|] db']; [eexists; reflexivity|].
    simpl in Hdb. subst db'.
    unfold InsuranceDatabase.findAll.
    destruct (InsuranceDatabase.getCache db now (InsuranceDatabase.getCacheKey "findAll" "{}"))
      as [[c|] db'] eqn:Hget.
    + unfold InsuranceDatabase.getCache in Hget.
      destruct (InsuranceDatabase.cache db !! _) as [e|] eqn:He; [|discriminate].
      destruct (Hfind e eq_refl) as [records Hrec].
      destruct (InsuranceDatabase.isCacheValid db now _); [|discriminate].
      injection Hget as <- <-. rewrite Hrec.
      destruct (groupByAndCalculate_total (filterData records filters) dimensions)
        as [results ->].
      eexists. reflexivity.
    + destruct (groupByAndCalculate_total (filterData stored filters) dimensions)
        as [results ->].
      eexists. reflexivity.
  - apply filterData_missing_field.
  - apply groupByAndCalculate_missing_field.
Qed.
End UnknownFields.

(** ** Grouping keys *)

Section GroupingKeys.
Import MetricCalculator Spec.
Variable Number_toString : Q -> string.

Lemma append_assoc (a b c : string) : (a +:+ b) +:+ c = a +:+ (b +:+ c).
Proof.
  induction a as [|ch a IH]; [reflexivity|].
  change (String ch ((a +:+ b) +:+ c) = String ch (a +:+ (b +:+ c))).
  rewrite IH. reflexivity.
Qed.

Lemma append_empty_r (a : string) : a +:+ "" = a.
Proof.
  induction a as [|ch a IH]; [reflexivity|].
  change (String ch (a +:+ "") = String ch a). rewrite IH. reflexivity.
Qed.

Lemma join_cons (sep x : string) (rest : list string) :
  join sep (x :: rest)
  = x +:+ match rest with [] => "" | _ :: _ => sep +:+ join sep rest end.
Proof. destruct rest; simpl; [rewrite append_empty_r|]; reflexivity. Qed.

(** The key is a function of the projection. *)
Lemma keyParts_of_projection (fields : list string) (r1 r2 : gmap string jsval) :
  projection fields r1 = projection fields r2 ->
  List.map (keyPart Number_toString r1) fields = List.map (keyPart Number_toString r2) fields.
Proof.
  unfold projection. induction fields as [|field fields IH]; simpl; intros H.
  - reflexivity.
  - injection H as Hv Hrest. unfold keyPart at 1 3. rewrite Hv, (IH Hrest). reflexivity.
Qed.

Lemma groupKey_of_projection (fields : list string) (r1 r2 : gmap string jsval) :
  projection fields r1 = projection fields r2 ->
  groupKey Number_toString fields r1 = groupKey Number_toString fields r2.
Proof. intros H. unfold groupKey. rewrite (keyParts_of_projection _ _ _ H). reflexivity. Qed.

Lemma legacy_groupKey_of_projection (fields : list string) (r1 r2 : gmap string jsval) :
  projection fields r1 = projection fields r2 ->
  Calculations.groupKey Number_toString fields r1
  = Calculations.groupKey Number_toString fields r2.
Proof.
  unfold projection, Calculations.groupKey. intros H. f_equal.
  induction fields as [|field fields IH]; simpl in *; [reflexivity|].
  injection H as Hv Hrest. unfold Calculations.keyPart at 1 3.
  rewrite Hv, (IH Hrest). reflexivity.
Qed.

(** A falsy value is written as the field name followed by [:null]. *)
Lemma keyPart_falsy (record : gmap string jsval) (field : string) :
  truthy (get record field) = false ->
  keyPart Number_toString record field = field +:+ ":null".
Proof. intros H. unfold keyPart. rewrite H. reflexivity. Qed.

Lemma keyPart_string (record : gmap string jsval) (field s : string) :
  get record field = JString s -> s <> "" ->
  keyPart Number_toString record field = field +:+ ":" +:+ s.
Proof.
  intros H Hs. unfold keyPart. rewrite H. simpl.
  apply String.eqb_neq in Hs. rewrite Hs. reflexivity.
Qed.

(** The buckets of the grouping map, read by key. *)
Lemma bucket_of_push (key k : string) (record : gmap string jsval)
    (groups : list (string * list (gmap string jsval))) :
  bucket_of key (groups_push k record groups)
  = if String.eqb k key then bucket_of key groups ++ [record] else bucket_of key groups.
Proof.
  induction groups as [|[k' bucket] rest IH]; simpl.
  - destruct (String.eqb k key); reflexivity.
  - destruct (String.eqb k' k) eqn:Ek; simpl.
    + apply String.eqb_eq in Ek. subst k'.
      destruct (String.eqb k key); reflexivity.
    + destruct (String.eqb k' key) eqn:Ekey.
      * apply String.eqb_eq in Ekey. subst k'. rewrite String.eqb_sym, Ek. reflexivity.
      * exact IH.
Qed.

Lemma bucket_of_fold (keyOf : gmap string jsval -> string) (key : string)
    (data : list (gmap string jsval)) (groups : list (string * list (gmap string jsval))) :
  bucket_of key (fold_left (fun groups record => groups_push (keyOf record) record groups)
                           data groups)
  = bucket_of key groups ++ List.filter (fun record => String.eqb (keyOf record) key) data.
Proof.
  revert groups. induction data as [|record data IH]; intros groups; simpl.
  - rewrite app_nil_r. reflexivity.
  - rewrite IH, bucket_of_push.
    destruct (String.eqb (keyOf record) key); [rewrite <- app_assoc|]; reflexivity.
Qed.

Lemma keys_push (k : string) (record : gmap string jsval)
    (groups : list (string * list (gmap string jsval))) :
  List.map fst (groups_push k record groups)
  = if bool_decide (k ∈ List.map fst groups) then List.map fst groups
    else List.map fst groups ++ [k].
Proof.
  induction groups as [|[k' bucket] rest IH]; simpl.
  - reflexivity.
  - destruct (String.eqb k' k) eqn:Ek; simpl.
    + apply String.eqb_eq in Ek. subst k'.
      rewrite bool_decide_eq_true_2 by (apply elem_of_cons; left; reflexivity).
      reflexivity.
    + apply String.eqb_neq in Ek. rewrite IH.
      destruct (bool_decide (k ∈ List.map fst rest)) eqn:Ein.
      * apply bool_decide_eq_true_1 in Ein.
        rewrite bool_decide_eq_true_2 by (apply elem_of_cons; right; exact Ein).
        reflexivity.
      * apply bool_decide_eq_false_1 in Ein.
        rewrite bool_decide_eq_false_2; [reflexivity|].
        intros [E|Hin]%elem_of_cons; [congruence | contradiction].
Qed.

Lemma keys_push_NoDup (k : string) (record : gmap string jsval)
    (groups : list (string * list (gmap string jsval))) :
  NoDup (List.map fst groups) -> NoDup (List.map fst (groups_push k record groups)).
Proof.
  intros H. rewrite keys_push.
  destruct (bool_decide (k ∈ List.map fst groups)) eqn:E; [exact H|].
  apply bool_decide_eq_false_1 in E.
  apply NoDup_app. split; [exact H|]. split.
  - intros x Hx [->|Hnil]%elem_of_cons; [contradiction | inversion Hnil].
  - apply NoDup_singleton.
Qed.

Lemma keys_fold_NoDup (keyOf : gmap string jsval -> string)
    (data : list (gmap string jsval)) (groups : list (string * list (gmap string jsval))) :
  NoDup (List.map fst groups) ->
  NoDup (List.map fst
           (fold_left (fun groups record => groups_push (keyOf record) record groups)
                      data groups)).
Proof.
  revert groups. induction data as [|record data IH]; intros groups H; simpl.
  - exact H.
  - apply IH, keys_push_NoDup, H.
Qed.

Lemma bucket_of_elem (key : string) (bucket : list (gmap string jsval))
    (groups : list (string * list (gmap string jsval))) :
  NoDup (List.map fst groups) -> (key, bucket) ∈ groups -> bucket_of key groups = bucket.
Proof.
  induction groups as [|[k b] rest IH]; simpl; intros Hnd Hin.
  - inversion Hin.
  - apply NoDup_cons in Hnd as [Hk Hrest].
    apply elem_of_cons in Hin as [E|Hin].
    + injection E as <- <-. rewrite String.eqb_refl. reflexivity.
    + destruct (String.eqb k key) eqn:Ek.
      * apply String.eqb_eq in Ek. subst k. exfalso. apply Hk.
        apply list_elem_of_fmap. exists (key, bucket). split; [reflexivity | exact Hin].
      * apply IH; assumption.
Qed.

Lemma elem_of_bucket (key : string) (groups : list (string * list (gmap string jsval))) :
  bucket_of key groups <> [] -> (key, bucket_of key groups) ∈ groups.
Proof.
  induction groups as [|[k b] rest IH]; simpl; intros H.
  - congruence.
  - destruct (String.eqb k key) eqn:Ek.
    + apply String.eqb_eq in Ek. subst k. apply elem_of_cons. left. reflexivity.
    + apply elem_of_cons. right. apply IH, H.
Qed.

(** The bucket under a key holds the records of the input with that key. *)
Lemma bucket_of_buildGroups (fields : list string) (key : string)
    (data : list (gmap string jsval)) :
  bucket_of key (buildGroups Number_toString data fields)
  = List.filter (fun record => String.eqb (groupKey Number_toString fields record) key) data.
Proof. unfold buildGroups. rewrite bucket_of_fold. reflexivity. Qed.

Lemma share_group_iff (fields : list string) (data : list (gmap string jsval))
    (r1 r2 : gmap string jsval) :
  r1 ∈ data -> r2 ∈ data ->
  share_group (buildGroups Number_toString data fields) r1 r2
  <-> groupKey Number_toString fields r1 = groupKey Number_toString fields r2.
Proof.
  intros H1 H2.
  assert (Hnd : NoDup (List.map fst (buildGroups Number_toString data fields))).
  { apply keys_fold_NoDup. apply NoDup_nil. exact I. }
  split.
  - intros (key & bucket & Hin & Hb1 & Hb2).
    rewrite <- (bucket_of_elem _ _ _ Hnd Hin), bucket_of_buildGroups in Hb1, Hb2.
    apply list_elem_of_In, filter_In in Hb1 as [_ E1].
    apply list_elem_of_In, filter_In in Hb2 as [_ E2].
    apply String.eqb_eq in E1, E2. congruence.
  - intros E. exists (groupKey Number_toString fields r1).
    exists (bucket_of (groupKey Number_toString fields r1)
                      (buildGroups Number_toString data fields)).
    assert (Hb1 : r1 ∈ bucket_of (groupKey Number_toString fields r1)
                                 (buildGroups Number_toString data fields)).
    { rewrite bucket_of_buildGroups. apply list_elem_of_In, filter_In.
      split; [apply list_elem_of_In, H1 | apply String.eqb_refl]. }
    split; [|split].
    + apply elem_of_bucket. intros Hnil. rewrite Hnil in Hb1. inversion Hb1.
    + exact Hb1.
    + rewrite bucket_of_buildGroups. apply list_elem_of_In, filter_In.
      split; [apply list_elem_of_In, H2 | apply String.eqb_eq; congruence].
Qed.

(** With the first field falsy in one record and ["x"] in the other, the
    keys differ, whatever the other fields are. *)
Lemma groupKey_null_versus_x (field : string) (rest : list string)
    (r1 r2 : gmap string jsval) :
  truthy (get r1 field) = false ->
  get r2 field = JString "x" ->
  groupKey Number_toString (field :: rest) r1 <> groupKey Number_toString (field :: rest) r2.
Proof.
  intros H1 H2 E. unfold groupKey in E. simpl List.map in E.
  rewrite !join_cons in E.
  rewrite (keyPart_falsy _ _ H1) in E.
  rewrite (keyPart_string _ _ "x" H2) in E by discriminate.
  rewrite !append_assoc in E. apply String.app_inj in E.
  cbv [String.append] in E. discriminate E.
Qed.

End GroupingKeys.



(** A request on the fresh database, grouping by a field that is no field of
    the records, is answered. *)
Lemma unknown_field_is_not_rejected_witness :
  is_Some (fst (InsuranceDatabase.aggregateByDimensions
                  decimal1_toString Examples.Number_ofString Examples.stringify_query
                  InsuranceDatabase.new 0 [Examples.scenario_record]
                  ["no_such_field"] ∅ 1000)).
Proof.
  apply (proj1 (unknown_field_is_not_rejected
                  decimal1_toString Examples.Number_ofString Examples.stringify_query)).
  intros e H. vm_compute in H. discriminate H.
Defined.

(** C9 as stated fails: grouping by [no_such_field] is answered with one
    group that holds the record, its dimension value [null], and a filter on
    [no_such_field] returns the empty list; neither is a failure. *)
Lemma unknown_field_is_answered :
  (exists result db,
     InsuranceDatabase.aggregateByDimensions
       decimal1_toString Examples.Number_ofString Examples.stringify_query
       InsuranceDatabase.new 0 [Examples.scenario_record] ["no_such_field"] ∅ 1000
     = (Some (InsuranceDatabase.CachedAnalysis [result]), db)
     /\ Calculations.record_count result = 1%nat
     /\ Calculations.dimensions result !! "no_such_field" = Some JNull)
  /\ ~ "no_such_field" ∈ Spec.dimension_fields
  /\ DataProcessor.filterData [Examples.scenario_record]
       {[ "no_such_field" := DataProcessor.Scalar (JString "A") ]}
     = [].
Proof.
  split; [|split].
  - eexists. eexists. split; [vm_compute; reflexivity|]. split; reflexivity.
  - intros H. apply list_elem_of_In in H. simpl in H.
    repeat (destruct H as [H|H]; [discriminate H|]). exact H.
  - unfold DataProcessor.filterData. rewrite map_to_list_singleton. reflexivity.
Qed.

(** ** The memory cache *)

Section CacheProperties.
Import MemoryCache CacheSpec.
Variable Value : Type.
Variable JSON_stringify : Value -> string.
Variable JSON_parse : string -> Value.

Implicit Types (m : list (string * CacheEntry Value)) (e : CacheEntry Value).
Implicit Types (c : MemoryCache.MemoryCache Value) (cfg : CacheConfig).

Lemma Map_get_set_same key e m : Map_get key (Map_set key e m) = Some e.
Proof.
  induction m as [|[k old] rest IH]; simpl.
  - rewrite String.eqb_refl. reflexivity.
  - destruct (String.eqb k key) eqn:E; simpl; rewrite E; [reflexivity | exact IH].
Qed.

Lemma Map_get_None key m : key ∉ List.map fst m -> Map_get key m = None.
Proof.
  induction m as [|[k old] rest IH]; simpl; intros H; [reflexivity|].
  destruct (String.eqb k key) eqn:E.
  - apply String.eqb_eq in E. subst k. exfalso. apply H, elem_of_cons. left. reflexivity.
  - apply IH. intros Hin. apply H, elem_of_cons. right. exact Hin.
Qed.

Lemma Map_get_elem key e m : Map_get key m = Some e -> (key, e) ∈ m.
Proof.
  induction m as [|[k old] rest IH]; simpl; intros H; [discriminate|].
  destruct (String.eqb k key) eqn:E.
  - apply String.eqb_eq in E. injection H as <-. subst k. apply elem_of_cons. left. reflexivity.
  - apply elem_of_cons. right. apply IH, H.
Qed.

Lemma Map_set_fresh key e m : key ∉ List.map fst m -> Map_set key e m = m ++ [(key, e)].
Proof.
  induction m as [|[k old] rest IH]; simpl; intros H; [reflexivity|].
  destruct (String.eqb k key) eqn:E.
  - apply String.eqb_eq in E. subst k. exfalso. apply H, elem_of_cons. left. reflexivity.
  - rewrite IH; [reflexivity|]. intros Hin. apply H, elem_of_cons. right. exact Hin.
Qed.

Lemma sumSizes_app m1 m2 : sumSizes (m1 ++ m2) = (sumSizes m1 + sumSizes m2)%Z.
Proof. induction m1 as [|p rest IH]; simpl; [reflexivity | rewrite IH; lia]. Qed.

(** Writing on a key that is there replaces its entry: the sum of the
    recorded sizes loses the old size and gains the new one. *)
Lemma sumSizes_Map_set key e m :
  sumSizes (Map_set key e m)
  = (sumSizes m + size e
     - match Map_get key m with Some old => size old | None => 0 end)%Z.
Proof.
  induction m as [|[k old] rest IH]; simpl; [lia|].
  destruct (String.eqb k key); simpl; [lia | rewrite IH; lia].
Qed.

Lemma sumSizes_Map_delete key m :
  sumSizes (Map_delete key m)
  = (sumSizes m - match Map_get key m with Some old => size old | None => 0 end)%Z.
Proof.
  induction m as [|[k old] rest IH]; simpl; [lia|].
  destruct (String.eqb k key); simpl; [lia | rewrite IH; lia].
Qed.

Lemma length_Map_delete key e m :
  Map_get key m = Some e -> S (length (Map_delete key m)) = length m.
Proof.
  induction m as [|[k old] rest IH]; simpl; intros H; [discriminate|].
  destruct (String.eqb k key); simpl; [reflexivity | rewrite IH; [reflexivity | exact H]].
Qed.

Lemma keys_Map_delete key m k : k ∈ List.map fst (Map_delete key m) -> k ∈ List.map fst m.
Proof.
  induction m as [|[k' old] rest IH]; simpl; intros H; [exact H|].
  destruct (String.eqb k' key); simpl in *.
  - apply elem_of_cons. right. exact H.
  - apply elem_of_cons in H as [->|H]; apply elem_of_cons; [left; reflexivity | right; apply IH, H].
Qed.

Lemma Map_get_delete key m :
  NoDup (List.map fst m) -> Map_get key (Map_delete key m) = None.
Proof.
  induction m as [|[k old] rest IH]; simpl; intros H; [reflexivity|].
  apply NoDup_cons in H as [Hk Hrest].
  destruct (String.eqb k key) eqn:E; simpl.
  - apply String.eqb_eq in E. subst k. apply Map_get_None, Hk.
  - rewrite E. apply IH, Hrest.
Qed.

Lemma cleanup_config c now : config (cleanup c now) = config c.
Proof.
  unfold cleanup. generalize (cache c) at 1. intros l. revert c.
  induction l as [|[k e] rest IH]; intros c; simpl; [reflexivity|].
  rewrite IH. destruct (expired (config c) now e); reflexivity.
Qed.

Lemma makeSpace_config c now req : config (makeSpace c now req) = config c.
Proof.
  unfold makeSpace. destruct (evictOldest _ _ _ _). simpl. apply cleanup_config.
Qed.

(** *** [get] *)

(** A key that holds an entry that has not expired: [get] returns the stored
    value and leaves the cache as it is. *)
Lemma get_fresh c now prefix params e :
  Map_get (generateKey JSON_stringify prefix params) (cache c) = Some e ->
  expired (config c) now e = false ->
  get JSON_stringify JSON_parse c now prefix params
  = (Some (match data e with
           | Compressed text => JSON_parse text
           | Plain d => d
           end), c).
Proof. intros Hget Hexp. unfold get. rewrite Hget, Hexp. reflexivity. Qed.

(** A key that holds an expired entry: [get] returns [null], the entry is
    deleted, the entry count goes down by one and the running total loses
    the size of the entry. *)
Lemma get_expired c now prefix params e :
  Map_get (generateKey JSON_stringify prefix params) (cache c) = Some e ->
  expired (config c) now e = true ->
  let '(result, c') := get JSON_stringify JSON_parse c now prefix params in
  result = None
  /\ cache c' = Map_delete (generateKey JSON_stringify prefix params) (cache c)
  /\ S (stats_size (getStats c')) = stats_size (getStats c)
  /\ totalSize c' = (totalSize c - size e)%Z
  /\ (NoDup (List.map fst (cache c)) ->
      Map_get (generateKey JSON_stringify prefix params) (cache c') = None).
Proof.
  intros Hget Hexp. unfold get. rewrite Hget, Hexp. simpl.
  split; [reflexivity|]. split; [reflexivity|].
  split; [apply (length_Map_delete _ e), Hget|]. split; [reflexivity|].
  apply Map_get_delete.
Qed.

(** [set] and then [get] on the same key before the TTL has passed gives
    the value back; with compression on, this is the round trip through
    JSON. *)
Lemma set_then_get c t1 t2 now prefix params d :
  (enableCompression (config c) = true -> JSON_parse (JSON_stringify d) = d) ->
  (now - t2 <= ttl (config c))%Z ->
  fst (get JSON_stringify JSON_parse (set JSON_stringify c t1 t2 prefix params d)
           now prefix params)
  = Some d.
Proof.
  intros Hjson Hnow.
  unfold get, set. cbn [cache config]. rewrite Map_get_set_same.
  cbn [data timestamp size]. unfold expired. cbn [timestamp]. rewrite !makeSpace_config.
  assert (Hfresh : (now - t2 >? ttl (config c))%Z = false) by lia.
  rewrite Hfresh. cbn [fst].
  destruct (enableCompression (config c)) eqn:Ecomp; [|reflexivity].
  unfold compress, decompress. rewrite Hjson; reflexivity.
Qed.

(** *** [cleanup] and [makeSpace] *)

Lemma cleanup_nothing_expired c now :
  Forall (fun p => expired (config c) now (snd p) = false) (cache c) ->
  cleanup c now = c.
Proof.
  unfold cleanup. generalize (cache c) at 1 2. intros l H.
  induction l as [|[k e] rest IH]; simpl; [reflexivity|].
  apply Forall_cons in H as [He Hrest]. simpl in He. rewrite He. apply IH, Hrest.
Qed.

(** The loop of [makeSpace] drops a prefix of the entries, oldest first,
    and stops on the empty map or when both bounds leave room for the write. *)
Lemma evictOldest_spec maxS req m total :
  Forall (fun p => fst p <> "") m ->
  exists j,
    (j <= length m)%nat
    /\ fst (evictOldest maxS req m total) = drop j m
    /\ snd (evictOldest maxS req m total) = (total - sumSizes (take j m))%Z
    /\ (drop j m = []
        \/ ((Z.of_nat (length (drop j m)) < maxS)%Z
            /\ (total - sumSizes (take j m) + req <= maxS * 1024 * 1024)%Z)).
Proof.
  revert total. induction m as [|[k e] rest IH]; intros total Hkeys.
  - exists 0%nat. simpl. split; [lia|]. split; [reflexivity|]. split; [lia|]. left. reflexivity.
  - apply Forall_cons in Hkeys as [Hk Hrest]. simpl in Hk.
    cbn [evictOldest].
    destruct ((Z.of_nat (length ((k, e) :: rest)) >=? maxS)%Z
              || (total + req >? maxS * 1024 * 1024)%Z) eqn:Econd.
    + apply String.eqb_neq in Hk. rewrite Hk.
      destruct (IH (total - size e)%Z Hrest) as (j & Hj & Hfst & Hsnd & Hstop).
      exists (S j). simpl. split; [lia|]. split; [exact Hfst|].
      split; [rewrite Hsnd; lia|].
      destruct Hstop as [Hnil | [Hlen Hbytes]]; [left; exact Hnil | right; split; [exact Hlen | lia]].
    + exists 0%nat. cbn [drop take sumSizes fold_right fst snd].
      split; [lia|]. split; [reflexivity|]. split; [lia|]. right.
      apply orb_false_iff in Econd as [E1 E2]. split; lia.
Qed.

Lemma makeSpace_nothing_expired c now req :
  Forall (fun p => expired (config c) now (snd p) = false) (cache c) ->
  Forall (fun p => fst p <> "") (cache c) ->
  exists j,
    (j <= length (cache c))%nat
    /\ cache (makeSpace c now req) = drop j (cache c)
    /\ totalSize (makeSpace c now req) = (totalSize c - sumSizes (take j (cache c)))%Z
    /\ config (makeSpace c now req) = config c
    /\ (drop j (cache c) = []
        \/ ((Z.of_nat (length (drop j (cache c))) < maxSize (config c))%Z
            /\ (totalSize (makeSpace c now req) + req <= byte_bound (config c))%Z)).
Proof.
  intros Hexp Hkeys. unfold makeSpace. rewrite (cleanup_nothing_expired _ _ Hexp).
  destruct (evictOldest_spec (maxSize (config c)) req (cache c) (totalSize c) Hkeys)
    as (j & Hj & Hfst & Hsnd & Hstop).
  exists j. destruct (evictOldest _ _ _ _) as [entries total]. simpl in *.
  subst entries total. unfold byte_bound. repeat split; try assumption; try reflexivity.
Qed.
End CacheProperties.

(** *** Runs of writes *)

Section CacheWrites.
Import MemoryCache CacheSpec.
Variable Value : Type.
Variable JSON_stringify : Value -> string.

Implicit Types (m : list (string * CacheEntry Value)) (e : CacheEntry Value).
Implicit Types (c : MemoryCache.MemoryCache Value) (cfg : CacheConfig).
Implicit Types (w : write Value) (ws : list (write Value)).

Lemma generateKey_nonempty prefix (params : Value) :
  generateKey JSON_stringify prefix params <> "".
Proof. unfold generateKey. destruct prefix; cbv [String.append]; discriminate. Qed.

Lemma sound_new cfg : sound (new (Value := Value) cfg).
Proof.
  unfold sound, new. simpl. split; [reflexivity|]. split; [apply NoDup_nil; exact I|].
  apply Forall_nil. exact I.
Qed.

(** A write on a key that is not in the cache, when no entry has expired:
    a prefix of the entries is dropped, the new entry goes last, and the
    bookkeeping stays sound. *)
Lemma apply_write_fresh c w :
  sound c ->
  (1 <= maxSize (config c))%Z ->
  Forall (fun p => (at_cleanup w - timestamp (snd p) <= ttl (config c))%Z) (cache c) ->
  write_key JSON_stringify w ∉ List.map fst (cache c) ->
  exists j,
    (j <= length (cache c))%nat
    /\ cache (apply_write JSON_stringify c w)
       = drop j (cache c) ++ [written_entry JSON_stringify (config c) w]
    /\ config (apply_write JSON_stringify c w) = config c
    /\ sound (apply_write JSON_stringify c w)
    /\ (Z.of_nat (length (cache (apply_write JSON_stringify c w))) <= maxSize (config c))%Z
    /\ (length (cache (apply_write JSON_stringify c w)) = 1%nat
        \/ (totalSize (apply_write JSON_stringify c w) <= byte_bound (config c))%Z).
Proof.
  intros (Htotal & Hnodup & Hkeys) Hmax Hfresh Hnew.
  assert (Hexp : Forall (fun p => expired (config c) (at_cleanup w) (snd p) = false) (cache c)).
  { eapply Forall_impl; [exact Hfresh|]. intros p Hp. simpl in Hp. unfold expired.
    rewrite Z.gtb_ltb. apply Z.ltb_ge. exact Hp. }
  destruct (makeSpace_nothing_expired Value c (at_cleanup w)
              (calculateSize JSON_stringify (value w)) Hexp Hkeys)
    as (j & Hj & Hcache & Htot & Hcfg & Hstop).
  assert (Hsub : forall k, k ∈ List.map fst (drop j (cache c)) -> k ∈ List.map fst (cache c)).
  { intros k Hk. apply list_elem_of_fmap in Hk as (p & -> & Hp).
    apply list_elem_of_fmap. exists p. split; [reflexivity|].
    eapply elem_of_sublist; [exact Hp | apply sublist_drop]. }
  assert (Hset : cache (apply_write JSON_stringify c w)
                 = drop j (cache c) ++ [written_entry JSON_stringify (config c) w]).
  { unfold apply_write, set. cbn [cache]. rewrite Hcfg, Hcache.
    rewrite Map_set_fresh; [reflexivity|]. intros Hin. apply Hnew, Hsub, Hin. }
  assert (Hsum : sumSizes (cache c)
                 = (sumSizes (take j (cache c)) + sumSizes (drop j (cache c)))%Z).
  { rewrite <- sumSizes_app, take_drop. reflexivity. }
  assert (Htotal' : totalSize (apply_write JSON_stringify c w)
                    = (sumSizes (drop j (cache c))
                       + calculateSize JSON_stringify (value w))%Z).
  { unfold apply_write, set. cbn [totalSize]. rewrite Htot, Htotal, Hsum. lia. }
  exists j. split; [exact Hj|]. split; [exact Hset|].
  split; [unfold apply_write, set; cbn [config]; exact Hcfg|].
  split; [|split].
  - unfold sound. rewrite Hset. split; [|split].
    + rewrite Htotal', sumSizes_app. simpl. lia.
    + rewrite map_app. apply NoDup_app. split; [|split].
      * eapply sublist_NoDup; [exact Hnodup|]. apply fmap_sublist, sublist_drop.
      * intros k Hk [->|Hnil]%elem_of_cons; [apply Hnew, Hsub, Hk | inversion Hnil].
      * apply NoDup_singleton.
    + apply Forall_app. split; [apply Forall_drop, Hkeys|].
      apply Forall_cons. split; [apply generateKey_nonempty | apply Forall_nil; exact I].
  - rewrite Hset, length_app. simpl.
    destruct Hstop as [Hnil | [Hlen _]]; [rewrite Hnil; simpl; lia | lia].
  - rewrite Hset, length_app. simpl.
    destruct Hstop as [Hnil | [_ Hbytes]]; [left; rewrite Hnil; reflexivity|].
    right. unfold apply_write, set. cbn [totalSize]. exact Hbytes.
Qed.

Lemma write_all_fresh ws : forall c,
  sound c ->
  (1 <= maxSize (config c))%Z ->
  NoDup (List.map (write_key JSON_stringify) ws) ->
  Forall (fun w => write_key JSON_stringify w ∉ List.map fst (cache c)) ws ->
  no_expiry (config c) ws ->
  outlives (config c) (cache c) ws ->
  exists j,
    cache (write_all JSON_stringify c ws)
    = drop j (cache c ++ List.map (written_entry JSON_stringify (config c)) ws)
    /\ config (write_all JSON_stringify c ws) = config c
    /\ sound (write_all JSON_stringify c ws)
    /\ (ws <> [] ->
        (Z.of_nat (length (cache (write_all JSON_stringify c ws))) <= maxSize (config c))%Z
        /\ (length (cache (write_all JSON_stringify c ws)) = 1%nat
            \/ (totalSize (write_all JSON_stringify c ws) <= byte_bound (config c))%Z)).
Proof.
  induction ws as [|w rest IH]; intros c Hsound Hmax Hnodup Hnew Hnoexp Hout.
  - exists 0%nat. simpl. rewrite app_nil_r.
    split; [reflexivity|]. split; [reflexivity|]. split; [exact Hsound|]. congruence.
  - simpl in Hnodup. apply NoDup_cons in Hnodup as [Hw Hrest].
    apply Forall_cons in Hnew as [Hnew_w Hnew_rest].
    inversion Hnoexp as [|w' rest' Hafter Hnoexp_rest]; subst w' rest'.
    assert (Hnow : Forall (fun p => (at_cleanup w - timestamp (snd p) <= ttl (config c))%Z)
                          (cache c)).
    { eapply Forall_impl; [exact Hout|]. intros p Hp.
      apply Forall_cons in Hp as [Hp _]. exact Hp. }
    destruct (apply_write_fresh c w Hsound Hmax Hnow Hnew_w)
      as (j & Hj & Hcache & Hcfg & Hsound1 & Hlen1 & Hbytes1).
    set (c1 := apply_write JSON_stringify c w) in *.
    assert (Hsub : forall p, p ∈ drop j (cache c) -> p ∈ cache c).
    { intros p Hp. eapply elem_of_sublist; [exact Hp | apply sublist_drop]. }
    destruct (IH c1) as (j' & Hcache' & Hcfg' & Hsound' & Hlast).
    + exact Hsound1.
    + rewrite Hcfg. exact Hmax.
    + exact Hrest.
    + rewrite Forall_forall in Hnew_rest. apply Forall_forall. intros w' Hw'.
      rewrite Hcache, map_app. intros [Hin|Hin]%elem_of_app.
      * apply (Hnew_rest w' Hw').
        apply list_elem_of_fmap in Hin as (p & -> & Hp).
        apply list_elem_of_fmap. exists p. split; [reflexivity | apply Hsub, Hp].
      * simpl in Hin. apply elem_of_cons in Hin as [E|Hnil]; [|inversion Hnil].
        apply Hw. rewrite <- E. apply list_elem_of_fmap. exists w'. split; [reflexivity | exact Hw'].
    + rewrite Hcfg. exact Hnoexp_rest.
    + unfold outlives. rewrite Hcfg, Hcache. apply Forall_app. split.
      * apply Forall_forall. intros p Hp.
        unfold outlives in Hout. rewrite Forall_forall in Hout.
        specialize (Hout p (Hsub p Hp)). apply Forall_cons in Hout as [_ Hout]. exact Hout.
      * apply Forall_cons. split; [|apply Forall_nil; exact I]. simpl.
        apply List.Forall_forall. intros w' Hw'.
        rewrite List.Forall_forall in Hafter. apply Hafter, Hw'.
    + exists (j + j')%nat. change (write_all JSON_stringify c (w :: rest))
        with (write_all JSON_stringify c1 rest).
      split; [|split; [|split]].
      * rewrite Hcache', Hcache, Hcfg. simpl List.map.
        rewrite <- drop_drop. rewrite (drop_app_le (cache c)) by exact Hj.
        rewrite <- app_assoc. reflexivity.
      * rewrite Hcfg', Hcfg. reflexivity.
      * exact Hsound'.
      * intros _. destruct rest as [|w2 rest].
        -- simpl. rewrite <- Hcfg at 1 2. split; [rewrite Hcfg; exact Hlen1|].
           rewrite Hcfg. exact Hbytes1.
        -- rewrite Hcfg in Hlast. apply Hlast. discriminate.
Qed.


(** [set] adds the new size to the running total, whether or not the key
    was there: on a key that has survived [makeSpace] the total ends above the
    sum of the recorded sizes by the size of the replaced entry. *)
Lemma set_on_present_key c t1 t2 prefix (params d : Value) old :
  let c' := makeSpace c t1 (calculateSize JSON_stringify d) in
  totalSize c' = sumSizes (cache c') ->
  Map_get (generateKey JSON_stringify prefix params) (cache c') = Some old ->
  totalSize (set JSON_stringify c t1 t2 prefix params d)
  = (sumSizes (cache (set JSON_stringify c t1 t2 prefix params d)) + size old)%Z.
Proof.
  intros c' Htotal Hold. unfold set. fold c'. cbn [totalSize cache].
  rewrite sumSizes_Map_set, Hold, Htotal. cbn [size]. lia.
Qed.
End CacheWrites.



(** *** Soundness of the bookkeeping, with expiry *)

Section CacheSoundness.
Import MemoryCache CacheSpec.
Variable Value : Type.
Variable JSON_stringify : Value -> string.
Variable JSON_parse : string -> Value.

Implicit Types (m : list (string * CacheEntry Value)) (e : CacheEntry Value).
Implicit Types (c : MemoryCache.MemoryCache Value) (cfg : CacheConfig).

Lemma Map_delete_after_fresh key e kept rest :
  key ∉ List.map fst kept ->
  Map_delete key (kept ++ (key, e) :: rest) = kept ++ rest.
Proof.
  induction kept as [|[k old] kept IH]; simpl; intros H.
  - rewrite String.eqb_refl. reflexivity.
  - destruct (String.eqb k key) eqn:E.
    + apply String.eqb_eq in E. subst k. exfalso. apply H, elem_of_cons. left. reflexivity.
    + rewrite IH; [reflexivity|]. intros Hin. apply H, elem_of_cons. right. exact Hin.
Qed.

Lemma cleanup_pass now l : forall kept c,
  cache c = kept ++ l ->
  NoDup (List.map fst (kept ++ l)) ->
  let c' :=
    fold_left
      (fun c '(key, entry) =>
         if expired (config c) now entry
         then {| cache := Map_delete key (cache c);
                 config := config c;
                 totalSize := totalSize c - size entry |}
         else c)
      l c in
  cache c' = kept ++ List.filter (fun p => negb (expired (config c) now (snd p))) l
  /\ totalSize c'
     = (totalSize c - sumSizes (List.filter (fun p => expired (config c) now (snd p)) l))%Z
  /\ config c' = config c.
Proof.
  induction l as [|[k e] rest IH]; intros kept c Hcache Hnodup; simpl.
  - split; [rewrite Hcache; reflexivity|]. split; [lia | reflexivity].
  - destruct (expired (config c) now e) eqn:Hexp; simpl.
    + assert (Hk : k ∉ List.map fst kept).
      { rewrite map_app in Hnodup. apply NoDup_app in Hnodup as (_ & Hdisj & _).
        intros Hin. apply (Hdisj k Hin). simpl. apply elem_of_cons. left. reflexivity. }
      destruct (IH kept {| cache := Map_delete k (cache c); config := config c;
                           totalSize := totalSize c - size e |})
        as (H1 & H2 & H3).
      * simpl. rewrite Hcache. apply Map_delete_after_fresh, Hk.
      * rewrite map_app in *. simpl in Hnodup.
        apply NoDup_app in Hnodup as (Hkept & Hdisj & Hrest).
        apply NoDup_cons in Hrest as [_ Hrest].
        apply NoDup_app. split; [exact Hkept|]. split; [|exact Hrest].
        intros x Hx Hin. apply (Hdisj x Hx). apply elem_of_cons. right. exact Hin.
      * simpl in H1, H2, H3. split; [exact H1|]. split; [rewrite H2; lia | exact H3].
    + destruct (IH (kept ++ [(k, e)]) c) as (H1 & H2 & H3).
      * rewrite Hcache, <- app_assoc. reflexivity.
      * rewrite <- app_assoc. exact Hnodup.
      * split; [rewrite H1, <- app_assoc; reflexivity|]. split; [exact H2 | exact H3].
Qed.

(** [cleanup] purges exactly the expired entries and takes their sizes off
    the running total. *)
Lemma cleanup_purges_expired c now :
  NoDup (List.map fst (cache c)) ->
  cache (cleanup c now)
  = List.filter (fun p => negb (expired (config c) now (snd p))) (cache c)
  /\ totalSize (cleanup c now)
     = (totalSize c
        - sumSizes (List.filter (fun p => expired (config c) now (snd p)) (cache c)))%Z.
Proof.
  intros Hnodup. unfold cleanup.
  destruct (cleanup_pass now (cache c) [] c eq_refl Hnodup) as (H1 & H2 & _).
  split; [exact H1 | exact H2].
Qed.

Lemma sumSizes_partition (test : string * CacheEntry Value -> bool) m :
  sumSizes m
  = (sumSizes (List.filter test m) + sumSizes (List.filter (fun p => negb (test p)) m))%Z.
Proof.
  induction m as [|p rest IH]; simpl; [reflexivity|].
  destruct (test p); simpl; rewrite IH; lia.
Qed.

Lemma filter_sublist (test : string * CacheEntry Value -> bool) m :
  List.filter test m `sublist_of` m.
Proof.
  induction m as [|p rest IH]; simpl; [constructor|].
  destruct (test p); [apply sublist_skip | apply sublist_cons]; exact IH.
Qed.

Lemma sound_sublist m m' :
  m' `sublist_of` m ->
  NoDup (List.map fst m) -> Forall (fun p => fst p <> "") m ->
  NoDup (List.map fst m') /\ Forall (fun p => fst p <> "") m'.
Proof.
  intros Hsub Hnodup Hkeys. split.
  - eapply sublist_NoDup; [exact Hnodup | apply fmap_sublist, Hsub].
  - apply Forall_forall. intros p Hp. rewrite Forall_forall in Hkeys.
    apply Hkeys. eapply elem_of_sublist; [exact Hp | exact Hsub].
Qed.

Lemma cleanup_sound c now : sound c -> sound (cleanup c now).
Proof.
  intros (Htotal & Hnodup & Hkeys).
  destruct (cleanup_purges_expired c now Hnodup) as (Hcache & Htot).
  unfold sound. rewrite Hcache, Htot, Htotal.
  split.
  - rewrite (sumSizes_partition (fun p => expired (config c) now (snd p)) (cache c)). lia.
  - apply (sound_sublist (cache c)); [apply filter_sublist | exact Hnodup | exact Hkeys].
Qed.

(** The eviction loop drops a prefix and takes its sizes off the total. *)
Lemma evictOldest_drops maxS req m total :
  exists j,
    fst (evictOldest maxS req m total) = drop j m
    /\ snd (evictOldest maxS req m total) = (total - sumSizes (take j m))%Z.
Proof.
  revert total. induction m as [|[k e] rest IH]; intros total.
  - exists 0%nat. simpl. split; [reflexivity | lia].
  - cbn [evictOldest].
    destruct ((Z.of_nat (length ((k, e) :: rest)) >=? maxS)%Z
              || (total + req >? maxS * 1024 * 1024)%Z).
    + destruct (String.eqb k "").
      * exists 0%nat. simpl. split; [reflexivity | lia].
      * destruct (IH (total - size e)%Z) as (j & Hfst & Hsnd).
        exists (S j). simpl. split; [exact Hfst | rewrite Hsnd; lia].
    + exists 0%nat. simpl. split; [reflexivity | lia].
Qed.

Lemma makeSpace_sound c now req : sound c -> sound (makeSpace c now req).
Proof.
  intros Hsound. apply (cleanup_sound c now) in Hsound as (Htotal & Hnodup & Hkeys).
  unfold makeSpace.
  destruct (evictOldest_drops (maxSize (config (cleanup c now))) req
              (cache (cleanup c now)) (totalSize (cleanup c now)))
    as (j & Hfst & Hsnd).
  destruct (evictOldest _ _ _ _) as [entries total]. simpl in Hfst, Hsnd. subst entries total.
  unfold sound. simpl. split.
  - rewrite Htotal. rewrite <- (take_drop j (cache (cleanup c now))) at 1.
    rewrite sumSizes_app. lia.
  - apply (sound_sublist (cache (cleanup c now)));
      [apply sublist_drop | exact Hnodup | exact Hkeys].
Qed.

(** A write on a key that [makeSpace] does not leave in the map keeps the
    bookkeeping sound. *)
Lemma set_absent_key_sound c t1 t2 prefix (params d : Value) :
  sound c ->
  generateKey JSON_stringify prefix params
    ∉ List.map fst (cache (makeSpace c t1 (calculateSize JSON_stringify d))) ->
  sound (set JSON_stringify c t1 t2 prefix params d).
Proof.
  intros Hsound Habsent.
  apply (makeSpace_sound c t1 (calculateSize JSON_stringify d)) in Hsound
    as (Htotal & Hnodup & Hkeys).
  unfold sound, set. cbn [cache totalSize].
  rewrite (Map_set_fresh _ _ _ _ Habsent). split; [|split].
  - rewrite Htotal, sumSizes_app. simpl. lia.
  - rewrite map_app. apply NoDup_app. split; [exact Hnodup|]. split.
    + intros k Hk [->|Hnil]%elem_of_cons; [exact (Habsent Hk) | inversion Hnil].
    + apply NoDup_singleton.
  - apply Forall_app. split; [exact Hkeys|].
    apply Forall_cons. split; [apply generateKey_nonempty | apply Forall_nil; exact I].
Qed.

Lemma get_sound c now prefix (params : Value) :
  sound c -> sound (snd (get JSON_stringify JSON_parse c now prefix params)).
Proof.
  intros (Htotal & Hnodup & Hkeys). unfold get.
  destruct (Map_get _ (cache c)) as [e|] eqn:Hget; [|repeat split; assumption].
  destruct (expired (config c) now e); [|repeat split; assumption].
  unfold sound. simpl. split; [rewrite sumSizes_Map_delete, Hget, Htotal; reflexivity|].
  assert (Hsub : Map_delete (generateKey JSON_stringify prefix params) (cache c)
                 `sublist_of` cache c).
  { clear. induction (cache c) as [|[k old] rest IH]; simpl; [constructor|].
    destruct (String.eqb k _); [apply sublist_cons; reflexivity | apply sublist_skip, IH]. }
  apply (sound_sublist (cache c)); assumption.
Qed.
End CacheSoundness.

(** ** The running total of the memory cache *)

Section RunningTotal.
Import MemoryCache.
Variable Value : Type.
Variable JSON_stringify : Value -> string.
Variable JSON_parse : string -> Value.

(** [get] keeps the running total equal to the sum of the recorded sizes. *)
Lemma get_keeps_total (c : MemoryCache.MemoryCache Value) now prefix params :
  totalSize c = sumSizes (cache c) ->
  totalSize (snd (get JSON_stringify JSON_parse c now prefix params))
  = sumSizes (cache (snd (get JSON_stringify JSON_parse c now prefix params))).
Proof.
  intros H. unfold get.
  destruct (Map_get _ (cache c)) as [e|] eqn:Hget; [|exact H].
  destruct (expired (config c) now e); [|exact H].
  simpl. rewrite sumSizes_Map_delete, Hget, H. reflexivity.
Qed.

(** So does [clear]. *)
Lemma clear_keeps_total (c : MemoryCache.MemoryCache Value) :
  totalSize (clear c) = sumSizes (cache (clear c)).
Proof. reflexivity. Qed.

(** Along a run in which every [set] is on a key that [makeSpace] does not
    leave in the map, the running total is the sum of the recorded sizes
    after every operation. *)
Lemma run_keeps_total (ops : list (op Value)) : forall c : MemoryCache.MemoryCache Value,
  CacheSpec.sound c ->
  (forall before o after, ops = before ++ o :: after ->
     match o with
     | OpSet t1 t2 prefix params d =>
         generateKey JSON_stringify prefix params
           ∉ List.map fst
               (cache (makeSpace (run JSON_stringify JSON_parse c before) t1
                         (calculateSize JSON_stringify d)))
     | _ => True
     end) ->
  CacheSpec.sound (run JSON_stringify JSON_parse c ops).
Proof.
  induction ops as [|o ops IH]; intros c Hsound Hsets; [exact Hsound|].
  change (run JSON_stringify JSON_parse c (o :: ops))
    with (run JSON_stringify JSON_parse (step JSON_stringify JSON_parse c o) ops).
  apply IH.
  - pose proof (Hsets [] o ops eq_refl) as Ho. destruct o as [t1 t2 prefix params d| |]; simpl.
    + apply set_absent_key_sound; assumption.
    + apply get_sound, Hsound.
    + unfold CacheSpec.sound, clear. simpl. split; [reflexivity|].
      split; [apply NoDup_nil; exact I | apply Forall_nil; exact I].
  - intros before o' after E. apply (Hsets (o :: before) o' after). rewrite E. reflexivity.
Qed.
End RunningTotal.

(** C10 at two writes on one key. After [set("q", 1, 42)] and then
    [set("q", 1, 43)] on a new cache the map holds one entry of recorded size 4,
    and [getStats] reports a total of 8: the size of the replaced entry
    was never taken off. *)
Theorem overwrite_is_counted_twice :
  let c := MemoryCache.run Examples.stringify_integer Examples.parse_integer
             (MemoryCache.new MemoryCache.defaultConfig)
             [MemoryCache.OpSet 0 0 "q" 1%Z 42%Z; MemoryCache.OpSet 1 1 "q" 1%Z 43%Z] in
  MemoryCache.stats_size (MemoryCache.getStats c) = 1%nat
  /\ MemoryCache.sumSizes (MemoryCache.cache c) = 4%Z
  /\ MemoryCache.stats_totalSize (MemoryCache.getStats c) = 8%Z
  /\ fst (MemoryCache.get Examples.stringify_integer Examples.parse_integer c 2 "q" 1%Z)
     = Some 43%Z.
Proof. repeat split; vm_compute; reflexivity. Qed.

(** ** Expired entries *)

(** [DataService.getCache] deletes the entry it finds invalid. *)
Lemma DataService_getCache_expired {Data : Type} (now : Z) (key : string)
    (cache : gmap string (DataService.entry (Data := Data))) :
  DataService.isCacheValid now (cache !! key) = false ->
  DataService.getCache now key cache = (None, delete key cache).
Proof. intros H. unfold DataService.getCache. rewrite H. reflexivity. Qed.

(** [InsuranceDatabase.getCache] never writes: whatever it returns, the map
    and so the entry count are as before. *)
Lemma InsuranceDatabase_getCache_writes_nothing (db : InsuranceDatabase.InsuranceDatabase)
    (now : Z) (key : string) :
  snd (InsuranceDatabase.getCache db now key) = db.
Proof.
  unfold InsuranceDatabase.getCache.
  destruct (InsuranceDatabase.cache db !! key) as [e|]; [|reflexivity].
  destruct (InsuranceDatabase.isCacheValid db now _); reflexivity.
Qed.

(** C4 at the database whose cache holds one entry written at clock value 0,
    with the default timeout of 300000 ms. Before the timeout [getCache]
    returns the data. At the timeout it returns [null], and the entry is
    still in the map: [getStats().cacheSize] stays 1. *)
Theorem getCache_keeps_the_expired_entry :
  fst (InsuranceDatabase.getCache Examples.database_with_entry 299999 "findAll_{}")
  = Some (InsuranceDatabase.CachedRecords [Examples.scenario_record])
  /\ fst (InsuranceDatabase.getCache Examples.database_with_entry 300000 "findAll_{}") = None
  /\ InsuranceDatabase.cacheSize Examples.database_with_entry = 1%nat
  /\ InsuranceDatabase.cacheSize
       (snd (InsuranceDatabase.getCache Examples.database_with_entry 300000 "findAll_{}"))
     = 1%nat
  /\ is_Some (InsuranceDatabase.cache
                (snd (InsuranceDatabase.getCache Examples.database_with_entry 300000
                        "findAll_{}"))
              !! "findAll_{}").
Proof.
  split; [reflexivity|]. split; [reflexivity|]. split; [reflexivity|].
  split; [reflexivity|]. eexists. reflexivity.
Qed.


(** * Further properties *)

(** ** The groups of the aggregator *)

Section AggregatorGroups.
Import MetricCalculator Spec Further.
Variable Number_toString : Q -> string.

Lemma keys_of_fold (keyOf : gmap string jsval -> string)
    (data : list (gmap string jsval)) (groups : list (string * list (gmap string jsval))) :
  List.map fst
    (fold_left (fun groups record => groups_push (keyOf record) record groups) data groups)
  = fold_left (fun seen key => if bool_decide (key ∈ seen) then seen else seen ++ [key])
              (List.map keyOf data) (List.map fst groups).
Proof.
  revert groups. induction data as [|record data IH]; intros groups; simpl.
  - reflexivity.
  - rewrite IH, keys_push. reflexivity.
Qed.

Lemma buckets_by_key (groups : list (string * list (gmap string jsval)))
    (members : string -> list (gmap string jsval)) :
  (forall key bucket, (key, bucket) ∈ groups -> bucket = members key) ->
  groups = List.map (fun key => (key, members key)) (List.map fst groups).
Proof.
  induction groups as [|[key bucket] rest IH]; intros H; simpl; [reflexivity|].
  rewrite (H key bucket) by (apply elem_of_cons; left; reflexivity).
  rewrite <- IH; [reflexivity|].
  intros k b Hin. apply H, elem_of_cons. right. exact Hin.
Qed.

(** The grouping map holds, for every key in first-seen order, the records
    with that key. *)
Lemma buildGroups_by_key (data : list (gmap string jsval)) (fields : list string) :
  buildGroups Number_toString data fields
  = List.map (fun key => (key, records_with (groupKey Number_toString fields) key data))
             (first_seen (List.map (groupKey Number_toString fields) data)).
Proof.
  assert (Hkeys : List.map fst (buildGroups Number_toString data fields)
                  = first_seen (List.map (groupKey Number_toString fields) data)).
  { unfold buildGroups, first_seen. rewrite keys_of_fold. reflexivity. }
  rewrite <- Hkeys. apply buckets_by_key.
  intros key bucket Hin.
  rewrite <- (bucket_of_elem key bucket (buildGroups Number_toString data fields)).
  - apply bucket_of_buildGroups.
  - apply keys_fold_NoDup. apply NoDup_nil. exact I.
  - exact Hin.
Qed.

Lemma members_after_push (key : string) (record : gmap string jsval)
    (groups : list (string * list (gmap string jsval))) :
  sum_list (List.map (fun p => length (snd p)) (groups_push key record groups))
  = S (sum_list (List.map (fun p => length (snd p)) groups)).
Proof.
  induction groups as [|[k bucket] rest IH]; simpl; [reflexivity|].
  destruct (String.eqb k key); simpl.
  - rewrite length_app. simpl. lia.
  - rewrite IH. lia.
Qed.

Lemma members_after_fold (keyOf : gmap string jsval -> string)
    (data : list (gmap string jsval)) (groups : list (string * list (gmap string jsval))) :
  sum_list (List.map (fun p => length (snd p))
              (fold_left (fun groups record => groups_push (keyOf record) record groups)
                         data groups))
  = (sum_list (List.map (fun p => length (snd p)) groups) + length data)%nat.
Proof.
  revert groups. induction data as [|record data IH]; intros groups; simpl.
  - lia.
  - rewrite IH, members_after_push. lia.
Qed.

Lemma counts_of_buckets (fields : list string)
    (buckets : list (string * list (gmap string jsval))) (groups : list AggregatedData) :
  Forall2 (fun bucket g =>
             (let '(_, groupData) := bucket in
              dimensionValues ← dimensionValuesOf groupData fields;
              Some (aggregateGroup groupData dimensionValues)) = Some g)
          buckets groups ->
  nonempty_buckets buckets ->
  sum_list (List.map record_count groups)
  = sum_list (List.map (fun p => length (snd p)) buckets)
  /\ Forall (fun g => (1 <= record_count g)%nat) groups.
Proof.
  unfold nonempty_buckets.
  induction 1 as [|[key bucket] g buckets groups Hg _ IH]; intros Hne.
  - split; [reflexivity | apply Forall_nil; exact I].
  - apply Forall_cons in Hne as [Hb Hrest]. simpl in Hb.
    destruct bucket as [|first bucket]; [congruence|].
    simpl in Hg. injection Hg as <-.
    destruct (IH Hrest) as [Hsum Hall]. split.
    + simpl. rewrite Hsum. reflexivity.
    + apply Forall_cons. split; [simpl; lia | exact Hall].
Qed.

(** X1. Grouping drops and duplicates no record: whatever the fields are,
    [aggregateByDimensions] returns (it does not throw), every group has at
    least one member, and the member counts of the groups add up to the
    number of input records. *)
Theorem aggregation_partitions_the_records (data : list (gmap string jsval))
    (fields : list string) :
  exists groups,
    aggregateByDimensions Number_toString data fields = Some groups
    /\ total_members groups = length data
    /\ Forall (fun g => (1 <= record_count g)%nat) groups.
Proof.
  unfold total_members.
  destruct (aggregateByDimensions_total Number_toString data fields) as [groups Hgroups].
  exists groups. split; [exact Hgroups|].
  unfold aggregateByDimensions in Hgroups.
  destruct data as [|record data].
  { injection Hgroups as <-. split; [reflexivity | apply Forall_nil; exact I]. }
  destruct fields as [|field fields].
  { injection Hgroups as <-. split; [simpl; lia|].
    apply Forall_cons. split; [simpl; lia | apply Forall_nil; exact I]. }
  cbn [length Nat.eqb] in Hgroups. apply mapM_Some in Hgroups.
  destruct (counts_of_buckets _ _ _ Hgroups) as [Hsum Hall].
  { apply fold_push_nonempty. apply Forall_nil. exact I. }
  split; [|exact Hall].
  rewrite Hsum. unfold buildGroups. rewrite members_after_fold. reflexivity.
Qed.

(** X2. For non-empty data and at least one field, [aggregateByDimensions]
    returns one group per distinct key, in the order in which the keys first
    occur in the input; the group of a key aggregates exactly the records with
    that key, in input order, and takes its dimension values from the first
    of them. *)
Theorem aggregation_groups_by_first_seen_key (data : list (gmap string jsval))
    (fields : list string) :
  data <> [] -> fields <> [] ->
  aggregateByDimensions Number_toString data fields
  = Some (List.map
            (fun key =>
               aggregateGroup
                 (records_with (groupKey Number_toString fields) key data)
                 (values_of_first
                    (records_with (groupKey Number_toString fields) key data) fields))
            (first_seen (List.map (groupKey Number_toString fields) data))).
Proof.
  intros Hdata Hfields. unfold aggregateByDimensions.
  destruct data as [|record data]; [congruence|].
  destruct fields as [|field fields]; [congruence|].
  cbn [length Nat.eqb].
  assert (Hne : nonempty_buckets
                  (buildGroups Number_toString (record :: data) (field :: fields))).
  { apply fold_push_nonempty. apply Forall_nil. exact I. }
  rewrite buildGroups_by_key in Hne |- *.
  generalize dependent (first_seen
    (List.map (groupKey Number_toString (field :: fields)) (record :: data))).
  intros keys Hne. apply mapM_Some.
  unfold nonempty_buckets in Hne.
  induction keys as [|key keys IH]; cbn [List.map] in *; [constructor|].
  apply Forall_cons in Hne as [Hb Hrest].
  constructor; [|apply IH, Hrest].
  cbn [snd] in Hb.
  destruct (records_with (groupKey Number_toString (field :: fields)) key (record :: data))
    as [|first members]; [congruence|].
  reflexivity.
Qed.
End AggregatorGroups.

Lemma aggregation_groups_by_first_seen_key_witness :
  [Examples.only_branch_x; Examples.branch_missing; Examples.only_branch_x] <> []
  /\ ["chengdu_branch"] <> []
  /\ option_map (List.map MetricCalculator.record_count)
       (MetricCalculator.aggregateByDimensions decimal1_toString
          [Examples.only_branch_x; Examples.branch_missing; Examples.only_branch_x]
          ["chengdu_branch"])
     = Some [2%nat; 1%nat].
Proof.
  split; [discriminate|]. split; [discriminate|].
  rewrite (aggregation_groups_by_first_seen_key decimal1_toString
             [Examples.only_branch_x; Examples.branch_missing; Examples.only_branch_x]
             ["chengdu_branch"]) by discriminate.
  vm_compute. reflexivity.
Defined.

(** ** Anomaly flags and the data-quality score *)

Section QualityScore.
Import MetricCalculator Spec Further.
Local Open Scope Q_scope.
Variable Number_toString : Q -> string.

(** The divisions of [calculateMetrics], one after the other. *)
Ltac through_divisions :=
  unfold calculateMetrics;
  repeat match goal with
         | |- context [safeDivide ?n ?d ?m ?w] =>
             destruct (safeDivide n d m w) as [? ?]
         end.

Lemma flags_of_calculateMetrics g :
  anomaly_flags (calculateMetrics Number_toString g)
  = detectAnomalies Number_toString (calculateMetrics Number_toString g) [].
Proof. through_divisions. reflexivity. Qed.

Lemma score_of_calculateMetrics g :
  data_quality_score (calculateMetrics Number_toString g)
  = Some (calculateDataQualityScore (calculateMetrics Number_toString g)).
Proof. through_divisions. reflexivity. Qed.

Lemma aggregated_of_calculateMetrics g :
  aggregated (calculateMetrics Number_toString g) = g.
Proof. through_divisions. reflexivity. Qed.

Lemma out_of_range_false (value : Q) (r : range) :
  out_of_range value r = false <-> min r <= value <= max r.
Proof.
  unfold out_of_range. rewrite orb_false_iff, !negb_false_iff, !Qle_bool_iff. reflexivity.
Qed.

Lemma detectAnomalies_none (result : MetricCalculationResult) :
  detectAnomalies Number_toString result [] = []
  <-> out_of_range (variable_cost_ratio_percent result) variable_cost_ratio_range = false
      /\ out_of_range (expired_loss_ratio_percent result) expired_loss_ratio_range = false
      /\ out_of_range (expense_ratio_percent result) expense_ratio_range = false
      /\ out_of_range (matured_margin_contribution_rate_percent result)
                      margin_contribution_ratio_range = false.
Proof.
  unfold detectAnomalies.
  destruct (out_of_range (variable_cost_ratio_percent result) _),
           (out_of_range (expired_loss_ratio_percent result) _),
           (out_of_range (expense_ratio_percent result) _),
           (out_of_range (matured_margin_contribution_rate_percent result) _);
    simpl; split; intros H; try reflexivity; try discriminate H;
    try (repeat split; reflexivity);
    destruct H as (H1 & H2 & H3 & H4); discriminate.
Qed.

Lemma detectAnomalies_at_most_four (result : MetricCalculationResult) :
  (length (detectAnomalies Number_toString result []) <= 4)%nat.
Proof.
  unfold detectAnomalies.
  destruct (out_of_range (variable_cost_ratio_percent result) _),
           (out_of_range (expired_loss_ratio_percent result) _),
           (out_of_range (expense_ratio_percent result) _),
           (out_of_range (matured_margin_contribution_rate_percent result) _);
    simpl; lia.
Qed.

(** X3. [calculateMetrics] raises no anomaly flag exactly when the four
    exposed (rounded) ratios are within their thresholds: variable cost ratio
    in [0, 150], loss ratio in [0, 100], expense ratio in [0, 50] and margin
    contribution rate in [-50, 100]; it never raises more than four flags. *)
Theorem anomaly_flags_follow_the_thresholds g :
  (anomaly_flags (calculateMetrics Number_toString g) = []
   <-> (0 <= variable_cost_ratio_percent (calculateMetrics Number_toString g) <= 150
        /\ 0 <= expired_loss_ratio_percent (calculateMetrics Number_toString g) <= 100
        /\ 0 <= expense_ratio_percent (calculateMetrics Number_toString g) <= 50
        /\ - (50) <= matured_margin_contribution_rate_percent
                       (calculateMetrics Number_toString g) <= 100))
  /\ (length (anomaly_flags (calculateMetrics Number_toString g)) <= 4)%nat.
Proof.
  rewrite flags_of_calculateMetrics. split.
  - rewrite detectAnomalies_none, !out_of_range_false. reflexivity.
  - apply detectAnomalies_at_most_four.
Qed.

Lemma count_nonnegative (n : nat) : 0 <= inject_Z (Z.of_nat n).
Proof. change 0 with (inject_Z 0). rewrite <- Zle_Qle. lia. Qed.

Lemma count_zero (n : nat) : inject_Z (Z.of_nat n) <= 0 -> n = 0%nat.
Proof. change 0 with (inject_Z 0). rewrite <- Zle_Qle. lia. Qed.

Lemma clamp_bounds (x : Q) : 0 <= Qmax 0 (Qmin 100 x) <= 100.
Proof.
  destruct (Q.max_spec 0 (Qmin 100 x)) as [[H1 H2]|[H1 H2]];
    destruct (Q.min_spec 100 x) as [[H3 H4]|[H3 H4]]; rewrite H2; lra.
Qed.

Lemma clamp_full (x : Q) : Qmax 0 (Qmin 100 x) == 100 <-> 100 <= x.
Proof.
  destruct (Q.max_spec 0 (Qmin 100 x)) as [[H1 H2]|[H1 H2]];
    destruct (Q.min_spec 100 x) as [[H3 H4]|[H3 H4]]; rewrite H2; split; lra.
Qed.

(** X4. The data-quality score of [calculateMetrics] is always set and lies
    between 0 and 100; it is 100 exactly when no calculation warning and no
    anomaly flag was recorded. *)
Theorem quality_score_is_full_without_findings g :
  exists score,
    data_quality_score (calculateMetrics Number_toString g) = Some score
    /\ 0 <= score <= 100
    /\ (score == 100
        <-> calculation_warnings (calculateMetrics Number_toString g) = []
            /\ anomaly_flags (calculateMetrics Number_toString g) = []).
Proof.
  eexists. split; [apply score_of_calculateMetrics|].
  unfold calculateDataQualityScore. split; [apply clamp_bounds|].
  rewrite clamp_full, aggregated_of_calculateMetrics.
  pose proof (count_nonnegative
                (length (calculation_warnings (calculateMetrics Number_toString g)))) as Hw.
  pose proof (count_nonnegative
                (length (anomaly_flags (calculateMetrics Number_toString g)))) as Ha.
  split.
  - intros H.
    assert (Hboth : inject_Z (Z.of_nat (length (calculation_warnings
                                                  (calculateMetrics Number_toString g)))) <= 0
                    /\ inject_Z (Z.of_nat (length (anomaly_flags
                                                  (calculateMetrics Number_toString g)))) <= 0).
    { destruct (Qeq_bool (signed_premium_yuan g) 0), (Qeq_bool (matured_premium_yuan g) 0),
               (Qeq_bool (policy_count g) 0); split; lra. }
    destruct Hboth as [H1 H2]. apply count_zero in H1, H2.
    split; apply length_zero_iff_nil; assumption.
  - intros [Hwarn Hflags]. rewrite Hwarn, Hflags.
    rewrite recorded_warnings in Hwarn. unfold warning_if_zero in Hwarn.
    destruct (Qeq_bool (policy_count g) 0); [discriminate Hwarn|].
    destruct (Qeq_bool (claim_case_count g) 0); [discriminate Hwarn|].
    destruct (Qeq_bool (signed_premium_yuan g) 0); [discriminate Hwarn|].
    destruct (Qeq_bool (matured_premium_yuan g) 0); [discriminate Hwarn|].
    apply Qle_bool_iff. reflexivity.
Qed.
End QualityScore.

(** ** The sums and the fields of lib/calculations *)

Section LegacyEngine.
Import Calculations Spec Further.
Local Open Scope Q_scope.

Lemma numberField_Some (record : gmap string jsval) (field : string) (q : Q) :
  numberField (get record field) = Some q <-> record !! field = Some (JNumber q).
Proof.
  unfold get. destruct (record !! field) as [[]|]; simpl; split; intros H; congruence.
Qed.

Lemma sum_from_NaN (field : string) (records : list (gmap string jsval)) :
  fold_left (fun acc record => num_add acc (numberField (get record field))) records None
  = None.
Proof. induction records as [|record records IH]; simpl; [reflexivity | exact IH]. Qed.

Lemma sum_from_number (field : string) (records : list (gmap string jsval)) : forall a : Q,
  match fold_left (fun acc record => num_add acc (numberField (get record field)))
                  records (Some a) with
  | Some q => numeric_everywhere field records /\ q == a + arithmetic_sum records field
  | None => ~ numeric_everywhere field records
  end.
Proof.
  unfold numeric_everywhere.
  induction records as [|record records IH]; intros a; simpl.
  - split; [apply Forall_nil; exact I | ring].
  - destruct (numberField (get record field)) as [v|] eqn:Hv; simpl.
    + apply numberField_Some in Hv. specialize (IH (a + v)).
      match goal with
      | |- context [fold_left ?f records ?x] => destruct (fold_left f records x) as [q|]
      end.
      * destruct IH as [Hall Hq]. split.
        -- apply Forall_cons. split; [exists v; exact Hv | exact Hall].
        -- rewrite Hq. unfold contribution. rewrite Hv. ring.
      * intros Hall. apply Forall_cons in Hall as [_ Hall]. exact (IH Hall).
    + rewrite sum_from_NaN. intros Hall. apply Forall_cons in Hall as [[q Hq] _].
      apply numberField_Some in Hq. congruence.
Qed.

Lemma aggregate_is_a_fold (records : list AbsoluteValueFields) :
  aggregateAbsoluteFields records = fold_left addFields records allZero.
Proof. destruct records; reflexivity. Qed.

Lemma field_of_fold (proj : AbsoluteValueFields -> num) (field : string)
    (records : list (gmap string jsval)) :
  (forall a b, proj (addFields a b) = num_add (proj a) (proj b)) ->
  (forall record, proj (absoluteFields record) = numberField (get record field)) ->
  forall acc,
    proj (fold_left addFields (List.map absoluteFields records) acc)
    = fold_left (fun acc record => num_add acc (numberField (get record field)))
                records (proj acc).
Proof.
  intros Hadd Hread. induction records as [|record records IH]; intros acc; simpl.
  - reflexivity.
  - rewrite IH, Hadd, Hread. reflexivity.
Qed.

Lemma field_sum_or_NaN (proj : AbsoluteValueFields -> num) (field : string)
    (records : list (gmap string jsval)) (dims : gmap string jsval) :
  (forall a b, proj (addFields a b) = num_add (proj a) (proj b)) ->
  (forall record, proj (absoluteFields record) = numberField (get record field)) ->
  proj allZero = Some 0 ->
  sum_or_NaN (proj (absolute (calculateAnalysisResult records dims))) field records.
Proof.
  intros Hadd Hread Hzero. unfold calculateAnalysisResult. cbn [absolute].
  rewrite aggregate_is_a_fold, (field_of_fold proj field records Hadd Hread), Hzero.
  pose proof (sum_from_number field records 0) as H. unfold sum_or_NaN.
  match goal with
  | |- context [fold_left ?f records ?x] => destruct (fold_left f records x) as [q|]
  end; [|exact H].
  destruct H as [Hall Hq]. split; [exact Hall | rewrite Hq; ring].
Qed.

End LegacyEngine.

Section EnginesAgree.
Import MetricCalculator Spec Further.
Local Open Scope Q_scope.
Variable Number_toString : Q -> string.

Lemma positive_number (x : Q) : 0 < x -> Calculations.positive (Some x) = true.
Proof.
  intros H. unfold Calculations.positive. apply negb_true_iff.
  destruct (Qle_bool x 0) eqn:E; [|reflexivity]. apply Qle_bool_iff in E. lra.
Qed.

Lemma quotient_positive (n d : Q) : 0 < d -> quotient n d = n / d.
Proof.
  intros H. unfold quotient. destruct (Qeq_bool d 0) eqn:E; [|reflexivity].
  apply Qeq_bool_iff in E. lra.
Qed.

(** X6. On sums whose five denominators are positive, the two engines
    agree up to rounding on eight of the ten derived fields: what
    [calculateMetrics] exposes is the rounding of what [calculateFields]
    computes for the average premium, the average claim payment, the loss
    ratio, the expense ratio, the margin contribution rate, the pricing
    factor, the combined ratio and the profit margin. *)
Theorem engines_agree_up_to_rounding g :
  0 < signed_premium_yuan g -> 0 < matured_premium_yuan g ->
  0 < commercial_premium_before_discount_yuan g ->
  0 < policy_count g -> 0 < claim_case_count g ->
  rounds_to (Calculations.average_premium_per_policy_yuan
               (Calculations.calculateFields (as_absolute g)))
            Math_round
            (average_premium_per_policy_yuan (calculateMetrics Number_toString g))
  /\ rounds_to (Calculations.average_claim_payment_yuan
                  (Calculations.calculateFields (as_absolute g)))
               Math_round
               (average_claim_payment_yuan (calculateMetrics Number_toString g))
  /\ rounds_to (Calculations.expired_loss_ratio_percent
                  (Calculations.calculateFields (as_absolute g)))
               (fun q => roundToDecimal q 1)
               (expired_loss_ratio_percent (calculateMetrics Number_toString g))
  /\ rounds_to (Calculations.expense_ratio_percent
                  (Calculations.calculateFields (as_absolute g)))
               (fun q => roundToDecimal q 1)
               (expense_ratio_percent (calculateMetrics Number_toString g))
  /\ rounds_to (Calculations.matured_margin_contribution_rate_percent
                  (Calculations.calculateFields (as_absolute g)))
               (fun q => roundToDecimal q 1)
               (matured_margin_contribution_rate_percent
                  (calculateMetrics Number_toString g))
  /\ rounds_to (Calculations.commercial_auto_underwriting_factor
                  (Calculations.calculateFields (as_absolute g)))
               (fun q => roundToDecimal q 4)
               (commercial_auto_underwriting_factor (calculateMetrics Number_toString g))
  /\ rounds_to (Calculations.combined_ratio_percent
                  (Calculations.calculateFields (as_absolute g)))
               (fun q => roundToDecimal q 1)
               (combined_ratio_percent (calculateMetrics Number_toString g))
  /\ rounds_to (Calculations.profit_margin_percent
                  (Calculations.calculateFields (as_absolute g)))
               (fun q => roundToDecimal q 1)
               (profit_margin_percent (calculateMetrics Number_toString g)).
Proof.
  intros Hs Hm Hc Hp Hk.
  rewrite exposed_average_premium, exposed_average_claim, exposed_loss_ratio,
    exposed_expense_ratio, exposed_margin_rate, exposed_underwriting_factor,
    exposed_combined_ratio, exposed_profit_margin.
  rewrite !(quotient_positive _ _ Hs), !(quotient_positive _ _ Hm),
    !(quotient_positive _ _ Hc), !(quotient_positive _ _ Hp), !(quotient_positive _ _ Hk).
  unfold rounds_to, Calculations.calculateFields, as_absolute.
  cbn [Calculations.signed_premium_yuan Calculations.matured_premium_yuan
       Calculations.commercial_premium_before_discount_yuan Calculations.policy_count
       Calculations.claim_case_count Calculations.reported_claim_payment_yuan
       Calculations.expense_amount_yuan Calculations.matured_margin_contribution_yuan
       Calculations.variable_cost_amount_yuan
       Calculations.average_premium_per_policy_yuan Calculations.average_claim_payment_yuan
       Calculations.expired_loss_ratio_percent Calculations.expense_ratio_percent
       Calculations.matured_margin_contribution_rate_percent
       Calculations.commercial_auto_underwriting_factor
       Calculations.combined_ratio_percent Calculations.profit_margin_percent].
  rewrite !(positive_number _ Hs), !(positive_number _ Hm), !(positive_number _ Hc),
    !(positive_number _ Hp), !(positive_number _ Hk).
  repeat split; (eexists; split; [reflexivity|]);
    try reflexivity; apply roundToDecimal_compat; ring.
Qed.
End EnginesAgree.

Lemma engines_agree_up_to_rounding_witness :
  exists g,
    MetricCalculator.aggregateByDimensions decimal1_toString [Examples.scenario_record] []
    = Some [g]
    /\ Further.rounds_to
         (Calculations.expired_loss_ratio_percent
            (Calculations.calculateFields (Further.as_absolute g)))
         (fun q => MetricCalculator.roundToDecimal q 1)
         (MetricCalculator.expired_loss_ratio_percent
            (MetricCalculator.calculateMetrics decimal1_toString g)).
Proof.
  eexists. split; [reflexivity|].
  apply (engines_agree_up_to_rounding decimal1_toString); reflexivity.
Defined.

(** ** The groups of lib/calculations *)

Section LegacyGroups.
Import Calculations Spec Further.
Variable Number_toString : Q -> string.
Variable Number_ofString : string -> jsval.

Lemma legacy_counts_of_buckets (fields : list string)
    (buckets : list (string * list (gmap string jsval))) (results : list AnalysisResult) :
  Forall2 (fun bucket r =>
             (let '(groupKey, groupRecords) := bucket in
              dimensions ← restoreDimensions Number_ofString groupKey groupRecords fields;
              Some (calculateAnalysisResult groupRecords dimensions)) = Some r)
          buckets results ->
  sum_list (List.map record_count results)
  = sum_list (List.map (fun p => length (snd p)) buckets)
  /\ (nonempty_buckets buckets -> Forall (fun r => (1 <= record_count r)%nat) results).
Proof.
  unfold nonempty_buckets.
  induction 1 as [|[key bucket] r buckets results Hr _ IH].
  - split; [reflexivity | intros _; apply Forall_nil; exact I].
  - destruct IH as [Hsum Hall].
    assert (Hcount : record_count r = length bucket).
    { simpl in Hr. destruct (restoreDimensions _ _ _ _); [|discriminate Hr].
      injection Hr as <-. reflexivity. }
    split.
    + simpl. rewrite Hsum, Hcount. reflexivity.
    + intros Hne. apply Forall_cons in Hne as [Hb Hrest].
      apply Forall_cons. split; [|exact (Hall Hrest)].
      rewrite Hcount. simpl in Hb. destruct bucket; [congruence | simpl; lia].
Qed.

(** X7. [groupByAndCalculate] drops and duplicates no record: it returns
    (it does not throw) and the member counts of its results add up to the
    number of records. With at least one field every result has a member;
    without fields there is exactly one result, also for no records at all,
    where [MetricCalculator.aggregateByDimensions] returns none. *)
Theorem legacy_grouping_partitions_the_records (records : list (gmap string jsval))
    (fields : list string) :
  exists results,
    groupByAndCalculate Number_toString Number_ofString records fields = Some results
    /\ total_records results = length records
    /\ (fields <> [] -> Forall (fun r => (1 <= record_count r)%nat) results)
    /\ (fields = [] -> length results = 1%nat).
Proof.
  destruct (groupByAndCalculate_total Number_toString Number_ofString records fields)
    as [results Hresults].
  exists results. split; [exact Hresults|].
  unfold groupByAndCalculate in Hresults. unfold total_records.
  destruct fields as [|field fields].
  - injection Hresults as <-. split; [simpl; lia|]. split; [congruence | reflexivity].
  - cbn [length Nat.eqb] in Hresults. apply mapM_Some in Hresults.
    destruct (legacy_counts_of_buckets _ _ _ Hresults) as [Hsum Hall].
    split; [|split; [|discriminate]].
    + rewrite Hsum. unfold buildGroups. rewrite members_after_fold. reflexivity.
    + intros _. apply Hall. apply fold_push_nonempty. apply Forall_nil. exact I.
Qed.

Lemma split_head (s : string) : exists rest, split "|" s = up_to_bar s :: rest.
Proof.
  induction s as [|c s [rest IH]]; simpl.
  - exists []. reflexivity.
  - destruct (Ascii.eqb c "|"); [eexists; reflexivity|].
    rewrite IH. eexists. reflexivity.
Qed.

Lemma up_to_bar_without_bar (s : string) :
  Forall (fun c => c <> "|"%char) (list_ascii_of_string s) -> up_to_bar s = s.
Proof.
  induction s as [|c s IH]; simpl; intros H; [reflexivity|].
  apply Forall_cons in H as [Hc Hs].
  apply Ascii.eqb_neq in Hc. rewrite Hc, (IH Hs). reflexivity.
Qed.

Lemma push_all_same (fields : list string) (key : string)
    (records bucket : list (gmap string jsval)) :
  Forall (fun record => groupKey Number_toString fields record = key) records ->
  fold_left (fun groups record =>
               MetricCalculator.groups_push (groupKey Number_toString fields record)
                                            record groups)
            records [(key, bucket)]
  = [(key, bucket ++ records)].
Proof.
  revert bucket. induction records as [|record records IH]; intros bucket H; simpl.
  - rewrite app_nil_r. reflexivity.
  - apply Forall_cons in H as [Hrec Hrest]. rewrite Hrec, String.eqb_refl.
    rewrite IH by exact Hrest. rewrite <- app_assoc. reflexivity.
Qed.

(** X8. Grouping by one field whose value is the same string in every
    record gives one group, and the dimension value restored from the key is
    the part of the string before its first [|] (provided that part is not
    [null], [true] or [false]): a string without [|] comes back as it was,
    a string with one comes back cut. *)
Theorem restored_dimension_is_cut_at_the_bar (records : list (gmap string jsval))
    (field s : string) :
  records <> [] ->
  Forall (fun record => get record field = JString s) records ->
  up_to_bar s <> "null" -> up_to_bar s <> "true" -> up_to_bar s <> "false" ->
  groupByAndCalculate Number_toString Number_ofString records [field]
  = Some [calculateAnalysisResult records (<[field := JString (up_to_bar s)]> ∅)]
  /\ (Forall (fun c => c <> "|"%char) (list_ascii_of_string s) -> up_to_bar s = s).
Proof.
  intros Hne Hall Hnull Htrue Hfalse. split; [|apply up_to_bar_without_bar].
  destruct records as [|first records]; [congruence|].
  assert (Hkey : Forall (fun record => groupKey Number_toString [field] record = s)
                        (first :: records)).
  { eapply Forall_impl; [exact Hall|]. intros record Hrec.
    unfold groupKey, keyPart. simpl. rewrite Hrec. reflexivity. }
  unfold groupByAndCalculate, buildGroups. cbn [length Nat.eqb].
  pose proof Hkey as Hkey'. apply Forall_cons in Hkey' as [Hfirst Hrest].
  cbn [fold_left MetricCalculator.groups_push]. rewrite Hfirst.
  rewrite (push_all_same [field] s records [first] Hrest).
  cbn [mapM]. unfold restoreDimensions. cbn [app imap fold_left].
  unfold restoreDimension.
  destruct (split_head s) as [rest ->]. cbn [lookup list_lookup].
  apply Forall_cons in Hall as [Hvalue _]. rewrite Hvalue. cbn [is_number].
  apply String.eqb_neq in Hnull, Htrue, Hfalse. rewrite Hnull, Htrue, Hfalse.
  reflexivity.
Qed.
End LegacyGroups.

Lemma restored_dimension_is_cut_at_the_bar_witness :
  [ ({[ "coverage_type" := JString "a|b" ]} : gmap string jsval) ] <> []
  /\ option_map (List.map (fun r => Calculations.dimensions r !! "coverage_type"))
       (Calculations.groupByAndCalculate decimal1_toString Examples.Number_ofString
          [ ({[ "coverage_type" := JString "a|b" ]} : gmap string jsval) ]
          ["coverage_type"])
     = Some [Some (JString "a")].
Proof.
  split; [discriminate|].
  rewrite (proj1 (restored_dimension_is_cut_at_the_bar decimal1_toString
                    Examples.Number_ofString
                    [ ({[ "coverage_type" := JString "a|b" ]} : gmap string jsval) ]
                    "coverage_type" "a|b" ltac:(discriminate)
                    ltac:(repeat constructor) ltac:(discriminate) ltac:(discriminate)
                    ltac:(discriminate))).
  reflexivity.
Defined.

(** ** The database façade: cached and sorted answers *)

Section FacadeProperties.
Import DataProcessor Calculations InsuranceDatabase Further.
Variable Number_toString : Q -> string.
Variable Number_ofString : string -> jsval.
Variable JSON_stringify : list string -> gmap string condition -> Z -> string.

Lemma getCache_result (db : InsuranceDatabase.InsuranceDatabase) (now : Z) (key : string) :
  getCache db now key = (fst (getCache db now key), db).
Proof.
  unfold getCache. destruct (cache db !! key) as [e|]; [|reflexivity].
  destruct (isCacheValid db now _); reflexivity.
Qed.

Lemma findAll_config (db : InsuranceDatabase.InsuranceDatabase) (now : Z)
    (stored : list (gmap string jsval)) :
  config (snd (findAll db now stored)) = config db.
Proof.
  unfold findAll. rewrite getCache_result.
  destruct (fst (getCache db now _)); reflexivity.
Qed.

(** What a request that misses the cache computes. *)
Lemma miss_computes (db : InsuranceDatabase.InsuranceDatabase) (now : Z)
    (stored : list (gmap string jsval)) (dimensions : list string)
    (filters : gmap string condition) (limit : Z) (answer : cached) :
  let cacheKey := getCacheKey "aggregateByDimensions"
                              (JSON_stringify dimensions filters limit) in
  fst (getCache db now cacheKey) = None ->
  fst (aggregateByDimensions Number_toString Number_ofString JSON_stringify
         db now stored dimensions filters limit) = Some answer ->
  exists allData results,
    fst (findAll db now stored) = CachedRecords allData
    /\ groupByAndCalculate Number_toString Number_ofString
         (filterData allData filters) dimensions = Some results
    /\ answer = CachedAnalysis (slice0 (sortByCountDesc results) limit)
    /\ snd (aggregateByDimensions Number_toString Number_ofString JSON_stringify
              db now stored dimensions filters limit)
       = setCache (snd (findAll db now stored)) now cacheKey answer.
Proof.
  intros cacheKey Hmiss Hanswer. unfold aggregateByDimensions in *.
  fold cacheKey in Hanswer |- *. rewrite getCache_result, Hmiss in Hanswer |- *.
  destruct (findAll db now stored) as [[allData|analysis] db'] eqn:Hall;
    [|discriminate Hanswer].
  destruct (groupByAndCalculate _ _ _ _) as [results|] eqn:Hresults;
    [|discriminate Hanswer].
  injection Hanswer as <-. exists allData, results.
  split; [reflexivity|]. split; [exact Hresults|]. split; reflexivity.
Qed.

(** X9. A request answered by computation is answered from the cache
    afterwards: the same request, made less than [cacheTimeout] after the
    first, gets the same answer and leaves the database as it is, whatever
    the storage holds by then. *)
Theorem repeated_request_is_served_from_the_cache
    (db : InsuranceDatabase.InsuranceDatabase) (now now' : Z)
    (stored stored' : list (gmap string jsval)) (dimensions : list string)
    (filters : gmap string condition) (limit : Z) :
  let first := aggregateByDimensions Number_toString Number_ofString JSON_stringify
                 db now stored dimensions filters limit in
  fst (getCache db now (getCacheKey "aggregateByDimensions"
                          (JSON_stringify dimensions filters limit))) = None ->
  is_Some (fst first) ->
  (now' - now < cacheTimeout (config db))%Z ->
  aggregateByDimensions Number_toString Number_ofString JSON_stringify
    (snd first) now' stored' dimensions filters limit
  = first.
Proof.
  intros first Hmiss [answer Hanswer] Hfresh.
  destruct (miss_computes db now stored dimensions filters limit answer Hmiss Hanswer)
    as (allData & results & _ & _ & _ & Hdb).
  fold first in Hdb.
  rewrite (surjective_pairing first), Hanswer, Hdb.
  unfold aggregateByDimensions at 1, getCache, setCache. cbn [snd cache config].
  rewrite lookup_insert_eq. cbn [timestamp data]. unfold isCacheValid. cbn [config].
  rewrite findAll_config.
  destruct (Z.ltb_spec (now' - now) (cacheTimeout (config db))) as [_|Hle]; [reflexivity|lia].
Qed.

Lemma insertByCount_perm (x : AnalysisResult) (l : list AnalysisResult) :
  insertByCount x l ≡ₚ x :: l.
Proof.
  induction l as [|y l IH]; simpl; [reflexivity|].
  destruct (record_count y <=? record_count x)%nat; [reflexivity|].
  rewrite IH. apply Permutation_swap.
Qed.

Lemma sortByCountDesc_perm (l : list AnalysisResult) : sortByCountDesc l ≡ₚ l.
Proof.
  induction l as [|x l IH]; simpl; [reflexivity|].
  rewrite insertByCount_perm, IH. reflexivity.
Qed.

Lemma insertByCount_sorted (x : AnalysisResult) (l : list AnalysisResult) :
  StronglySorted (fun a b => (record_count b <= record_count a)%nat) l ->
  StronglySorted (fun a b => (record_count b <= record_count a)%nat) (insertByCount x l).
Proof.
  induction 1 as [|y l Hsorted IH Hall]; simpl.
  - repeat constructor.
  - destruct (Nat.leb_spec (record_count y) (record_count x)) as [Hle|Hlt].
    + constructor; [constructor; assumption|].
      constructor; [exact Hle|].
      eapply Forall_impl; [exact Hall|]. simpl. intros z Hz. lia.
    + constructor; [exact IH|].
      rewrite insertByCount_perm. constructor; [lia | exact Hall].
Qed.

Lemma sortByCountDesc_sorted (l : list AnalysisResult) :
  StronglySorted (fun a b => (record_count b <= record_count a)%nat) (sortByCountDesc l).
Proof.
  induction l as [|x l IH]; simpl; [constructor|].
  apply insertByCount_sorted. exact IH.
Qed.

Lemma sorted_descending (l : list AnalysisResult) :
  StronglySorted (fun a b => (record_count b <= record_count a)%nat) l ->
  descending_by_count l.
Proof.
  unfold descending_by_count.
  induction 1 as [|x l Hsorted IH Hall]; intros i j a b Hij Ha Hb.
  - rewrite lookup_nil in Ha. discriminate Ha.
  - destruct j as [|j]; [lia|]. cbn in Hb.
    destruct i as [|i]; cbn in Ha.
    + injection Ha as <-. rewrite Forall_forall in Hall. apply Hall.
      eapply list_elem_of_lookup_2. exact Hb.
    + apply (IH i j); [lia | exact Ha | exact Hb].
Qed.

Lemma slice0_take {A} (arr : list A) (end_ : Z) :
  (0 <= end_)%Z -> slice0 arr end_ = take (Z.to_nat end_) arr.
Proof.
  intros Hend. unfold slice0.
  destruct (Z.ltb_spec end_ 0) as [Hneg|_]; [lia|].
  destruct (Z.le_ge_cases end_ (Z.of_nat (length arr))) as [Hle|Hge].
  - rewrite Z.min_l by exact Hle. reflexivity.
  - rewrite Z.min_r by exact Hge. rewrite Nat2Z.id.
    rewrite !take_ge; [reflexivity | lia | lia].
Qed.

Lemma slice0_prefix {A} (arr : list A) (end_ : Z) :
  exists n, slice0 arr end_ = take n arr.
Proof. unfold slice0. eexists. reflexivity. Qed.

(** X10. The answer of a request that misses the cache lists groups of the
    filtered data, each at most once, by descending member count; for a limit
    that is not negative it has at most [limit] groups, and all of them when
    the limit is not below their number. *)
Theorem answer_is_sorted_and_limited
    (db : InsuranceDatabase.InsuranceDatabase) (now : Z)
    (stored : list (gmap string jsval)) (dimensions : list string)
    (filters : gmap string condition) (limit : Z) (answer : list AnalysisResult) :
  fst (getCache db now (getCacheKey "aggregateByDimensions"
                          (JSON_stringify dimensions filters limit))) = None ->
  fst (aggregateByDimensions Number_toString Number_ofString JSON_stringify
         db now stored dimensions filters limit) = Some (CachedAnalysis answer) ->
  exists allData results,
    fst (findAll db now stored) = CachedRecords allData
    /\ groupByAndCalculate Number_toString Number_ofString
         (filterData allData filters) dimensions = Some results
    /\ descending_by_count answer
    /\ (exists rest, answer ++ rest ≡ₚ results)
    /\ ((0 <= limit)%Z -> (Z.of_nat (length answer) <= limit)%Z)
    /\ ((Z.of_nat (length results) <= limit)%Z -> answer ≡ₚ results).
Proof.
  intros Hmiss Hanswer.
  destruct (miss_computes db now stored dimensions filters limit _ Hmiss Hanswer)
    as (allData & results & Hall & Hresults & Heq & _).
  injection Heq as ->. exists allData, results.
  split; [exact Hall|]. split; [exact Hresults|].
  pose proof (sortByCountDesc_sorted results) as Hsorted.
  pose proof (sortByCountDesc_perm results) as Hperm.
  split; [|split; [|split]].
  - destruct (slice0_prefix (sortByCountDesc results) limit) as [n ->].
    apply sorted_descending.
    rewrite <- (take_drop n (sortByCountDesc results)) in Hsorted.
    apply StronglySorted_app_1_l in Hsorted. exact Hsorted.
  - destruct (slice0_prefix (sortByCountDesc results) limit) as [n ->].
    exists (drop n (sortByCountDesc results)). rewrite take_drop. exact Hperm.
  - intros Hlimit. rewrite slice0_take by exact Hlimit. rewrite length_take. lia.
  - intros Hlimit. rewrite slice0_take by lia. rewrite take_ge; [exact Hperm|].
    rewrite Hperm. lia.
Qed.
End FacadeProperties.

Lemma repeated_request_is_served_from_the_cache_witness :
  InsuranceDatabase.aggregateByDimensions
    decimal1_toString Examples.Number_ofString Examples.stringify_query
    (snd (InsuranceDatabase.aggregateByDimensions
            decimal1_toString Examples.Number_ofString Examples.stringify_query
            InsuranceDatabase.new 0 [Examples.scenario_record]
            ["third_level_organization"] ∅ 1000))
    299999 [] ["third_level_organization"] ∅ 1000
  = InsuranceDatabase.aggregateByDimensions
      decimal1_toString Examples.Number_ofString Examples.stringify_query
      InsuranceDatabase.new 0 [Examples.scenario_record]
      ["third_level_organization"] ∅ 1000.
Proof.
  apply (repeated_request_is_served_from_the_cache
           decimal1_toString Examples.Number_ofString Examples.stringify_query
           InsuranceDatabase.new 0 299999 [Examples.scenario_record] []
           ["third_level_organization"] ∅ 1000).
  - vm_compute. reflexivity.
  - eexists. vm_compute. reflexivity.
  - vm_compute. reflexivity.
Defined.

Lemma answer_is_sorted_and_limited_witness :
  let answer :=
    match fst (InsuranceDatabase.aggregateByDimensions
                 decimal1_toString Examples.Number_ofString Examples.stringify_query
                 InsuranceDatabase.new 0
                 [Examples.scenario_record; Examples.only_organization_x;
                  Examples.only_organization_x]
                 ["third_level_organization"] ∅ 1) with
    | Some (InsuranceDatabase.CachedAnalysis answer) => answer
    | _ => []
    end in
  Further.descending_by_count answer /\ (Z.of_nat (length answer) <= 1)%Z.
Proof.
  intros answer.
  destruct (answer_is_sorted_and_limited
              decimal1_toString Examples.Number_ofString Examples.stringify_query
              InsuranceDatabase.new 0
              [Examples.scenario_record; Examples.only_organization_x;
               Examples.only_organization_x]
              ["third_level_organization"] ∅ 1 answer)
    as (allData & results & _ & _ & Hdescending & _ & Hlimit & _).
  - vm_compute. reflexivity.
  - vm_compute. reflexivity.
  - split; [exact Hdescending | apply Hlimit; lia].
Defined.

(** ** Pagination *)

Section PagingProperties.
Import JsNumber Paging Further.

Lemma ceiling_of_quotient (a b : Z) :
  (0 < b)%Z ->
  (a <= Qceiling (inject_Z a / inject_Z b) * b
   /\ (Qceiling (inject_Z a / inject_Z b) - 1) * b < a)%Z.
Proof.
  intros Hb. set (x := (inject_Z a / inject_Z b)%Q).
  assert (Hpos : (0 < inject_Z b)%Q) by (rewrite (Zlt_Qlt 0 b) in Hb; exact Hb).
  assert (Hx : (x * inject_Z b == inject_Z a)%Q).
  { unfold x. field. intros H. rewrite H in Hpos. apply (Qlt_irrefl 0 Hpos). }
  split.
  - rewrite Zle_Qle. rewrite inject_Z_mult, <- Hx.
    apply Qmult_le_compat_r; [apply Qle_ceiling | apply Qlt_le_weak, Hpos].
  - rewrite Zlt_Qlt. rewrite inject_Z_mult, <- Hx.
    apply Qmult_lt_compat_r; [exact Hpos|].
    apply Qceiling_lt.
Qed.

Lemma slice_from (A : Type) (arr : list A) (start end_ : Z) :
  (0 <= start <= end_)%Z ->
  slice arr start end_ = take (Z.to_nat (end_ - start)) (drop (Z.to_nat start) arr).
Proof.
  intros H. unfold slice.
  destruct (Z.ltb_spec start 0) as [?|_]; [lia|].
  destruct (Z.ltb_spec end_ 0) as [?|_]; [lia|].
  destruct (Z.le_gt_cases (Z.of_nat (length arr)) start) as [Hout|Hin].
  - rewrite !drop_ge by lia. rewrite !take_nil. reflexivity.
  - rewrite (Z.min_l start) by lia.
    destruct (Z.le_gt_cases end_ (Z.of_nat (length arr))) as [Hend|Hend].
    + rewrite Z.min_l by lia. reflexivity.
    + rewrite Z.min_r by lia. rewrite !take_ge; [reflexivity | |]; rewrite length_drop; lia.
Qed.

Lemma page_data (data : list (gmap string jsval)) (p : nat) (pageSize : Z) :
  (1 <= pageSize)%Z ->
  Paging.data (paginateData data (Z.of_nat (S p)) pageSize)
  = take (Z.to_nat pageSize) (drop (p * Z.to_nat pageSize) data).
Proof.
  intros Hsize. unfold paginateData. cbn [Paging.data].
  rewrite slice_from by nia.
  f_equal; [f_equal; lia|]. f_equal. nia.
Qed.

Lemma pages_through_take (data : list (gmap string jsval)) (pageSize : Z) (n : nat) :
  (1 <= pageSize)%Z ->
  pages_through data pageSize n = take (n * Z.to_nat pageSize) data.
Proof.
  intros Hsize. unfold pages_through. induction n as [|n IH].
  - reflexivity.
  - rewrite seq_S, map_app, concat_app, IH. cbn [List.map concat Nat.add].
    rewrite app_nil_r, page_data by exact Hsize.
    rewrite take_take_drop. f_equal. lia.
Qed.

(** X11. Pagination with a page size of at least 1 loses and repeats
    nothing: the page count is the least number of pages that hold the
    data, pages 1 to that number put one after the other are the data, each
    of them holds at least one and at most [pageSize] records, and every
    later page is empty. *)
Theorem pages_partition_the_data (data : list (gmap string jsval)) (pageSize : Z) :
  (1 <= pageSize)%Z ->
  exists n : nat,
    (forall page, totalPages (paginateData data page pageSize) = of_nat n)
    /\ (Z.of_nat (length data) <= Z.of_nat n * pageSize
        < Z.of_nat (length data) + pageSize)%Z
    /\ pages_through data pageSize n = data
    /\ (forall p, (1 <= p <= n)%nat ->
          (1 <= Z.of_nat (length (Paging.data (paginateData data (Z.of_nat p) pageSize)))
           <= pageSize)%Z)
    /\ (forall p, (n < p)%nat ->
          Paging.data (paginateData data (Z.of_nat p) pageSize) = []).
Proof.
  intros Hsize.
  destruct (ceiling_of_quotient (Z.of_nat (length data)) pageSize ltac:(lia))
    as [Hup Hdown].
  set (c := Qceiling (inject_Z (Z.of_nat (length data)) / inject_Z pageSize)) in *.
  assert (Hc : (0 <= c)%Z) by nia.
  exists (Z.to_nat c). rewrite Z2Nat.id by exact Hc.
  split; [|split; [|split; [|split]]].
  - intros page. unfold paginateData. cbn [totalPages]. unfold of_nat, of_Z, div.
    destruct (Qeq_bool (inject_Z pageSize) 0) eqn:Hzero.
    + apply Qeq_bool_eq in Hzero. rewrite (inject_Z_injective pageSize 0) in Hzero.
      lia.
    + cbn [Math_ceil]. fold c. rewrite Z2Nat.id by exact Hc. reflexivity.
  - nia.
  - rewrite pages_through_take by exact Hsize. apply take_ge. nia.
  - intros [|p] Hp; [lia|]. rewrite page_data by exact Hsize.
    rewrite length_take, length_drop. nia.
  - intros [|p] Hp; [lia|]. rewrite page_data by exact Hsize.
    rewrite drop_ge; [apply take_nil | nia].
Qed.
End PagingProperties.

Lemma pages_partition_the_data_witness :
  exists n : nat,
    Further.pages_through
      [Examples.scenario_record; Examples.only_organization_x; Examples.only_branch_x] 2 n
    = [Examples.scenario_record; Examples.only_organization_x; Examples.only_branch_x].
Proof.
  destruct (pages_partition_the_data
              [Examples.scenario_record; Examples.only_organization_x;
               Examples.only_branch_x] 2 ltac:(lia))
    as (n & _ & _ & H & _).
  exists n. exact H.
Defined.

(** ** Record validation *)

Section ValidationProperties.
Import JsNumber Validation Further.
Local Open Scope Q_scope.

Lemma push_if_empty (condition : bool) (message : string) (messages : list string) :
  length (push_if condition message messages) = 0%nat
  <-> condition = false /\ length messages = 0%nat.
Proof.
  unfold push_if. destruct condition.
  - rewrite length_app. simpl. split; [lia | intros [H _]; discriminate H].
  - split; [intros H; split; [reflexivity | exact H] | intros [_ H]; exact H].
Qed.

Lemma lt_true (x y : Q) : negb (Qle_bool y x) = true <-> x < y.
Proof.
  rewrite negb_true_iff, <- not_true_iff_false, Qle_bool_iff.
  split; [apply Qnot_le_lt | apply Qlt_not_le].
Qed.

Lemma lt_false (x y : Q) : negb (Qle_bool y x) = false <-> y <= x.
Proof. rewrite negb_false_iff. apply Qle_bool_iff. Qed.

Lemma nonzero_iff (q : Q) : negb (Qeq_bool q 0) = true <-> ~ q == 0.
Proof.
  rewrite negb_true_iff, <- not_true_iff_false, Qeq_bool_iff. reflexivity.
Qed.

(** A required field with a range is accepted when it is a number in the
    range. *)
Lemma ranged_field_accepted (v : option number) (lo hi : Z) :
  (0 < lo)%Z ->
  (negb (present v) = false
   /\ present_and v (fun n => lt n (of_Z lo) || gt n (of_Z hi)) = false)
  <-> within lo hi v.
Proof.
  intros Hlo. unfold within, present, present_and, gt, of_Z.
  assert (Hpos : 0 < inject_Z lo) by (rewrite (Zlt_Qlt 0 lo) in Hlo; exact Hlo).
  destruct v as [[q| |[]]|]; cbn [truthy lt].
  - rewrite negb_false_iff. split.
    + intros [Hq Htest]. rewrite Hq in Htest. cbn [andb] in Htest.
      apply orb_false_iff in Htest as [H1 H2]. apply lt_false in H1, H2.
      exists q. repeat split; assumption.
    + intros (q' & [= <-] & H1 & H2).
      assert (Hq : negb (Qeq_bool q 0) = true).
      { apply nonzero_iff. intros H. rewrite H in H1. apply (Qlt_irrefl 0).
        eapply Qlt_le_trans; eassumption. }
      rewrite Hq. split; [reflexivity|]. cbn [andb].
      apply orb_false_iff. split; apply lt_false; assumption.
  - split; [intros [H _]; discriminate H | intros (q & H & _); discriminate H].
  - split; [intros [_ H]; discriminate H | intros (q & H & _); discriminate H].
  - split; [intros [_ H]; discriminate H | intros (q & H & _); discriminate H].
  - split; [intros [H _]; discriminate H | intros (q & H & _); discriminate H].
Qed.

Lemma count_accepted (v : option number) :
  negb (present v) || match v with Some n => le n (of_Z 0) | None => false end = false
  <-> above_zero v.
Proof.
  unfold above_zero, present, of_Z.
  destruct v as [[q| |[]]|]; cbn [truthy le lt negb orb andb];
    try (split; [intros H; discriminate H | intros []]);
    try (split; [reflexivity | intros _; reflexivity]).
  rewrite orb_false_iff, !negb_false_iff. split.
  - intros [Hq H]. apply lt_true in H. exact H.
  - intros H. split; [|apply lt_true; exact H].
    apply nonzero_iff. intros Hz. rewrite Hz in H. apply (Qlt_irrefl 0 H).
Qed.

Lemma amount_accepted (v : option number) :
  present_and v (fun n => lt n (of_Z 0)) = false <-> not_below_zero v.
Proof.
  unfold not_below_zero, present_and, of_Z.
  destruct v as [[q| |[]]|]; cbn [truthy lt negb andb];
    try (split; [intros H; discriminate H | intros []]);
    try (split; [intros _; exact I | intros _; reflexivity]).
  rewrite andb_false_iff. split.
  - intros [Hq|Hq].
    + apply negb_false_iff, Qeq_bool_iff in Hq. rewrite Hq. apply Qle_refl.
    + apply lt_false in Hq. exact Hq.
  - intros H. right. apply lt_false. exact H.
Qed.

(** X12. [validateRecord] accepts a record exactly when its year is a
    number from 2020 to 2030, its week a number from 1 to 53, its policy
    count above zero, and none of its three premium and claim amounts is
    below zero. A missing or [NaN] amount is accepted, a week need not be an
    integer, and the two consistency checks only warn. *)
Theorem validateRecord_accepts_exactly (record : PartialRecord) :
  isValid (validateRecord record) = true
  <-> within 2020 2030 (policy_start_year record)
      /\ within 1 53 (week_number record)
      /\ above_zero (policy_count record)
      /\ not_below_zero (signed_premium_yuan record)
      /\ not_below_zero (matured_premium_yuan record)
      /\ not_below_zero (reported_claim_payment_yuan record).
Proof.
  unfold validateRecord. cbn [isValid]. rewrite Nat.eqb_eq.
  rewrite !push_if_empty.
  rewrite <- (ranged_field_accepted (policy_start_year record) 2020 2030) by lia.
  rewrite <- (ranged_field_accepted (week_number record) 1 53) by lia.
  rewrite <- count_accepted, <- !amount_accepted.
  cbn [length]. tauto.
Qed.
End ValidationProperties.

(** ** Growth rates and moving averages *)

Section SeriesProperties.
Import JsNumber Series.
Local Open Scope Q_scope.

Lemma nonzero_divisor (q : Q) : ~ q == 0 -> Qeq_bool q 0 = false.
Proof. intros H. apply not_true_iff_false. rewrite Qeq_bool_iff. exact H. Qed.


Lemma sum_of_numbers (values : list Q) (start : Q) :
  fold_left add (List.map Finite values) (Finite start)
  = Finite (fold_left Qplus values start).
Proof.
  revert start. induction values as [|v values IH]; intros start; [reflexivity|].
  simpl. apply IH.
Qed.

Lemma fold_sum_bounds (values : list Q) (lo hi start : Q) :
  Forall (fun v => lo <= v <= hi) values ->
  start + inject_Z (Z.of_nat (length values)) * lo <= fold_left Qplus values start
  /\ fold_left Qplus values start <= start + inject_Z (Z.of_nat (length values)) * hi.
Proof.
  intros H. revert start. induction H as [|v values [Hlo Hhi] _ IH]; intros start.
  - simpl. split; ring_simplify; apply Qle_refl.
  - cbn [fold_left length]. destruct (IH (start + v)) as [IHlo IHhi].
    rewrite Nat2Z.inj_succ. unfold Z.succ. rewrite inject_Z_plus.
    change (inject_Z 1) with 1.
    split.
    + eapply Qle_trans; [|exact IHlo]. lra.
    + eapply Qle_trans; [exact IHhi|]. lra.
Qed.


(** X15. A window of zero is not refused: the result has one [NaN] for
    each value and one more. *)
Theorem moving_average_of_zero_window (values : list number) :
  calculateMovingAverage values 0 = replicate (S (length values)) NaN.
Proof.
  unfold calculateMovingAverage.
  destruct (Z.ltb_spec (Z.of_nat (length values)) 0) as [?|_]; [lia|].
  replace (Z.of_nat (length values) - (0 - 1))%Z
    with (Z.of_nat (S (length values))) by lia.
  unfold seqZ. rewrite Nat2Z.id.
  change (@List.map Z number ?f ((fun i => Z.of_nat i + (0 - 1))%Z <$> ?l))
    with (f <$> ((fun i => Z.of_nat i + (0 - 1))%Z <$> l)).
  rewrite <- list_fmap_compose.
  generalize (S (length values)) as n. generalize 0%nat as from.
  intros from n. revert from. induction n as [|n IH]; intros from; [reflexivity|].
  cbn [seq fmap list_fmap replicate]. f_equal; [|apply IH].
  cbn [compose]. unfold slice.
  replace (Z.of_nat from + (0 - 1) - 0 + 1)%Z with (Z.of_nat from + (0 - 1) + 1)%Z by lia.
  rewrite Z.sub_diag. reflexivity.
Qed.
End SeriesProperties.


(** ** The performance monitor *)

Section MonitorProperties.
Import PerformanceMonitor Further.
Local Open Scope Q_scope.

Lemma addMetrics_limit (monitor : PerformanceMonitor.PerformanceMonitor)
    (m : PerformanceMetrics) :
  maxMetrics (addMetrics monitor m) = maxMetrics monitor.
Proof. reflexivity. Qed.

Lemma drop_succ_tail {A} (n : nat) (l : list A) : drop (S n) l = drop n (tail l).
Proof. destruct l; [cbn [tail]; rewrite !drop_nil|]; reflexivity. Qed.

Lemma window_of_metrics (ms : list PerformanceMetrics) :
  forall monitor : PerformanceMonitor.PerformanceMonitor,
    (Z.of_nat (length (metrics monitor)) <= maxMetrics monitor)%Z ->
    metrics (fold_left addMetrics ms monitor)
    = drop (length (metrics monitor ++ ms) - Z.to_nat (maxMetrics monitor))
           (metrics monitor ++ ms).
Proof.
  induction ms as [|m ms IH]; intros monitor Hfits.
  - simpl. rewrite app_nil_r.
    replace (length (metrics monitor) - Z.to_nat (maxMetrics monitor))%nat with 0%nat
      by lia.
    reflexivity.
  - cbn [fold_left]. rewrite IH; rewrite addMetrics_limit.
    + unfold addMetrics. cbn [metrics].
      generalize dependent (metrics monitor). intros current Hfits.
      destruct (Z.gtb_spec (Z.of_nat (length (current ++ [m])))
                           (maxMetrics monitor)) as [Hover|Hroom].
      * rewrite length_app in Hover. cbn [length] in Hover.
        destruct current as [|first current].
        -- cbn [app tail length] in *.
           replace (S (length ms) - Z.to_nat (maxMetrics monitor))%nat
             with (S (length ms - Z.to_nat (maxMetrics monitor))) by lia.
           reflexivity.
        -- cbn [app tail length] in *. rewrite <- app_assoc. cbn [app].
           rewrite !length_app in *. cbn [length] in *.
           replace (S (length current + S (length ms)) - Z.to_nat (maxMetrics monitor))%nat
             with (S (length current + S (length ms) - Z.to_nat (maxMetrics monitor)))
             by lia.
           reflexivity.
      * rewrite <- app_assoc. reflexivity.
    + unfold addMetrics. cbn [metrics].
      generalize dependent (metrics monitor). intros current Hfits.
      destruct (Z.gtb_spec (Z.of_nat (length (current ++ [m])))
                           (maxMetrics monitor)) as [Hover|Hroom]; [|exact Hroom].
      rewrite length_app in Hover. cbn [length] in Hover.
      destruct current; cbn [app tail length] in *; [lia|].
      rewrite length_app. cbn [length]. lia.
Qed.

(** X16. The monitor keeps the most recent hundred measurements: after
    any number of them on a new monitor it holds the last 100 in the order
    they were made, all of them while there are at most 100. *)
Theorem monitor_keeps_the_last_hundred (ms : list PerformanceMetrics) :
  metrics (fold_left addMetrics ms new) = drop (length ms - 100) ms
  /\ (length (metrics (fold_left addMetrics ms new)) <= 100)%nat.
Proof.
  assert (H : metrics (fold_left addMetrics ms new) = drop (length ms - 100) ms).
  { rewrite window_of_metrics by (cbn; lia). reflexivity. }
  split; [exact H|]. rewrite H, length_drop. lia.
Qed.

Lemma total_from (field : PerformanceMetrics -> Q) (ms : list PerformanceMetrics) (start : Q) :
  fold_left (fun sum m => sum + field m) ms start == start + total field ms.
Proof.
  unfold total. revert start. induction ms as [|m ms IH]; intros start; simpl.
  - ring.
  - rewrite (IH (start + field m)), (IH (0 + field m)). ring.
Qed.

Lemma total_zero (field : PerformanceMetrics -> Q) (ms : list PerformanceMetrics) :
  Forall (fun m => field m == 0) ms -> total field ms == 0.
Proof.
  induction 1 as [|m ms Hm _ IH]; [reflexivity|].
  unfold total. cbn [fold_left]. rewrite total_from, Hm, IH. ring.
Qed.

Lemma count_positive (n : nat) : n <> 0%nat -> 0 < inject_Z (Z.of_nat n).
Proof.
  intros Hn. assert (H : (0 < Z.of_nat n)%Z) by lia. rewrite Zlt_Qlt in H. exact H.
Qed.

(** X17. The cache hit rate of the statistics is a percentage: it lies
    between 0 and 100 for every monitor, it is 0 for a monitor without
    measurements, and it is 100 exactly when every measurement was a hit. *)
Theorem hit_rate_is_a_percentage (monitor : PerformanceMonitor.PerformanceMonitor) :
  0 <= cacheHitRate (getStats monitor) <= 100
  /\ totalQueries (getStats monitor) = length (metrics monitor)
  /\ (metrics monitor <> [] ->
      (cacheHitRate (getStats monitor) == 100
       <-> Forall (fun m => cacheHit m = true) (metrics monitor))).
Proof.
  unfold getStats. destruct (metrics monitor) as [|m ms] eqn:Hms.
  - cbn. split; [split; discriminate|]. split; [reflexivity|]. intros H. congruence.
  - cbn [length Nat.eqb cacheHitRate totalQueries].
    set (n := S (length ms)).
    set (hits := length (List.filter cacheHit (m :: ms))).
    assert (Hhits : (hits <= n)%nat) by apply filter_length_le.
    assert (Hn : 0 < inject_Z (Z.of_nat n)) by (apply count_positive; discriminate).
    assert (Hle : inject_Z (Z.of_nat hits) <= inject_Z (Z.of_nat n)).
    { rewrite <- Zle_Qle. lia. }
    assert (H0 : 0 <= inject_Z (Z.of_nat hits)).
    { change 0 with (inject_Z 0). rewrite <- Zle_Qle. lia. }
    assert (Hrate : inject_Z (Z.of_nat hits) / inject_Z (Z.of_nat n) * 100 == 100
                    <-> hits = n).
    { split.
      - intros H.
        assert (Heq : inject_Z (Z.of_nat hits) == inject_Z (Z.of_nat n)).
        { assert (Hq : inject_Z (Z.of_nat hits)
                       == inject_Z (Z.of_nat hits) / inject_Z (Z.of_nat n) * 100
                          * (inject_Z (Z.of_nat n) / 100))
            by (field; intros Hz; rewrite Hz in Hn; apply (Qlt_irrefl 0 Hn)).
          rewrite H in Hq. rewrite Hq. field. }
        apply Nat2Z.inj, inject_Z_injective. exact Heq.
      - intros ->. field. intros Hz. rewrite Hz in Hn. apply (Qlt_irrefl 0 Hn). }
    split; [split|split; [reflexivity|]].
    + apply Qmult_le_0_compat; [|discriminate].
      apply Qle_shift_div_l; [exact Hn|]. rewrite Qmult_0_l. exact H0.
    + apply Qle_trans with (1 * 100); [|rewrite Qmult_1_l; apply Qle_refl].
      apply Qmult_le_compat_r; [|discriminate].
      apply Qle_shift_div_r; [exact Hn|]. rewrite Qmult_1_l. exact Hle.
    + intros _. rewrite Hrate. unfold hits, n.
      change (S (length ms)) with (length (m :: ms)).
      generalize (m :: ms) as l. intros l. split.
      * intros H. induction l as [|x l IH]; [constructor|].
        cbn [List.filter] in H. destruct (cacheHit x) eqn:Hx.
        -- cbn [length] in H. constructor; [exact Hx|]. apply IH. lia.
        -- pose proof (filter_length_le cacheHit l). cbn [length] in H. lia.
      * induction 1 as [|x l Hx _ IH]; [reflexivity|].
        cbn [List.filter]. rewrite Hx. cbn [length]. rewrite IH. reflexivity.
Qed.

Lemma measured_render_times (samples : list measurement) :
  forall monitor : PerformanceMonitor.PerformanceMonitor,
    Forall (fun m => renderTime m == 0) (metrics monitor) ->
    Forall (fun m => renderTime m == 0)
           (metrics (fold_left (fun monitor s => snd (measure monitor s)) samples monitor)).
Proof.
  induction samples as [|s samples IH]; intros monitor H; [exact H|].
  cbn [fold_left]. apply IH. unfold measure, addMetrics. cbn [snd metrics].
  assert (Hpushed : Forall (fun m => renderTime m == 0)
                           (metrics monitor
                            ++ [{| queryTime := endTime s - startTime s;
                                   renderTime := 0;
                                   dataSize :=
                                     if Qeq_bool (size s) 0
                                     then heap_or_zero (endHeap s)
                                          - heap_or_zero (startHeap s)
                                     else size s;
                                   cacheHit := hit s |}])).
  { apply Forall_app. split; [exact H|]. repeat constructor. }
  destruct (_ >? _)%Z; [|exact Hpushed].
  destruct (metrics monitor ++ _) as [|x l]; [constructor|].
  apply Forall_cons in Hpushed as [_ Hl]. exact Hl.
Qed.

(** X18. No measurement records a render time: on a monitor fed by
    [startMeasure] the average render time is 0, the render check always
    passes, and the overall check is the query-time check. *)
Theorem render_time_is_never_measured (samples : list measurement) :
  avgRenderTime (getStats (measured samples)) == 0
  /\ renderTimeOk (checkPerformance (measured samples)) = true
  /\ overallOk (checkPerformance (measured samples))
     = queryTimeOk (checkPerformance (measured samples)).
Proof.
  assert (Havg : avgRenderTime (getStats (measured samples)) == 0).
  { pose proof (measured_render_times samples new (Forall_nil_2 _)) as H.
    fold (measured samples) in H. unfold getStats.
    destruct (metrics (measured samples)) as [|m ms] eqn:Hms; [reflexivity|].
    cbn [length Nat.eqb avgRenderTime]. rewrite (total_zero renderTime (m :: ms) H).
    unfold Qdiv. apply Qmult_0_l. }
  assert (Hok : renderTimeOk (checkPerformance (measured samples)) = true).
  { unfold checkPerformance. cbn [renderTimeOk]. unfold less.
    apply negb_true_iff, not_true_iff_false. rewrite Qle_bool_iff, Havg.
    intros H. apply H. reflexivity. }
  split; [exact Havg|]. split; [exact Hok|].
  unfold checkPerformance in *. cbn [renderTimeOk overallOk queryTimeOk] in *.
  rewrite Hok. apply andb_true_r.
Qed.
End MonitorProperties.

(** ** The data optimizer *)

Section OptimizerProperties.
Import DataOptimizer Further.
Context {T : Type}.
Variable sameValueZero : T -> T -> bool.
Variable keyFn : T -> string.

Lemma keepUnseen_sublist (data : list T) : forall seen,
  sublist (keepUnseen keyFn data seen) data.
Proof.
  induction data as [|item data IH]; intros seen; cbn [keepUnseen].
  - constructor.
  - destruct (bool_decide _); [apply sublist_cons | apply sublist_skip]; apply IH.
Qed.

Lemma keepUnseen_fresh (data : list T) : forall seen item,
  item ∈ keepUnseen keyFn data seen -> keyFn item ∉ seen.
Proof.
  induction data as [|first data IH]; intros seen item; cbn [keepUnseen].
  - intros H. apply elem_of_nil in H. contradiction.
  - destruct (bool_decide_reflect (keyFn first ∈ seen)) as [Hseen|Hnew].
    + apply IH.
    + intros H. apply elem_of_cons in H as [->|H]; [exact Hnew|].
      apply IH in H. set_solver.
Qed.

Lemma keepUnseen_NoDup (data : list T) : forall seen,
  NoDup (List.map keyFn (keepUnseen keyFn data seen)).
Proof.
  induction data as [|first data IH]; intros seen; cbn [keepUnseen].
  - constructor.
  - destruct (bool_decide_reflect (keyFn first ∈ seen)) as [Hseen|Hnew]; [apply IH|].
    cbn [List.map]. constructor; [|apply IH].
    intros H. apply list_elem_of_fmap in H as (item & Hkey & Hitem).
    apply keepUnseen_fresh in Hitem. set_solver.
Qed.

Lemma keepUnseen_first (data : list T) (key : string) : forall seen,
  key ∉ seen ->
  head (items_with keyFn key (keepUnseen keyFn data seen))
  = head (items_with keyFn key data).
Proof.
  unfold items_with.
  induction data as [|first data IH]; intros seen Hkey; cbn [keepUnseen]; [reflexivity|].
  cbn [List.filter].
  destruct (bool_decide_reflect (keyFn first ∈ seen)) as [Hseen|Hnew].
  - destruct (String.eqb_spec (keyFn first) key) as [Heq|Hneq]; [congruence|].
    apply IH. exact Hkey.
  - cbn [List.filter].
    destruct (String.eqb_spec (keyFn first) key) as [Heq|Hneq]; [reflexivity|].
    apply IH. apply not_elem_of_union. split; [|exact Hkey].
    apply not_elem_of_singleton. congruence.
Qed.

(** X19. [deduplicate] with a key function keeps, for every key, the
    first item of the data that has it and no other: the result is a
    sub-list of the data in input order, its keys are pairwise different, and
    for each key its item is the first one of the data with that key. *)
Theorem deduplicate_keeps_the_first_of_each_key (data : list T) :
  let result := deduplicate sameValueZero data (Some keyFn) in
  sublist result data
  /\ NoDup (List.map keyFn result)
  /\ forall key, head (items_with keyFn key result) = head (items_with keyFn key data).
Proof.
  cbn [deduplicate]. split; [apply keepUnseen_sublist|].
  split; [apply keepUnseen_NoDup|].
  intros key. apply keepUnseen_first. set_solver.
Qed.

Lemma Map_get_set (key k : string) (value : list T) (m : list (string * list T)) :
  Map_get k (Map_set key value m)
  = if String.eqb key k then Some value else Map_get k m.
Proof.
  induction m as [|[k' v] m IH]; cbn [Map_set Map_get].
  - destruct (String.eqb_spec key k); reflexivity.
  - destruct (String.eqb_spec k' key) as [->|Hneq]; cbn [Map_get].
    + destruct (String.eqb_spec key k); reflexivity.
    + destruct (String.eqb_spec k' k) as [->|Hneq'].
      * destruct (String.eqb_spec key k); [congruence | reflexivity].
      * exact IH.
Qed.

Lemma default_if_nonempty (l : list T) : default [] (if_nonempty l) = l.
Proof. destruct l; reflexivity. Qed.

Lemma groupBy_snoc (data : list T) (item : T) (maxGroupSize : Z) :
  groupBy (data ++ [item]) keyFn maxGroupSize
  = groupBy_step keyFn maxGroupSize (groupBy data keyFn maxGroupSize) item.
Proof. unfold groupBy. rewrite fold_left_app. reflexivity. Qed.

(** X20. [groupBy] puts under each key the items of the data with that
    key, in input order, up to [maxGroupSize] of them: the items of a key
    beyond that number are left out without notice, and a key has no entry
    when no item has it or when the maximum is zero or less. *)
Theorem groupBy_caps_each_group (data : list T) (maxGroupSize : Z) (key : string) :
  Map_get key (groupBy data keyFn maxGroupSize)
  = if_nonempty (take (Z.to_nat maxGroupSize) (items_with keyFn key data)).
Proof.
  induction data as [|item data IH] using rev_ind;
    [unfold items_with; cbn [List.filter]; rewrite take_nil; reflexivity|].
  rewrite groupBy_snoc. unfold groupBy_step, items_with in *.
  rewrite List.filter_app. cbn [List.filter].
  destruct (String.eqb_spec (keyFn item) key) as [Heq|Hneq].
  - subst key. rewrite IH, default_if_nonempty.
    set (members := List.filter (fun item0 => String.eqb (keyFn item0) (keyFn item)) data)
      in *.
    destruct (Z.ltb_spec (Z.of_nat (length (take (Z.to_nat maxGroupSize) members)))
                         maxGroupSize) as [Hroom|Hfull].
    + rewrite Map_get_set, String.eqb_refl. rewrite length_take in Hroom.
      rewrite (take_ge members) by lia.
      rewrite take_ge by (rewrite length_app; cbn [length]; lia).
      destruct members; reflexivity.
    + rewrite IH. rewrite length_take in Hfull.
      rewrite take_app_le by lia. reflexivity.
  - rewrite app_nil_r. destruct (_ <? _)%Z; [|exact IH].
    rewrite Map_get_set. destruct (String.eqb_spec (keyFn item) key); [congruence|].
    exact IH.
Qed.
End OptimizerProperties.

Section CompressProperties.
Import DataOptimizer MetricCalculator.
Variable Number_toString : Q -> string.

Lemma compressed_field (item : gmap string jsval) (field : string) :
  get (filter (fun entry => kept (snd entry) = true) item) field
  = if kept (get item field) then get item field else JUndefined.
Proof.
  unfold get. destruct (item !! field) as [v|] eqn:Hv.
  - change (default JUndefined (Some v)) with v. destruct (kept v) eqn:Hkept.
    + rewrite (proj2 (map_lookup_filter_Some _ item field v)); [reflexivity|].
      split; [exact Hv | exact Hkept].
    + rewrite (proj2 (map_lookup_filter_None _ item field)); [reflexivity|].
      right. intros v' Hv'. cbn. congruence.
  - rewrite (proj2 (map_lookup_filter_None _ item field)); [|left; exact Hv].
    destruct (kept JUndefined); reflexivity.
Qed.

Lemma kept_false (v : jsval) :
  kept v = false -> v = JNull \/ v = JUndefined \/ v = JString "".
Proof.
  unfold kept. destruct v as [| |b|q| |s]; cbn; try discriminate; auto.
  destruct (String.eqb_spec s ""); [subst; auto | discriminate].
Qed.

Lemma compressed_keyPart (item : gmap string jsval) (field : string) :
  keyPart Number_toString (filter (fun entry => kept (snd entry) = true) item) field
  = keyPart Number_toString item field.
Proof.
  unfold keyPart. rewrite compressed_field.
  destruct (kept (get item field)) eqn:Hkept; [reflexivity|].
  apply kept_false in Hkept as [->|[->| ->]]; reflexivity.
Qed.

Lemma compressed_number (item : gmap string jsval) (field : string) :
  numeric_or_zero (get (filter (fun entry => kept (snd entry) = true) item) field)
  = numeric_or_zero (get item field).
Proof.
  rewrite compressed_field.
  destruct (kept (get item field)) eqn:Hkept; [reflexivity|].
  apply kept_false in Hkept as [->|[->| ->]]; reflexivity.
Qed.

(** X21. [compress] removes the fields that are [null], [undefined] or
    the empty string and changes no other: reading a field of a compressed
    record gives the value it had, or [undefined] where it was one of the
    three. The metric calculator does not see the difference: the grouping
    key of every record and every sum are as before, and compressing twice is
    compressing once. *)
Theorem compress_is_invisible_to_the_aggregator (data : list (gmap string jsval))
    (fields : list string) (field : string) :
  Forall2 (fun item compressed =>
             forall f, get compressed f
                       = if kept (get item f) then get item f else JUndefined)
          data (compress data)
  /\ List.map (groupKey Number_toString fields) (compress data)
     = List.map (groupKey Number_toString fields) data
  /\ safeSum (compress data) field = safeSum data field
  /\ compress (compress data) = compress data.
Proof.
  split; [|split; [|split]].
  - unfold compress. induction data as [|item data IH]; constructor; [|exact IH].
    intros f. apply compressed_field.
  - unfold compress. rewrite List.map_map. apply map_ext. intros item.
    unfold groupKey. f_equal. apply map_ext. intros f. apply compressed_keyPart.
  - unfold safeSum, compress. generalize 0%Q as start.
    induction data as [|item data IH]; intros start; [reflexivity|].
    cbn [List.map fold_left]. rewrite compressed_number. apply IH.
  - unfold compress. rewrite List.map_map. apply map_ext. intros item.
    apply map_eq. intros f.
    destruct (filter _ item !! f) as [v|] eqn:Hv.
    + apply map_lookup_filter_Some. split; [exact Hv|].
      apply map_lookup_filter_Some in Hv as [_ Hkept]. exact Hkept.
    + apply map_lookup_filter_None. left. exact Hv.
Qed.
End CompressProperties.

(** ** The chunk loader *)

Section ChunkProperties.
Import JsNumber ChunkLoader.
Local Open Scope Q_scope.

(** X22. [loadChunks] with a start and a count that are not negative
    cuts the next chunk off the data from the start on: that part of the
    data is the chunk followed by the data from [nextIndex] on, the chunk has
    at most [count] items, exactly [count] while more remain, and [hasMore]
    tells whether anything remains. *)
Theorem loadChunks_cuts_the_next_chunk {T} (loader : ChunkLoader.ChunkLoader)
    (data : list T) (start count : Z) :
  (0 <= start)%Z -> (0 <= count)%Z ->
  let result := fst (loadChunks loader data start count) in
  drop (Z.to_nat start) data = chunk result ++ drop (Z.to_nat (nextIndex result)) data
  /\ (Z.of_nat (length (chunk result)) <= count)%Z
  /\ (hasMore result = true -> Z.of_nat (length (chunk result)) = count)
  /\ (hasMore result = false <-> nextIndex result = Z.of_nat (length data)).
Proof.
  intros Hstart Hcount. unfold loadChunks. cbn [fst chunk nextIndex hasMore].
  set (len := Z.of_nat (length data)).
  assert (Hslice : slice data start (Z.min (start + count) len)
                   = take (Z.to_nat (Z.min (start + count) len - start))
                          (drop (Z.to_nat start) data)).
  { unfold slice. fold len.
    destruct (Z.ltb_spec start 0) as [?|_]; [lia|].
    destruct (Z.ltb_spec (Z.min (start + count) len) 0) as [?|_]; [lia|].
    rewrite (Z.min_l (Z.min (start + count) len) len) by lia.
    destruct (Z.le_gt_cases len start) as [Hout|Hin].
    - rewrite !drop_ge by lia. rewrite !take_nil. reflexivity.
    - rewrite (Z.min_l start len) by lia. reflexivity. }
  rewrite Hslice. split; [|split; [|split]].
  - destruct (Z.le_gt_cases len start) as [Hout|Hin].
    + rewrite !drop_ge by lia. rewrite take_nil. reflexivity.
    + rewrite <- (take_drop (Z.to_nat (Z.min (start + count) len - start))
                            (drop (Z.to_nat start) data)) at 1.
      f_equal. rewrite drop_drop. f_equal. lia.
  - rewrite length_take, length_drop. lia.
  - intros Hmore. apply Z.ltb_lt in Hmore. rewrite length_take, length_drop. lia.
  - rewrite Z.ltb_ge. lia.
Qed.

Lemma Set_delete_length (s : list number) (v : number) :
  (length (Set_delete s v) <= length s)%nat.
Proof. apply filter_length_le. Qed.

Lemma step_keeps_the_bound {T} (loader : ChunkLoader.ChunkLoader) (e : event T) :
  (Z.of_nat (length (loadingChunks loader)) <= maxConcurrent (config loader))%Z ->
  config (step loader e) = config loader
  /\ (Z.of_nat (length (loadingChunks (step loader e)))
      <= maxConcurrent (config loader))%Z.
Proof.
  intros Hbound.
  assert (Hpreload : forall index,
             config (preloadNext loader index) = config loader
             /\ (Z.of_nat (length (loadingChunks (preloadNext loader index)))
                 <= maxConcurrent (config loader))%Z).
  { intros index. unfold preloadNext.
    destruct (Set_has _ _) eqn:Hhas; cbn [orb]; [split; [reflexivity | exact Hbound]|].
    destruct (Z.geb_spec (Z.of_nat (length (loadingChunks loader)))
                         (maxConcurrent (config loader))) as [Hfull|Hroom];
      [split; [reflexivity | exact Hbound]|].
    cbn [config loadingChunks]. unfold Set_add. rewrite Hhas.
    rewrite length_app. cbn [length]. split; [reflexivity | lia]. }
  destruct e as [data start count|index]; cbn [step].
  - unfold loadChunks. cbn [snd].
    destruct (_ && _); [apply Hpreload | split; [reflexivity | exact Hbound]].
  - unfold preloadDone. cbn [config loadingChunks]. split; [reflexivity|].
    pose proof (Set_delete_length (loadingChunks loader) index). lia.
Qed.

(** X23. The preloads in flight never exceed [maxConcurrent]: along
    every sequence of loads and timers on a new loader whose maximum is not
    negative, the set of chunks being preloaded has at most that many
    members. *)
Theorem preloads_stay_within_the_maximum {T} (cfg : ChunkConfig) (events : list (event T)) :
  (0 <= maxConcurrent cfg)%Z ->
  (Z.of_nat (length (loadingChunks (fold_left step events (new cfg))))
   <= maxConcurrent cfg)%Z.
Proof.
  intros Hmax.
  assert (H : forall loader : ChunkLoader.ChunkLoader,
             config loader = cfg ->
             (Z.of_nat (length (loadingChunks loader)) <= maxConcurrent cfg)%Z ->
             (Z.of_nat (length (loadingChunks (fold_left step events loader)))
              <= maxConcurrent cfg)%Z).
  { induction events as [|e events IH]; intros loader Hcfg Hbound; [exact Hbound|].
    cbn [fold_left]. rewrite <- Hcfg in Hbound.
    destruct (step_keeps_the_bound loader e Hbound) as [Hcfg' Hbound'].
    apply IH; [congruence | rewrite <- Hcfg; exact Hbound']. }
  apply H; [reflexivity | cbn; lia].
Qed.

Lemma floor_bounds (x : Q) : inject_Z (Qfloor x) <= x /\ x < inject_Z (Qfloor x) + 1.
Proof.
  split; [apply Qfloor_le|]. pose proof (Qlt_floor x) as H.
  rewrite inject_Z_plus in H. exact H.
Qed.

Lemma inject_sub (a b : Z) : inject_Z a + - inject_Z b = inject_Z (a - b).
Proof. unfold Qplus, Qopp, inject_Z. cbn [Qnum Qden]. f_equal. lia. Qed.

Lemma inject_add (a b : Z) : inject_Z a + inject_Z b = inject_Z (a + b).
Proof. unfold Qplus, inject_Z. cbn [Qnum Qden]. f_equal. lia. Qed.

Lemma inject_mul (a b : Z) : inject_Z a * inject_Z b = inject_Z (a * b).
Proof. reflexivity. Qed.

Lemma Qle_bool_inject (a b : Z) : Qle_bool (inject_Z a) (inject_Z b) = (a <=? b)%Z.
Proof. unfold Qle_bool, inject_Z. cbn [Qnum Qden]. rewrite !Z.mul_1_r. reflexivity. Qed.

End ChunkProperties.

Lemma loadChunks_cuts_the_next_chunk_witness :
  let result := fst (ChunkLoader.loadChunks (ChunkLoader.new ChunkLoader.defaultConfig)
                       [10; 20; 30; 40; 50]%Z 1 2) in
  drop (Z.to_nat 1) [10; 20; 30; 40; 50]%Z
  = ChunkLoader.chunk result
    ++ drop (Z.to_nat (ChunkLoader.nextIndex result)) [10; 20; 30; 40; 50]%Z
  /\ (Z.of_nat (length (ChunkLoader.chunk result)) <= 2)%Z
  /\ (ChunkLoader.hasMore result = true
      -> Z.of_nat (length (ChunkLoader.chunk result)) = 2%Z)
  /\ (ChunkLoader.hasMore result = false
      <-> ChunkLoader.nextIndex result = Z.of_nat (length [10; 20; 30; 40; 50]%Z)).
Proof.
  apply (loadChunks_cuts_the_next_chunk (ChunkLoader.new ChunkLoader.defaultConfig)
           [10; 20; 30; 40; 50]%Z 1 2); lia.
Defined.

Lemma preloads_stay_within_the_maximum_witness :
  (Z.of_nat (length (ChunkLoader.loadingChunks
                       (fold_left ChunkLoader.step
                          [ChunkLoader.Load [10; 20; 30]%Z 0 1;
                           ChunkLoader.Load [10; 20; 30]%Z 1 1;
                           ChunkLoader.TimerFires (JsNumber.of_Z 0)]
                          (ChunkLoader.new ChunkLoader.defaultConfig))))
   <= 3)%Z.
Proof.
  apply (preloads_stay_within_the_maximum ChunkLoader.defaultConfig
           [ChunkLoader.Load [10; 20; 30]%Z 0 1;
            ChunkLoader.Load [10; 20; 30]%Z 1 1;
            ChunkLoader.TimerFires (JsNumber.of_Z 0)]).
  simpl. lia.
Defined.

(** ** The metrics service *)

Section ServiceProperties.
Import DataProcessor MetricCalculator.
Variable Number_toString : Q -> string.
Variable JSON_stringify : nat -> string.

(** X25. The global metrics are cached under the number of records
    only: once they have been computed for a data set, a request for any data
    set of the same length made within 24 hours is answered with the metrics
    of the first, and the cache is left as it is. *)
Theorem global_metrics_are_cached_by_length
    (cache : gmap string (DataService.entry (Data := MetricCalculationResult)))
    (now_get now_set now_get' now_set' : Z) (data other : list (gmap string jsval)) :
  let first := DataServiceMetrics.calculateGlobalMetrics Number_toString JSON_stringify
                 cache now_get now_set data in
  fst (DataService.getCache now_get
         (DataServiceMetrics.getCacheKey "global_metrics" (JSON_stringify (length data)))
         cache) = None ->
  data <> [] ->
  length other = length data ->
  now_set <> 0%Z ->
  (now_get' - now_set < DataService.CACHE_DURATION)%Z ->
  fst first = Some (calculateMetrics Number_toString (aggregateGroup data ∅))
  /\ DataServiceMetrics.calculateGlobalMetrics Number_toString JSON_stringify
       (snd first) now_get' now_set' other
     = first.
Proof.
  intros first Hmiss Hdata Hlength Hstamp Hfresh.
  unfold first, DataServiceMetrics.calculateGlobalMetrics.
  rewrite Hlength.
  set (key := DataServiceMetrics.getCacheKey "global_metrics"
                (JSON_stringify (length data))) in *.
  destruct (DataService.getCache now_get key cache) as [[cached|] cache'] eqn:Hget;
    [discriminate Hmiss|].
  destruct data as [|record data]; [congruence|].
  unfold calculateAllMetrics, aggregateByDimensions. cbn [length Nat.eqb mbind option_bind].
  cbn [fst snd]. split; [reflexivity|].
  unfold DataService.getCache, DataService.setCache.
  rewrite lookup_insert_eq. unfold DataService.isCacheValid.
  cbn [DataService.timestamp DataService.data fmap option_fmap option_map].
  destruct (Z.eqb_spec now_set 0) as [?|_]; [congruence|].
  destruct (Z.ltb_spec (now_get' - now_set) DataService.CACHE_DURATION) as [_|?]; [|lia].
  reflexivity.
Qed.

(** X26. [calculateAllMetrics] throws exactly on no data, and otherwise
    gives the metrics of the one group of all the records.
    [calculateMetricsByDimensions] never throws: it gives one result for each
    group of [aggregateByDimensions], in the order of the groups, and each
    result carries its group. *)
Theorem metrics_follow_the_groups (data : list (gmap string jsval)) (fields : list string) :
  (calculateAllMetrics Number_toString data = None <-> data = [])
  /\ (data <> [] ->
      calculateAllMetrics Number_toString data
      = Some (calculateMetrics Number_toString (aggregateGroup data ∅)))
  /\ exists results,
       calculateMetricsByDimensions Number_toString data fields = Some results
       /\ aggregateByDimensions Number_toString data fields
          = Some (List.map aggregated results).
Proof.
  split; [|split].
  - destruct data as [|record data]; [split; reflexivity|].
    split; [discriminate | congruence].
  - intros Hdata. destruct data as [|record data]; [congruence | reflexivity].
  - destruct (aggregateByDimensions_total Number_toString data fields) as [groups Hgroups].
    exists (List.map (calculateMetrics Number_toString) groups).
    unfold calculateMetricsByDimensions. rewrite Hgroups. split; [reflexivity|].
    f_equal. rewrite List.map_map. symmetry.
    erewrite map_ext; [apply map_id|].
    intros g. apply aggregated_of_calculateMetrics.
Qed.

End ServiceProperties.

Lemma global_metrics_are_cached_by_length_witness :
  DataServiceMetrics.calculateGlobalMetrics decimal1_toString
    (fun n => Examples.stringify_integer (Z.of_nat n))
    (snd (DataServiceMetrics.calculateGlobalMetrics decimal1_toString
            (fun n => Examples.stringify_integer (Z.of_nat n))
            ∅ 1000 1000 [Examples.scenario_record]))
    2000 2000 [Examples.only_organization_x]
  = DataServiceMetrics.calculateGlobalMetrics decimal1_toString
      (fun n => Examples.stringify_integer (Z.of_nat n))
      ∅ 1000 1000 [Examples.scenario_record].
Proof.
  apply (global_metrics_are_cached_by_length decimal1_toString
           (fun n => Examples.stringify_integer (Z.of_nat n))
           ∅ 1000 1000 2000 2000 [Examples.scenario_record]
           [Examples.only_organization_x]).
  - reflexivity.
  - discriminate.
  - reflexivity.
  - lia.
  - reflexivity.
Defined.

(** ** The two filters, and answers after [clearCache] *)

Section FilterComparison.
Import DataProcessor.
Variable Number_toString : Q -> string.
Variable Number_ofString : string -> jsval.
Variable JSON_stringify : list string -> gmap string condition -> Z -> string.

Lemma entryPasses_conditionHolds (record : gmap string jsval) (e : string * condition) :
  DataService.entryPasses record e = true -> conditionHolds record e = true.
Proof.
  destruct e as [field [v|values]]; cbn; [exact (fun H => H)|].
  intros ->. apply orb_true_r.
Qed.

Lemma forallb_agree (A : Type) (f g : A -> bool) (l : list A) :
  (forall x, In x l -> f x = g x) -> forallb f l = forallb g l.
Proof.
  induction l as [|x l IH]; intros H; [reflexivity|].
  cbn [forallb]. rewrite (H x (or_introl eq_refl)), IH; [reflexivity|].
  intros y Hy. apply H. right. exact Hy.
Qed.

Lemma filter_sublist_of (A : Type) (f g : A -> bool) (l : list A) :
  (forall x, f x = true -> g x = true) ->
  sublist (List.filter f l) (List.filter g l).
Proof.
  intros Hfg. induction l as [|x l IH]; cbn [List.filter]; [constructor|].
  destruct (f x) eqn:Hf.
  - rewrite (Hfg x Hf). apply sublist_skip. exact IH.
  - destruct (g x); [apply sublist_cons|]; exact IH.
Qed.

(** X27. The two filters differ on the empty selection only: what
    [DataService.applyFilters] keeps, [filterData] keeps too, in the same
    order; with no empty array among the filters the two results are the
    same, and with one [applyFilters] keeps nothing. *)
Theorem filters_differ_on_the_empty_selection (data : list (gmap string jsval))
    (filters : gmap string condition) :
  sublist (DataService.applyFilters data filters) (filterData data filters)
  /\ ((forall field, filters !! field <> Some (Array [])) ->
      DataService.applyFilters data filters = filterData data filters)
  /\ ((exists field, filters !! field = Some (Array [])) ->
      DataService.applyFilters data filters = []).
Proof.
  unfold DataService.applyFilters, filterData. split; [|split].
  - apply filter_sublist_of. intros record H.
    rewrite forallb_forall in H |- *. intros e He.
    apply entryPasses_conditionHolds, H, He.
  - intros Hnone. apply List.filter_ext. intros record.
    apply forallb_agree. intros [field c] He.
    apply list_elem_of_In, elem_of_map_to_list in He.
    destruct c as [v|[|value values]]; [destruct v; reflexivity | | reflexivity].
    destruct (Hnone field He).
  - intros [field Hfield].
    assert (Hin : In (field, Array []) (map_to_list filters)).
    { apply list_elem_of_In, elem_of_map_to_list. exact Hfield. }
    induction data as [|record data IH]; [reflexivity|].
    cbn [List.filter].
    destruct (forallb (DataService.entryPasses record) (map_to_list filters)) eqn:Hall;
      [|exact IH].
    rewrite forallb_forall in Hall. specialize (Hall _ Hin). discriminate Hall.
Qed.

(** X28. After [clearCache] a request is computed from what the storage
    holds now: the answer is the sorted, limited grouping of the stored
    records that pass the filters, whatever the cache held before. *)
Theorem clearCache_makes_the_answer_fresh
    (db : InsuranceDatabase.InsuranceDatabase) (now : Z)
    (stored : list (gmap string jsval)) (dimensions : list string)
    (filters : gmap string condition) (limit : Z) :
  exists results,
    Calculations.groupByAndCalculate Number_toString Number_ofString
      (filterData stored filters) dimensions = Some results
    /\ fst (InsuranceDatabase.aggregateByDimensions Number_toString Number_ofString JSON_stringify
              (InsuranceDatabase.clearCache db) now stored dimensions filters limit)
       = Some (InsuranceDatabase.CachedAnalysis
                 (InsuranceDatabase.slice0 (InsuranceDatabase.sortByCountDesc results)
                                           limit))
    /\ InsuranceDatabase.cacheSize
         (snd (InsuranceDatabase.aggregateByDimensions Number_toString Number_ofString JSON_stringify
                 (InsuranceDatabase.clearCache db) now stored dimensions filters limit))
       = 2%nat.
Proof.
  destruct (groupByAndCalculate_total Number_toString Number_ofString (filterData stored filters)
              dimensions) as [results Hresults].
  exists results. split; [exact Hresults|].
  assert (Hget : forall key,
             InsuranceDatabase.getCache (InsuranceDatabase.clearCache db) now key
             = (None, InsuranceDatabase.clearCache db)).
  { intros key. unfold InsuranceDatabase.getCache, InsuranceDatabase.clearCache.
    cbn [InsuranceDatabase.cache]. rewrite lookup_empty. reflexivity. }
  unfold InsuranceDatabase.aggregateByDimensions, InsuranceDatabase.findAll.
  rewrite Hget. cbn beta iota. rewrite Hget. cbn beta iota.
  rewrite Hresults. cbn [fst snd]. split; [reflexivity|].
  unfold InsuranceDatabase.cacheSize, InsuranceDatabase.setCache,
    InsuranceDatabase.clearCache.
  cbn [InsuranceDatabase.cache].
  rewrite map_size_insert_None.
  - rewrite map_size_insert_None by apply lookup_empty. rewrite map_size_empty.
    reflexivity.
  - apply lookup_insert_None. split; [apply lookup_empty|].
    intros H.
    apply (f_equal (fun s => match s with String c _ => c | EmptyString => "_"%char end))
      in H.
    cbv in H. discriminate H.
Qed.
End FilterComparison.


Lemma filters_differ_on_the_empty_selection_witness :
  DataService.applyFilters [Examples.scenario_record]
    {[ "third_level_organization" := DataProcessor.Array [] ]}
  = [].
Proof.
  apply (proj2 (proj2 (filters_differ_on_the_empty_selection
                         [Examples.scenario_record]
                         {[ "third_level_organization" := DataProcessor.Array [] ]}))).
  exists "third_level_organization". reflexivity.
Defined.
